(** * textlint-web-checker: the mock lint engine, the context extractor,
      the diagnostic filter and the debounced lint effect.

    Embedded sources:
    - [client/src/hooks/useTextlint.ts]: [generateMockLintResult], in its two
      revisions (the file is present twice: lines 1-270 scan every match of
      each rule, lines 271-499 test the whole line length and stop at the
      first doubled particle / repeated word);
    - the page component ([getErrorContext], the debounce [useEffect],
      [filteredMessages]).

    A JavaScript string is a sequence of UTF-16 code units; [length],
    [indexOf], [substring] and the regular expressions (none has the [u]
    flag) all count code units.  Here a string is a [list Z] of code units. *)

From Stdlib Require Import ZArith List Bool Lia Arith String Ascii DecimalString Sorted.
Import ListNotations.
Local Open Scope Z_scope.

(** ** JavaScript strings *)

Module JS.

Definition jsstring := list Z.

(** Decoding of the UTF-8 bytes of a literal of this file into UTF-16 code
    units, so that the literals of the source can be written as they are. *)
Fixpoint utf8_decode (bs : list Z) : jsstring :=
  match bs with
  | [] => []
  | b0 :: r0 =>
    if b0 <? 0x80 then b0 :: utf8_decode r0
    else if b0 <? 0xE0 then
      match r0 with
      | b1 :: r1 =>
        (Z.shiftl (Z.land b0 0x1F) 6 + Z.land b1 0x3F) :: utf8_decode r1
      | _ => []
      end
    else if b0 <? 0xF0 then
      match r0 with
      | b1 :: b2 :: r2 =>
        (Z.shiftl (Z.land b0 0x0F) 12 + Z.shiftl (Z.land b1 0x3F) 6
         + Z.land b2 0x3F) :: utf8_decode r2
      | _ => []
      end
    else
      match r0 with
      | b1 :: b2 :: b3 :: r3 =>
        let cp := Z.shiftl (Z.land b0 0x07) 18 + Z.shiftl (Z.land b1 0x3F) 12
                  + Z.shiftl (Z.land b2 0x3F) 6 + Z.land b3 0x3F in
        let v := cp - 0x10000 in
        (0xD800 + Z.shiftr v 10) :: (0xDC00 + Z.land v 0x3FF) :: utf8_decode r3
      | _ => []
      end
  end.

Fixpoint bytes_of (s : string) : list Z :=
  match s with
  | EmptyString => []
  | String a r => Z.of_nat (nat_of_ascii a) :: bytes_of r
  end.

Definition lit (s : string) : jsstring := utf8_decode (bytes_of s).

(** [s.length] *)
Definition len (s : jsstring) : Z := Z.of_nat (List.length s).

Fixpoint is_prefix (p s : jsstring) : bool :=
  match p, s with
  | [], _ => true
  | _ :: _, [] => false
  | a :: p', b :: s' => (a =? b) && is_prefix p' s'
  end.

(** [s.indexOf(p)]: the first position at which [p] occurs, or [-1].
    [k] is the position of the head of [s] in the whole string. *)
Fixpoint indexOf_from (s p : jsstring) (k : Z) : Z :=
  if is_prefix p s then k
  else match s with
       | [] => -1
       | _ :: s' => indexOf_from s' p (k + 1)
       end.

Definition indexOf (s p : jsstring) : Z := indexOf_from s p 0.

(** [s.includes(p)] *)
Fixpoint includes (s p : jsstring) : bool :=
  is_prefix p s ||
  match s with
  | [] => false
  | _ :: s' => includes s' p
  end.

Definition clamp (x n : Z) : Z := Z.min (Z.max x 0) n.

(** [s.substring(a, b)]: both arguments are clamped to [0, s.length] and
    swapped when [a > b]. *)
Definition substring (s : jsstring) (a b : Z) : jsstring :=
  let a' := clamp a (len s) in
  let b' := clamp b (len s) in
  let from := Z.min a' b' in
  let to := Z.max a' b' in
  firstn (Z.to_nat (to - from)) (skipn (Z.to_nat from) s).

(** [s.substring(a)] *)
Definition substring_from (s : jsstring) (a : Z) : jsstring :=
  substring s a (len s).

(** [s.split(c)] for a one-character separator [c], and
    [s.split(/[...]/)] for a class of one-character separators: the
    pieces between the separators, always at least one piece. *)
Fixpoint split_on (sep : Z -> bool) (s : jsstring) : list jsstring :=
  match s with
  | [] => [[]]
  | c :: s' =>
    if sep c then [] :: split_on sep s'
    else match split_on sep s' with
         | [] => [[c]]
         | p :: ps => (c :: p) :: ps
         end
  end.

(** Sets of code units as lists of inclusive ranges. *)
Definition in_ranges (rs : list (Z * Z)) (c : Z) : bool :=
  existsb (fun r => (fst r <=? c) && (c <=? snd r)) rs.

(** White space and line terminators: the class [\s], and what [trim]
    removes. *)
Definition white_space : list (Z * Z) :=
  [(0x09, 0x0D); (0x20, 0x20); (0xA0, 0xA0); (0x1680, 0x1680);
   (0x2000, 0x200A); (0x2028, 0x2029); (0x202F, 0x202F); (0x205F, 0x205F);
   (0x3000, 0x3000); (0xFEFF, 0xFEFF)].

(** [text.trim()] *)
Fixpoint trim_start (s : jsstring) : jsstring :=
  match s with
  | [] => []
  | c :: s' => if in_ranges white_space c then trim_start s' else s
  end.

Definition trim (s : jsstring) : jsstring :=
  rev (trim_start (rev (trim_start s))).

(** The decimal form of a non-negative integer, as a template literal
    prints [s.length]. *)
Definition decimal (n : Z) : jsstring :=
  lit (NilEmpty.string_of_uint (N.to_uint (Z.to_N n))).

(** [arr.length] *)
Definition len_msgs {A} (l : list A) : Z := Z.of_nat (List.length l).

Definition jsstring_eqb (a b : jsstring) : bool :=
  if list_eq_dec Z.eq_dec a b then true else false.

End JS.

Import JS.

(** ** The fragment of ECMAScript regular expressions the sources use *)

Module RegExp.

(** A character class: ranges of code units, possibly negated. *)
Record cclass := { neg : bool; ranges : list (Z * Z) }.

Definition in_class (c : cclass) (ch : Z) : bool :=
  xorb (neg c) (in_ranges (ranges c) ch).

Definition one_of (s : string) : list (Z * Z) :=
  map (fun c => (c, c)) (lit s).

Definition word_char : list (Z * Z) :=
  [(0x30, 0x39); (0x41, 0x5A); (0x5F, 0x5F); (0x61, 0x7A)].

Inductive regex :=
| Lit (l : jsstring)                          (* literal characters *)
| Cls (c : cclass)                            (* [...] or [^...] *)
| Rep (mn : nat) (mx : option nat) (c : cclass)
                                              (* [...]{mn,mx}, [...]+ : greedy *)
| Seq (r1 r2 : regex)
| Group (r : regex)                           (* ( r ), capture 1 *)
| Backref                                     (* \1 *)
| WordB                                       (* \b *)
| Bol.                                        (* ^ *)

(** The capture is a pair of positions (start, end) in the input. *)
Definition capture := option (nat * nat).
Definition cont := nat -> capture -> option (nat * capture).

(** Length of the longest run of characters of [c] at the head of [s]. *)
Fixpoint run_length (c : cclass) (s : jsstring) : nat :=
  match s with
  | [] => O
  | ch :: s' => if in_class c ch then S (run_length c s') else O
  end.

(** Greedy backtracking: try [f j], then [f (j-1)], ... down to [f mn]. *)
Fixpoint try_down {A} (mn j : nat) (f : nat -> option A) : option A :=
  if (j <? mn)%nat then None
  else match f j with
       | Some x => Some x
       | None => match j with
                 | O => None
                 | S j' => try_down mn j' f
                 end
       end.

Section Matcher.
Variable s : jsstring.

Definition slice (a b : nat) : jsstring := firstn (b - a) (skipn a s).

Definition is_word_at (i : nat) : bool :=
  match nth_error s i with
  | Some ch => in_ranges word_char ch
  | None => false
  end.

Definition at_word_boundary (pos : nat) : bool :=
  xorb (match pos with O => false | S p => is_word_at p end) (is_word_at pos).

(** The matcher, in continuation-passing style as in the ECMAScript
    specification: [m r k pos cap] matches [r] at [pos] and hands the end
    position to [k]; a failure of [k] makes the quantifier retry with fewer
    characters. *)
Fixpoint m (r : regex) (k : cont) (pos : nat) (cap : capture)
  : option (nat * capture) :=
  match r with
  | Lit l =>
    if is_prefix l (skipn pos s) then k (pos + List.length l)%nat cap else None
  | Cls c =>
    match nth_error s pos with
    | Some ch => if in_class c ch then k (S pos) cap else None
    | None => None
    end
  | Rep mn mx c =>
    let run := run_length c (skipn pos s) in
    let top := match mx with Some x => Nat.min x run | None => run end in
    try_down mn top (fun j => k (pos + j)%nat cap)
  | Seq r1 r2 => m r1 (m r2 k) pos cap
  | Group r1 => m r1 (fun p _ => k p (Some (pos, p))) pos cap
  | Backref =>
    match cap with
    | None => k pos cap
    | Some (a, b) =>
      if is_prefix (slice a b) (skipn pos s) then k (pos + (b - a))%nat cap
      else None
    end
  | WordB => if at_word_boundary pos then k pos cap else None
  | Bol => match pos with O => k pos cap | S _ => None end
  end.

(** A match: [index], the matched text [m[0]] and the capture [m[1]]. *)
Record Match := { index : Z; m0 : jsstring; m1 : jsstring; m_end : nat }.

Definition mkMatch (i e : nat) (cap : capture) : Match :=
  {| index := Z.of_nat i;
     m0 := slice i e;
     m1 := match cap with Some (a, b) => slice a b | None => [] end;
     m_end := e |}.

(** The leftmost match starting at [i], [i+1], ..., [i+n]. *)
Fixpoint search (r : regex) (n i : nat) : option Match :=
  match m r (fun p c => Some (p, c)) i None with
  | Some (e, cap) => Some (mkMatch i e cap)
  | None => match n with
            | O => None
            | S n' => search r n' (S i)
            end
  end.

(** [r.exec(s)] with [r.lastIndex = lastIndex] *)
Definition exec (r : regex) (lastIndex : nat) : option Match :=
  if (List.length s <? lastIndex)%nat then None
  else search r (List.length s - lastIndex) lastIndex.

(** The loop [while ((match = r.exec(s)) !== null) { ... }] of a regular
    expression with the [g] flag: each match moves [lastIndex] to its end.
    [fuel] bounds the number of iterations. *)
Fixpoint execLoop (r : regex) (fuel lastIndex : nat) : list Match :=
  match fuel with
  | O => []
  | S fuel' =>
    match exec r lastIndex with
    | None => []
    | Some mt => mt :: execLoop r fuel' (m_end mt)
    end
  end.

Definition execAll (r : regex) : list Match :=
  execLoop r (S (List.length s)) O.

(** [s.match(r)] for [r] without the [g] flag *)
Definition match_ (r : regex) : option Match := exec r O.

End Matcher.

(** The least number of characters a match of [r] consumes. *)
Fixpoint min_len (r : regex) : nat :=
  match r with
  | Lit l => List.length l
  | Cls _ => 1
  | Rep mn _ _ => mn
  | Seq r1 r2 => min_len r1 + min_len r2
  | Group r1 => min_len r1
  | Backref | WordB | Bol => 0
  end.

End RegExp.

Import RegExp.

(** ** The mock engine: [generateMockLintResult] of [hooks/useTextlint.ts] *)

Module Engine.

Record TextlintMessage := {
  type : jsstring;
  ruleId : jsstring;
  message : jsstring;
  line : Z;
  column : Z;
  severity : Z
}.

Record LintResult := {
  messages : list TextlintMessage;
  errorCount : Z;
  warningCount : Z
}.

(** The two revisions of the function that [useTextlint.ts] holds. *)
Inductive revision :=
| ScanAll      (* lines 19-245 *)
| ScanFirst.   (* lines 289-474 *)

Definition lint_msg (rule msg : jsstring) (ln col sev : Z) : TextlintMessage :=
  {| type := lit "lint"; ruleId := rule; message := msg;
     line := ln; column := col; severity := sev |}.

Definition cls (l : list (Z * Z)) : cclass := {| neg := false; ranges := l |}.
Definition ncls (l : list (Z * Z)) : cclass := {| neg := true; ranges := l |}.

(** *** The patterns *)

(* /[\uff01!\uff1f?]+/g *)
Definition exclamationPattern : regex :=
  Rep 1 None (cls [(0xff01, 0xff01); (0x21, 0x21); (0xff1f, 0xff1f); (0x3f, 0x3f)]).

(* /[。．]/ *)
Definition sentence_delim (c : Z) : bool := in_ranges (one_of "。．") c.

Definition redundantPhrases : list (regex * jsstring) :=
  [ (Lit (lit "まず最初に"), lit "「まず」または「最初に」");
    (Lit (lit "することができる"), lit "「できる」");
    (Lit (lit "することが可能"), lit "「可能」") ].

Definition weakPhrases : list regex :=
  [ Lit (lit "かもしれない"); Lit (lit "思う"); Lit (lit "だろう") ].

(* /([はがをに])[^はがをに]{0,10}\1/ *)
Definition doubleJoshiPattern : regex :=
  Seq (Group (Cls (cls (one_of "はがをに"))))
      (Seq (Rep 0 (Some 10%nat) (ncls (one_of "はがをに"))) Backref).

(* /([\u3040-\u309F\u30A0-\u30FF\u4E00-\u9FAF]{2,})\1/g *)
Definition japaneseWordPattern : regex :=
  Seq (Group (Rep 2 None
                (cls [(0x3040, 0x309F); (0x30A0, 0x30FF); (0x4E00, 0x9FAF)])))
      Backref.

(* /([a-zA-Z]{3,})\1/g *)
Definition englishWordPattern : regex :=
  Seq (Group (Rep 3 None (cls [(0x61, 0x7A); (0x41, 0x5A)]))) Backref.

(* /\b([a-zA-Z]{2,})\s+\1\b/g *)
Definition englishWordPatternWithSpace : regex :=
  Seq WordB
      (Seq (Group (Rep 2 None (cls [(0x61, 0x7A); (0x41, 0x5A)])))
           (Seq (Rep 1 None (cls white_space)) (Seq Backref WordB))).

(* /(\S+)\1/ *)
Definition consecutiveWordsPattern : regex :=
  Seq (Group (Rep 1 None (ncls white_space))) Backref.

Definition ranukiPatterns : list regex :=
  [ Lit (lit "食べれる"); Lit (lit "見れる"); Lit (lit "着れる");
    Lit (lit "考えれる") ].

(* /[\u4e00-\u9faf]{7,}/ *)
Definition kanjiPattern : regex := Rep 7 None (cls [(0x4e00, 0x9faf)]).

Definition aiPatterns : list (regex * jsstring) :=
  [ (Lit (lit "革命的な"), lit "no-ai-hype-expressions");
    (Lit (lit "画期的な"), lit "no-ai-hype-expressions");
    (Lit (lit "✅"), lit "no-ai-list-formatting");
    (* /\*\*[^*]+\*\*:/g *)
    (Seq (Lit (lit "**"))
         (Seq (Rep 1 None (ncls (one_of "*"))) (Lit (lit "**:"))),
     lit "no-ai-emphasis-patterns") ].

(** *** The rules, each giving the messages it pushes for one line, in the
    order of the pushes *)

Section Line.
Variable lineText : jsstring.
Variable currentLine : Z.

(* 1 *)
Definition exclamation_rule : list TextlintMessage :=
  map (fun mt => lint_msg (lit "no-exclamation-question-mark")
                   (lit "文末に感嘆符や疑問符を使用しないでください")
                   currentLine (index mt + 1) 2)
      (execAll lineText exclamationPattern).

(* 2, lines 46-60: [sentences.forEach] with the running [currentColumn];
   the state of the loop is the messages pushed so far and [currentColumn]. *)
Definition sentence_message (n : Z) : jsstring :=
  lit "文が長すぎます。100文字以内にしてください。現在の文字数: " ++ decimal n.

Definition sentence_step (st : list TextlintMessage * Z) (sentence : jsstring)
  : list TextlintMessage * Z :=
  let '(pushed, currentColumn) := st in
  let pushed' :=
    if 100 <? len sentence
    then pushed ++ [lint_msg (lit "sentence-length")
                      (sentence_message (len sentence))
                      currentLine currentColumn 2]
    else pushed in
  (pushed', currentColumn + (len sentence + 1)).

Definition sentence_rule_split : list TextlintMessage :=
  let sentences := split_on sentence_delim lineText in
  fst (fold_left sentence_step sentences ([], 1)).

(* 2, lines 316-325 *)
Definition sentence_rule_line : list TextlintMessage :=
  if 100 <? len lineText
  then [lint_msg (lit "sentence-length") (sentence_message (len lineText))
          currentLine 1 2]
  else [].

(* 3 *)
Definition redundant_rule : list TextlintMessage :=
  flat_map (fun '(pattern, suggestion) =>
    map (fun mt => lint_msg (lit "ja-no-redundant-expression")
                     (lit "冗長な表現です。" ++ suggestion
                        ++ lit "を使用してください")
                     currentLine (index mt + 1) 1)
        (execAll lineText pattern))
    redundantPhrases.

(* 4 *)
Definition weak_rule : list TextlintMessage :=
  flat_map (fun pattern =>
    map (fun mt => lint_msg (lit "ja-no-weak-phrase")
                     (lit "弱い表現を使用しています。より明確な表現を検討してください")
                     currentLine (index mt + 1) 1)
        (execAll lineText pattern))
    weakPhrases.

Definition joshi_message (particle : jsstring) : jsstring :=
  lit "助詞「" ++ particle ++ lit "」が連続して使用されています".

(* 5, lines 105-117 *)
Definition joshi_rule_all : list TextlintMessage :=
  map (fun mt => lint_msg (lit "no-doubled-joshi") (joshi_message (m1 mt))
                   currentLine (index mt + 1) 1)
      (execAll lineText doubleJoshiPattern).

(* 5, lines 370-380 *)
Definition joshi_rule_first : list TextlintMessage :=
  match match_ lineText doubleJoshiPattern with
  | Some doubleJoshi =>
    [lint_msg (lit "no-doubled-joshi") (joshi_message (m1 doubleJoshi))
       currentLine (indexOf lineText (m0 doubleJoshi) + 1) 1]
  | None => []
  end.

Definition successive_message (word : jsstring) : jsstring :=
  lit "「" ++ word ++ lit "」が連続しています".

(* 6, lines 121-164 *)
Definition successive_rule_all : list TextlintMessage :=
  map (fun mt => lint_msg (lit "ja-no-successive-word")
                   (successive_message (m1 mt)) currentLine (index mt + 1) 2)
      (execAll lineText japaneseWordPattern)
  ++
  map (fun mt => lint_msg (lit "ja-no-successive-word")
                   (successive_message (m1 mt)) currentLine (index mt + 1) 2)
      (execAll lineText englishWordPattern)
  ++
  map (fun mt => lint_msg (lit "ja-no-successive-word")
                   (successive_message (m1 mt) ++ lit "（スペース区切り）")
                   currentLine (index mt + 1) 2)
      (execAll lineText englishWordPatternWithSpace).

(* 6, lines 383-393 *)
Definition successive_rule_first : list TextlintMessage :=
  match match_ lineText consecutiveWordsPattern with
  | Some consecutiveWords =>
    [lint_msg (lit "ja-no-successive-word")
       (successive_message (m1 consecutiveWords))
       currentLine (indexOf lineText (m0 consecutiveWords) + 1) 2]
  | None => []
  end.

(* 7 *)
Definition ranuki_rule : list TextlintMessage :=
  flat_map (fun pattern =>
    map (fun mt => lint_msg (lit "ja-no-abusage")
                     (lit "ら抜き言葉を使用しています")
                     currentLine (index mt + 1) 1)
        (execAll lineText pattern))
    ranukiPatterns.

(* 8 *)
Definition kanji_rule : list TextlintMessage :=
  match match_ lineText kanjiPattern with
  | Some kanjiSequence =>
    [lint_msg (lit "max-kanji-continuous-len")
       (lit "連続する漢字が長すぎます（" ++ decimal (len (m0 kanjiSequence))
          ++ lit "文字）。6文字以内にしてください")
       currentLine (indexOf lineText (m0 kanjiSequence) + 1) 1]
  | None => []
  end.

(* 9 *)
Definition ai_rule : list TextlintMessage :=
  flat_map (fun '(pattern, rule) =>
    map (fun mt => lint_msg rule
                     (lit "AI生成文書に見られる表現パターンです")
                     currentLine (index mt + 1) 1)
        (execAll lineText pattern))
    aiPatterns.

(* 10 *)
Definition colon_rule : list TextlintMessage :=
  if includes lineText (lit ":") || includes lineText (lit "：") then
    let colonIndex :=
      Z.max (indexOf lineText (lit ":")) (indexOf lineText (lit "：")) in
    [lint_msg (lit "no-ai-colon-continuation")
       (lit "コロンの使用は避けてください")
       currentLine (colonIndex + 1) 1]
  else [].

(** The body of [lines.forEach]: what one line appends to [messages]. *)
Definition lint_line (rev : revision) : list TextlintMessage :=
  exclamation_rule
  ++ (match rev with
      | ScanAll => sentence_rule_split
      | ScanFirst => sentence_rule_line
      end)
  ++ redundant_rule
  ++ weak_rule
  ++ (match rev with ScanAll => joshi_rule_all | ScanFirst => joshi_rule_first end)
  ++ (match rev with
      | ScanAll => successive_rule_all
      | ScanFirst => successive_rule_first
      end)
  ++ ranuki_rule
  ++ kanji_rule
  ++ ai_rule
  ++ colon_rule.

End Line.

(** [lines.forEach((lineText, lineIndex) => ...)], [lineIndex] counted
    from [i]. *)
Fixpoint lint_lines (rev : revision) (lines : list jsstring) (i : Z)
  : list TextlintMessage :=
  match lines with
  | [] => []
  | lineText :: rest => lint_line lineText (i + 1) rev ++ lint_lines rev rest (i + 1)
  end.

Definition split_lines (text : jsstring) : list jsstring :=
  split_on (fun c => c =? 0x0A) text.

Definition generateMockLintResult (rev : revision) (text : jsstring) : LintResult :=
  let lines := split_lines text in
  let messages := lint_lines rev lines 0 in
  {| messages := messages;
     errorCount := len_msgs (filter (fun m => severity m =? 2) messages);
     warningCount := len_msgs (filter (fun m => severity m =? 1) messages) |}.

End Engine.

Import Engine.

(** ** The page component: context snippet, filter, debounced lint *)

Module Home.

(** *** [getErrorContext] *)

Record ErrorContext := { before : jsstring; error : jsstring; after : jsstring }.

(* /^[^\s、。，．！？!?,.　]+/ *)
Definition wordClass : cclass :=
  ncls (white_space ++ one_of "、。，．！？!?,.　").

Definition wordPattern : regex := Seq Bol (Rep 1 None wordClass).

(** [lines[i]] for an integer [i]: [undefined] outside the array. *)
Definition lookup {A} (l : list A) (i : Z) : option A :=
  if i <? 0 then None else nth_error l (Z.to_nat i).

Definition errorStart (column : Z) : Z := Z.max 0 (column - 1).

Definition errorLength (lineText : jsstring) (column : Z) : Z :=
  let restOfLine := substring_from lineText (errorStart column) in
  match match_ restOfLine wordPattern with
  | Some wordMatch => len (m0 wordMatch)
  | None => 1
  end.

Definition errorEnd (lineText : jsstring) (column : Z) : Z :=
  errorStart column + errorLength lineText column.

Definition beforeStart (column contextLength : Z) : Z :=
  Z.max 0 (errorStart column - contextLength).

Definition afterEnd (lineText : jsstring) (column contextLength : Z) : Z :=
  Z.min (len lineText) (errorEnd lineText column + contextLength).

Definition ellipsis (b : bool) : jsstring := if b then lit "..." else [].

(** The result is [None] where the JavaScript raises ([lineText] undefined
    and [.substring] called on it). *)
Definition getErrorContext (text : jsstring) (line column contextLength : Z)
  : option ErrorContext :=
  let lines := split_lines text in
  if (line <? 1) || (len_msgs lines <? line) then
    Some {| before := []; error := []; after := [] |}
  else
    match lookup lines (line - 1) with
    | None => None
    | Some lineText =>
      let errorStart := errorStart column in
      let errorEnd := errorEnd lineText column in
      let beforeStart := beforeStart column contextLength in
      let before := ellipsis (0 <? beforeStart)
                    ++ substring lineText beforeStart errorStart in
      let error := substring lineText errorStart errorEnd in
      let afterEnd := afterEnd lineText column contextLength in
      let after := substring lineText errorEnd afterEnd
                   ++ ellipsis (afterEnd <? len lineText) in
      Some {| before := before; error := error; after := after |}
    end.

(** *** [filteredMessages] *)

Inductive FilterType := all | error_ | warning.

Record Rule := {
  id : jsstring;
  name : jsstring;
  enabled : bool;
  category : jsstring
}.

(** The rule configuration the page starts with (lines 72-85). *)
Definition initial_rules : list Rule :=
  map (fun '(i, n, c) => {| id := lit i; name := lit n; enabled := true;
                            category := lit c |})
    [ ("no-exclamation-question-mark", "感嘆符・疑問符の禁止", "technical");
      ("ja-no-successive-word", "連続する単語", "technical");
      ("ja-no-redundant-expression", "冗長な表現", "technical");
      ("ja-no-weak-phrase", "弱い表現", "technical");
      ("no-doubled-joshi", "二重助詞", "technical");
      ("ja-no-abusage", "ら抜き言葉", "technical");
      ("no-ai-hype-expressions", "AI的な誇張表現", "ai");
      ("no-ai-list-formatting", "AI的なリスト書式", "ai");
      ("no-ai-emphasis-patterns", "AI的な強調パターン", "ai");
      ("no-ai-colon-continuation", "コロンの使用", "ai") ]%string.

Definition filteredMessages (lintResult : option LintResult)
  (filter_ : FilterType) (rules : list Rule) : list TextlintMessage :=
  match lintResult with
  | None => []
  | Some result =>
    let messages := messages result in
    let ruleFiltered :=
      filter (fun msg =>
                match find (fun r => jsstring_eqb (id r) (ruleId msg)) rules with
                | None => true
                | Some rule => enabled rule
                end) messages in
    match filter_ with
    | error_ => filter (fun msg => severity msg =? 2) ruleFiltered
    | warning => filter (fun msg => severity msg =? 1) ruleFiltered
    | all => ruleFiltered
    end
  end.

(** *** The debounced lint effect

    Time is counted in milliseconds.  The timers of the page are those of
    [setTimeout]: the effect's 300 ms timer and the 100 ms timer inside
    [lintText] (useTextlint.ts, lines 251-263). *)

Inductive callback :=
| DebounceFire (text : jsstring)    (* async () => { await lintText(text); ... } *)
| MockResolve (text : jsstring).    (* () => { generateMockLintResult(text); ... } *)

Record timer := { tid : nat; remaining : nat; cb : callback }.

Record Page := {
  text : jsstring;
  timers : list timer;
  nextId : nat;
  cleanup : option nat;           (* the timer the effect's cleanup clears *)
  lintResult : option LintResult;
  clock : nat;
  engineCalls : list (nat * jsstring)  (* time and argument of each run of
                                          generateMockLintResult *)
}.

Definition isTextlintLoading : bool := false.   (* useState(false), never set *)

Definition setTimeout (c : callback) (delay : nat) (s : Page) : nat * Page :=
  (nextId s,
   {| text := text s;
      timers := timers s ++ [{| tid := nextId s; remaining := delay; cb := c |}];
      nextId := S (nextId s);
      cleanup := cleanup s;
      lintResult := lintResult s;
      clock := clock s;
      engineCalls := engineCalls s |}).

Definition clearTimeout (i : nat) (s : Page) : Page :=
  {| text := text s;
     timers := filter (fun tm => negb (tid tm =? i)%nat) (timers s);
     nextId := nextId s;
     cleanup := cleanup s;
     lintResult := lintResult s;
     clock := clock s;
     engineCalls := engineCalls s |}.

Definition is_blank (t : jsstring) : bool :=
  match trim t with [] => true | _ => false end.

(** The body of the effect (lines 100-112), run after [text] changed. *)
Definition lintEffect (s : Page) : Page :=
  if is_blank (text s) || isTextlintLoading then
    {| text := text s; timers := timers s; nextId := nextId s;
       cleanup := None; lintResult := None;
       clock := clock s; engineCalls := engineCalls s |}
  else
    let '(timer, s') := setTimeout (DebounceFire (text s)) 300 s in
    {| text := text s'; timers := timers s'; nextId := nextId s';
       cleanup := Some timer; lintResult := lintResult s';
       clock := clock s'; engineCalls := engineCalls s' |}.

(** An edit: [setText(x)] with a new text; React runs the cleanup of the
    previous effect, then the effect. *)
Definition setText (x : jsstring) (s : Page) : Page :=
  let s1 := {| text := x; timers := timers s; nextId := nextId s;
               cleanup := cleanup s; lintResult := lintResult s;
               clock := clock s; engineCalls := engineCalls s |} in
  let s2 := match cleanup s1 with
            | Some timer => clearTimeout timer s1
            | None => s1
            end in
  lintEffect s2.

(** A timer's callback. *)
Definition fire (rev : revision) (c : callback) (s : Page) : Page :=
  match c with
  | DebounceFire x => snd (setTimeout (MockResolve x) 100 s)
  | MockResolve x =>
    {| text := text s; timers := timers s; nextId := nextId s;
       cleanup := cleanup s;
       lintResult := Some (generateMockLintResult rev x);
       clock := clock s;
       engineCalls := engineCalls s ++ [(clock s, x)] |}
  end.

(** One millisecond passes: the timers that reach zero leave the table and
    their callbacks run, in the order the timers were set. *)
Definition tick (rev : revision) (s : Page) : Page :=
  let aged := map (fun tm => {| tid := tid tm; remaining := pred (remaining tm);
                               cb := cb tm |}) (timers s) in
  let due := filter (fun tm => (remaining tm =? 0)%nat) aged in
  let rest := filter (fun tm => negb (remaining tm =? 0)%nat) aged in
  fold_left (fun st tm => fire rev (cb tm) st) due
    {| text := text s; timers := rest; nextId := nextId s;
       cleanup := cleanup s; lintResult := lintResult s;
       clock := S (clock s); engineCalls := engineCalls s |}.

Fixpoint advance (rev : revision) (d : nat) (s : Page) : Page :=
  match d with
  | O => s
  | S d' => advance rev d' (tick rev s)
  end.

(** The page when it is mounted with the saved text [x]. *)
Definition mount (x : jsstring) : Page :=
  lintEffect {| text := x; timers := []; nextId := 0; cleanup := None;
                lintResult := None; clock := 0; engineCalls := [] |}.

(** *** [scrollToError] (lines 114-149): what it selects, scrolls to and
    shows, for a textarea that is present *)

Record Selection := {
  charIndex : Z;
  selectionLength : Z;
  selectedText : jsstring;
  scrollPosition : Z;
  displayText : jsstring
}.

(* for (let i = 0; i < line - 1 && i < lines.length; i++)
     charIndex += lines[i].length + 1;
   [lines] are the lines from index [i] on. *)
Fixpoint charIndex_loop (lines : list jsstring) (i line charIndex : Z) : Z :=
  match lines with
  | [] => charIndex
  | l :: rest =>
    if i <? line - 1
    then charIndex_loop rest (i + 1) line (charIndex + (len l + 1))
    else charIndex
  end.

Definition scrollToError (text : jsstring) (line column : Z) : Selection :=
  let lines := split_lines text in
  let charIndex := charIndex_loop lines 0 line 0 + (column - 1) in
  (* lines[line - 1]?.substring(column - 1) || '' *)
  let restOfLine := match lookup lines (line - 1) with
                    | Some lineText => substring_from lineText (column - 1)
                    | None => []
                    end in
  let selectionLength := match match_ restOfLine wordPattern with
                         | Some wordMatch => len (m0 wordMatch)
                         | None => 1
                         end in
  let selectedText := substring text charIndex (charIndex + selectionLength) in
  let scrollPosition := Z.max 0 ((line - 3) * 24) in
  let displayText := if 20 <? len selectedText
                     then substring selectedText 0 20 ++ lit "..."
                     else selectedText in
  {| charIndex := charIndex; selectionLength := selectionLength;
     selectedText := selectedText; scrollPosition := scrollPosition;
     displayText := displayText |}.

(** *** [toggleRule] (lines 151-155) and the counts of the panel
    (lines 203-211) *)

Definition toggleRule (rid : jsstring) (prev : list Rule) : list Rule :=
  map (fun rule =>
         if jsstring_eqb (id rule) rid
         then {| id := id rule; name := name rule;
                 enabled := negb (enabled rule); category := category rule |}
         else rule) prev.

Definition panelErrorCount (filtered : list TextlintMessage) : Z :=
  len_msgs (filter (fun msg => severity msg =? 2) filtered).

Definition panelWarningCount (filtered : list TextlintMessage) : Z :=
  len_msgs (filter (fun msg => severity msg =? 1) filtered).

(** *** Events of the page

    [setText] with the text the page already has changes no state, so React
    runs neither the cleanup nor the effect. *)
Definition edit (x : jsstring) (s : Page) : Page :=
  if jsstring_eqb x (text s) then s else setText x s.

(* handleClear (lines 162-166): setText(''); setLintResult(null) *)
Definition handleClear (s : Page) : Page :=
  let s' := edit [] s in
  {| text := text s'; timers := timers s'; nextId := nextId s';
     cleanup := cleanup s'; lintResult := None;
     clock := clock s'; engineCalls := engineCalls s' |}.

Inductive event :=
| Edit (x : jsstring)   (* the user changes the text to [x] *)
| Clear                 (* the clear button *)
| Tick.                 (* one millisecond passes *)

Definition step (rev : revision) (s : Page) (e : event) : Page :=
  match e with
  | Edit x => edit x s
  | Clear => handleClear s
  | Tick => tick rev s
  end.

Definition run (rev : revision) (es : list event) (s : Page) : Page :=
  fold_left (step rev) es s.

End Home.

Import Home.

(** * Vocabulary of the statements *)

(** Selecting messages by rule and by line. *)
Definition has_rule (rid : jsstring) (msg : TextlintMessage) : bool :=
  jsstring_eqb (ruleId msg) rid.

Definition on_line (l : Z) (msg : TextlintMessage) : bool := line msg =? l.

(** The number of messages of one severity, counted one by one. *)
Fixpoint count_severity (sev : Z) (l : list TextlintMessage) : Z :=
  match l with
  | [] => 0
  | msg :: rest => (if severity msg =? sev then 1 else 0) + count_severity sev rest
  end.

(** The sentence-length rule in the words of the specification: the
    segments of the split paired with their running start columns (each
    column is the previous one plus the previous segment's length plus 1 for
    the delimiter), and one message for each segment longer than 100. *)
Fixpoint segment_offsets (segs : list jsstring) (col : Z) : list (Z * jsstring) :=
  match segs with
  | [] => []
  | sg :: rest => (col, sg) :: segment_offsets rest (col + (len sg + 1))
  end.

Definition overlong (cs : Z * jsstring) : bool := 100 <? len (snd cs).

Definition sentence_diag (l : Z) (cs : Z * jsstring) : TextlintMessage :=
  lint_msg (lit "sentence-length") (sentence_message (len (snd cs))) l (fst cs) 2.

(** The slice [a, b) of a string, and the clamping of [substring]. *)
Definition seg (s : jsstring) (a b : nat) : jsstring := firstn (b - a) (skipn a s).

Definition cz (s : jsstring) (a : Z) : nat := Z.to_nat (clamp a (len s)).

(** A boundary character: white space or one of the listed punctuation
    marks, that is, a character outside the class of [wordPattern]. *)
Definition is_boundary (ch : Z) : bool := negb (in_class wordClass ch).

(** Every pending timer is the one that the effect's cleanup clears. *)
Definition tracked (s : Page) : Prop :=
  Forall (fun tm => cleanup s = Some (tid tm)) (timers s).

Definition debounce_timer (i : nat) (x : jsstring) : timer :=
  {| tid := i; remaining := 300; cb := DebounceFire x |}.

(** What an edit to the text [x] leaves pending when it sets timer [i]:
    nothing for a blank text, else the 300 ms timer carrying [x]. *)
Definition pending (x : jsstring) (i : nat) : list timer :=
  if is_blank x then [] else [debounce_timer i x].

Definition is_debounce (tm : timer) : bool :=
  match cb tm with DebounceFire _ => true | MockResolve _ => false end.

Definition timer_text (tm : timer) : jsstring :=
  match cb tm with DebounceFire x => x | MockResolve x => x end.

(** A message moved [k] lines down. *)
Definition shift_line (k : Z) (msg : TextlintMessage) : TextlintMessage :=
  {| type := type msg; ruleId := ruleId msg; message := message msg;
     line := line msg + k; column := column msg; severity := severity msg |}.

(** The exclamation and question marks of [exclamationPattern]. *)
Definition markClass : cclass :=
  cls [(0xff01, 0xff01); (0x21, 0x21); (0xff1f, 0xff1f); (0x3f, 0x3f)].

(** The positions where a maximal run of characters of a class starts,
    found by one pass over the string: [pos] is the position of the head of
    [s] and [inside] tells whether the character before it was of the
    class. *)
Fixpoint run_starts (c : cclass) (s : jsstring) (pos : nat) (inside : bool)
  : list nat :=
  match s with
  | [] => []
  | ch :: s' =>
    if in_class c ch
    then (if inside then [] else [pos]) ++ run_starts c s' (S pos) true
    else run_starts c s' (S pos) false
  end.

(** The first run of characters of a class in [s]: how many characters
    come before it and how long it is. *)
Fixpoint first_run (c : cclass) (s : jsstring) : option (nat * nat) :=
  match s with
  | [] => None
  | ch :: s' =>
    if in_class c ch then Some (O, run_length c s)
    else match first_run c s' with
         | Some (o, r) => Some (S o, r)
         | None => None
         end
  end.

(** A capture, and a match found from position [from] on, that lie inside
    the string. *)
Definition cap_ok (s : jsstring) (cap : capture) : Prop :=
  match cap with
  | Some (a, b) => (a <= b <= List.length s)%nat
  | None => True
  end.

Definition match_inside (s : jsstring) (r : regex) (from : nat) (mt : Match) : Prop :=
  exists j, index mt = Z.of_nat j
            /\ (from <= j)%nat
            /\ (j + min_len r <= m_end mt <= List.length s)%nat
            /\ m0 mt = slice s j (m_end mt).

(** The phrase [p] occurs in [s] at column [col] (counted from 1). *)
Definition phrase_at (p s : jsstring) (col : Z) : Prop :=
  1 <= col /\ is_prefix p (skipn (Z.to_nat (col - 1)) s) = true.

(** The rules that look for fixed phrases, with their phrases
    (useTextlint.ts, lines 63-67, 84-88, 167-172 and 203-205). *)
Definition phrase_table : list (jsstring * list jsstring) :=
  [ (lit "ja-no-redundant-expression",
     [lit "まず最初に"; lit "することができる"; lit "することが可能"]);
    (lit "ja-no-weak-phrase", [lit "かもしれない"; lit "思う"; lit "だろう"]);
    (lit "ja-no-abusage",
     [lit "食べれる"; lit "見れる"; lit "着れる"; lit "考えれる"]);
    (lit "no-ai-hype-expressions", [lit "革命的な"; lit "画期的な"]);
    (lit "no-ai-list-formatting", [lit "✅"]) ].

(** Lines joined by newlines, and the lines before a line each followed
    by its newline. *)
Fixpoint join_lines (lines : list jsstring) : jsstring :=
  match lines with
  | [] => []
  | l :: rest =>
    match rest with
    | [] => l
    | _ :: _ => l ++ 0x0A :: join_lines rest
    end
  end.

Definition lines_before (lines : list jsstring) : jsstring :=
  flat_map (fun l => l ++ [0x0A]) lines.

(** What holds of the page after any events: every pending timer carries
    a text that is not blank, a pending timer of the effect is the one its
    cleanup clears and carries the text of the page, at most one of them is
    pending, and the engine ran on texts that are not blank. *)
Definition page_ok (s : Page) : Prop :=
  Forall (fun tm => is_blank (timer_text tm) = false
                    /\ (is_debounce tm = true ->
                        cleanup s = Some (tid tm) /\ timer_text tm = text s))
         (timers s)
  /\ (List.length (filter is_debounce (timers s)) <= 1)%nat
  /\ Forall (fun c => is_blank (snd c) = false) (engineCalls s).

Definition age (d : nat) (tm : timer) : timer :=
  {| tid := tid tm; remaining := remaining tm - d; cb := cb tm |}.

(** The particles of [doubleJoshiPattern]. *)
Definition particles : cclass := cls (one_of "はがをに").

(** The characters of [kanjiPattern]. *)
Definition kanji : cclass := cls [(0x4e00, 0x9faf)].

(** The characters of [japaneseWordPattern], of the two patterns of English
    words, and the white space between two English words. *)
Definition kana_kanji : cclass :=
  cls [(0x3040, 0x309F); (0x30A0, 0x30FF); (0x4E00, 0x9FAF)].
Definition letters : cclass := cls [(0x61, 0x7A); (0x41, 0x5A)].
Definition spaces : cclass := cls white_space.

(** Every character of [w] is of class [c]. *)
Definition all_of (c : cclass) (w : jsstring) : Prop :=
  Forall (fun ch => in_class c ch = true) w.

(** The message of the rule max-kanji-continuous-len for a run of [n]. *)
Definition kanji_message (n : nat) : jsstring :=
  lit "連続する漢字が長すぎます（" ++ decimal (Z.of_nat n)
  ++ lit "文字）。6文字以内にしてください".

(** The configuration has a switch for the rule of [msg]. *)
Definition has_switch (rules : list Rule) (msg : TextlintMessage) : bool :=
  existsb (fun r => jsstring_eqb (id r) (ruleId msg)) rules.

(** The configuration after the switches [rids] have been clicked, one
    after the other. *)
Definition toggles (rids : list jsstring) (rules : list Rule) : list Rule :=
  fold_left (fun rs rid => toggleRule rid rs) rids rules.

(** The rules whose messages are errors. *)
Definition error_rules : list jsstring :=
  [ lit "no-exclamation-question-mark"; lit "sentence-length";
    lit "ja-no-successive-word" ].

Definition is_error_rule (rid : jsstring) : bool :=
  existsb (jsstring_eqb rid) error_rules.

(** The characters between the marks of the emphasis pattern. *)
Definition not_star : cclass := ncls (one_of "*").

(** * Properties *)

(** ** Lists of messages *)

Lemma filter_none {A} (f : A -> bool) (l : list A) :
  Forall (fun x => f x = false) l -> filter f l = [].
Proof.
  induction 1 as [|x l Hx _ IH]; simpl; [reflexivity|].
  now rewrite Hx.
Qed.

Lemma filter_all {A} (f : A -> bool) (l : list A) :
  Forall (fun x => f x = true) l -> filter f l = l.
Proof.
  induction 1 as [|x l Hx _ IH]; simpl; [reflexivity|].
  now rewrite Hx, IH.
Qed.

Lemma Forall_flat_map_intro {A B} (P : B -> Prop) (f : A -> list B) (l : list A) :
  Forall (fun x => Forall P (f x)) l -> Forall P (flat_map f l).
Proof.
  induction 1; simpl; [constructor|]. apply Forall_app; split; assumption.
Qed.

Lemma Forall_map_intro {A B} (P : B -> Prop) (f : A -> B) (l : list A) :
  (forall x, P (f x)) -> Forall P (map f l).
Proof.
  intros H. induction l; simpl; constructor; auto.
Qed.

(** *** The sentence-length loop as a map over the segments with their
    start columns *)

Lemma sentence_fold (l : Z) (segs : list jsstring) :
  forall pushed col,
    fst (fold_left (sentence_step l) segs (pushed, col))
    = pushed ++ map (sentence_diag l) (filter overlong (segment_offsets segs col)).
Proof.
  induction segs as [|sg rest IH]; intros pushed col; simpl.
  - now rewrite app_nil_r.
  - unfold overlong at 1; simpl. destruct (100 <? len sg); rewrite IH.
    + now rewrite <- app_assoc.
    + reflexivity.
Qed.

Lemma sentence_rule_split_eq (lt : jsstring) (l : Z) :
  sentence_rule_split lt l
  = map (sentence_diag l)
        (filter overlong (segment_offsets (split_on sentence_delim lt) 1)).
Proof. unfold sentence_rule_split. now rewrite sentence_fold. Qed.

(** *** What every message of a line looks like *)

Ltac each_msg fin :=
  repeat first
    [ apply Forall_nil
    | apply Forall_app; split
    | apply Forall_cons
    | apply Forall_map_intro; intros
    | apply Forall_flat_map_intro
    | match goal with
      | |- Forall _ (match ?x with _ => _ end) => destruct x
      end ];
  cbv beta iota;
  try solve [fin].

Ltac each_rule fin :=
  unfold exclamation_rule, sentence_rule_line, redundant_rule, weak_rule,
    joshi_rule_all, joshi_rule_first, successive_rule_all,
    successive_rule_first, ranuki_rule, kanji_rule, ai_rule, colon_rule,
    redundantPhrases, weakPhrases, ranukiPatterns, aiPatterns;
  try rewrite sentence_rule_split_eq;
  repeat (each_msg fin).

Lemma lint_line_line (lt : jsstring) (l : Z) (rev : revision) :
  Forall (fun msg => line msg = l) (lint_line lt l rev).
Proof.
  unfold lint_line; destruct rev; each_rule ltac:(reflexivity).
Qed.

Lemma lint_line_severity (lt : jsstring) (l : Z) (rev : revision) :
  Forall (fun msg => severity msg = 1 \/ severity msg = 2) (lint_line lt l rev).
Proof.
  unfold lint_line; destruct rev;
    each_rule ltac:(cbn [severity lint_msg sentence_diag]; auto).
Qed.

Lemma lint_lines_Forall (P : TextlintMessage -> Prop) (rev : revision) :
  forall lines i,
    (forall lt l, Forall P (lint_line lt l rev)) ->
    Forall P (lint_lines rev lines i).
Proof.
  induction lines as [|lt rest IH]; intros i H; simpl; [constructor|].
  apply Forall_app; split; auto.
Qed.

Lemma lint_lines_line_gt (rev : revision) :
  forall lines i, Forall (fun msg => i < line msg) (lint_lines rev lines i).
Proof.
  induction lines as [|lt rest IH]; intros i; simpl; [constructor|].
  apply Forall_app; split.
  - eapply Forall_impl; [|apply lint_line_line]. simpl; intros; lia.
  - eapply Forall_impl; [|apply IH]. simpl; intros; lia.
Qed.

(** The messages of line [i] (counted from 0) of the text are those whose
    [line] is [i + 1]. *)
Lemma filter_lint_lines (P : TextlintMessage -> bool) (rev : revision) :
  forall lines i0 i lt,
    nth_error lines i = Some lt ->
    filter (fun msg => P msg && on_line (i0 + Z.of_nat i + 1) msg)
           (lint_lines rev lines i0)
    = filter P (lint_line lt (i0 + Z.of_nat i + 1) rev).
Proof.
  induction lines as [|l0 rest IH]; intros i0 i lt Hn.
  - destruct i; discriminate.
  - destruct i as [|i]; simpl in Hn.
    + injection Hn as ->. cbn [lint_lines]. rewrite filter_app.
      replace (i0 + Z.of_nat 0 + 1) with (i0 + 1) by lia.
      rewrite (filter_none _ (lint_lines rev rest (i0 + 1))).
      * rewrite app_nil_r. apply filter_ext_in. intros msg Hin.
        pose proof (lint_line_line lt (i0 + 1) rev) as Hl.
        rewrite Forall_forall in Hl. unfold on_line. rewrite (Hl _ Hin).
        now rewrite Z.eqb_refl, andb_true_r.
      * eapply Forall_impl; [|apply lint_lines_line_gt].
        cbv beta; intros msg Hlt. unfold on_line.
        replace (line msg =? i0 + 1) with false; [apply andb_false_r|].
        symmetry; apply Z.eqb_neq; lia.
    + cbn [lint_lines]. rewrite filter_app.
      rewrite (filter_none _ (lint_line l0 (i0 + 1) rev)).
      * cbn [app].
        replace (i0 + Z.of_nat (S i) + 1) with (i0 + 1 + Z.of_nat i + 1) by lia.
        now apply IH.
      * eapply Forall_impl; [|apply lint_line_line].
        cbv beta; intros msg Hl. unfold on_line. rewrite Hl.
        replace (i0 + 1 =? i0 + Z.of_nat (S i) + 1) with false; [apply andb_false_r|].
        symmetry; apply Z.eqb_neq; lia.
Qed.

(** ** Counts by severity *)


Lemma len_filter_severity (sev : Z) (l : list TextlintMessage) :
  len_msgs (filter (fun msg => severity msg =? sev) l) = count_severity sev l.
Proof.
  unfold len_msgs. induction l as [|msg rest IH]; [reflexivity|].
  cbn [filter count_severity].
  destruct (severity msg =? sev); cbn [List.length];
    rewrite ?Nat2Z.inj_succ, IH; lia.
Qed.

Lemma count_severity_total (l : list TextlintMessage) :
  Forall (fun msg => severity msg = 1 \/ severity msg = 2) l ->
  count_severity 2 l + count_severity 1 l = len_msgs l.
Proof.
  unfold len_msgs. induction 1 as [|msg rest [H|H] _ IH]; [reflexivity| |];
    cbn [count_severity List.length]; rewrite H, Nat2Z.inj_succ;
    change (1 =? 2) with false; change (1 =? 1) with true;
    change (2 =? 2) with true; change (2 =? 1) with false; lia.
Qed.

(** C4: for every text (and both revisions of the engine), the counts of
    the result add up to the number of messages; [errorCount] is the number
    of messages of severity 2, [warningCount] the number of severity 1, and
    every message has severity 1 or 2. *)
Theorem C4_counts_match_messages (rev : revision) (text : jsstring) :
  let r := generateMockLintResult rev text in
  errorCount r + warningCount r = len_msgs (messages r)
  /\ errorCount r = count_severity 2 (messages r)
  /\ warningCount r = count_severity 1 (messages r)
  /\ Forall (fun msg => severity msg = 1 \/ severity msg = 2) (messages r).
Proof.
  cbn zeta. unfold generateMockLintResult; cbn [errorCount warningCount messages].
  rewrite !len_filter_severity.
  assert (H : Forall (fun msg => severity msg = 1 \/ severity msg = 2)
                (lint_lines rev (split_lines text) 0)).
  { apply lint_lines_Forall. intros; apply lint_line_severity. }
  repeat split; auto using count_severity_total.
Qed.

(** C10: linting the empty string gives no message and zero counts, in
    both revisions of the engine. *)
Theorem C10_empty_text (rev : revision) :
  generateMockLintResult rev (lit "")
  = {| messages := []; errorCount := 0; warningCount := 0 |}.
Proof. destruct rev; vm_compute; reflexivity. Qed.

(** ** [indexOf] and [includes] *)

Lemma indexOf_from_range (p : jsstring) :
  forall s k, indexOf_from s p k = -1 \/ k <= indexOf_from s p k <= k + len s.
Proof.
  unfold len. induction s as [|c s IH]; intros k; simpl indexOf_from.
  - destruct (is_prefix p []); [right; simpl; lia | now left].
  - destruct (is_prefix p (c :: s)).
    + right. cbn [List.length]. lia.
    + destruct (IH (k + 1)) as [H|H]; [now left|right].
      cbn [List.length]. lia.
Qed.

Lemma includes_indexOf_from (p : jsstring) :
  forall s k, 0 <= k -> includes s p = (0 <=? indexOf_from s p k).
Proof.
  induction s as [|c s IH]; intros k Hk; simpl.
  - destruct (is_prefix p []); simpl; [symmetry; now apply Z.leb_le | reflexivity].
  - destruct (is_prefix p (c :: s)); simpl; [symmetry; now apply Z.leb_le|].
    apply IH; lia.
Qed.

Lemma includes_indexOf (s p : jsstring) : includes s p = (0 <=? indexOf s p).
Proof. apply includes_indexOf_from; lia. Qed.

(** [indexOf] of one character is its first occurrence. *)
Lemma indexOf_char_first (c : Z) :
  forall s k, 0 <= k ->
    indexOf s [c] = k ->
    nth_error s (Z.to_nat k) = Some c
    /\ forall j, (j < Z.to_nat k)%nat -> nth_error s j <> Some c.
Proof.
  unfold indexOf.
  assert (G : forall s k0 k, 0 <= k0 <= k -> indexOf_from s [c] k0 = k ->
                nth_error s (Z.to_nat (k - k0)) = Some c
                /\ forall j, (j < Z.to_nat (k - k0))%nat -> nth_error s j <> Some c).
  { induction s as [|b s IH]; intros k0 k Hk; simpl; [lia|].
    destruct (c =? b) eqn:E; simpl.
    - intros <-. apply Z.eqb_eq in E; subst b.
      rewrite Z.sub_diag. split; [reflexivity | intros; lia].
    - intros H. apply Z.eqb_neq in E.
      destruct (indexOf_from_range [c] s (k0 + 1)) as [R|R]; [lia|].
      destruct (IH (k0 + 1) k ltac:(lia) H) as [H1 H2].
      replace (Z.to_nat (k - k0)) with (S (Z.to_nat (k - (k0 + 1)))) by lia.
      split; [exact H1|].
      intros [|j] Hj; simpl; [congruence | apply H2; lia]. }
  intros s k Hk H. specialize (G s 0 k ltac:(lia) H). now rewrite Z.sub_0_r in G.
Qed.

(** ** Which rule pushes which [ruleId] *)

Ltac other_rule :=
  unfold has_rule; cbn [ruleId lint_msg sentence_diag]; vm_compute; reflexivity.

Ltac drop_other_rules :=
  rewrite ?filter_app;
  repeat match goal with
         | |- context [filter ?f ?b] =>
           rewrite (filter_none f b) by (each_rule ltac:(other_rule))
         end;
  cbn [app]; rewrite ?app_nil_r.

Lemma colon_rule_only (lt : jsstring) (l : Z) (rev : revision) :
  filter (has_rule (lit "no-ai-colon-continuation")) (lint_line lt l rev)
  = colon_rule lt l.
Proof.
  unfold lint_line; destruct rev; drop_other_rules;
    (apply filter_all; each_rule ltac:(other_rule)).
Qed.

Lemma sentence_rule_only (lt : jsstring) (l : Z) (rev : revision) :
  filter (has_rule (lit "sentence-length")) (lint_line lt l rev)
  = match rev with
    | ScanAll => sentence_rule_split lt l
    | ScanFirst => sentence_rule_line lt l
    end.
Proof.
  unfold lint_line; destruct rev; drop_other_rules;
    (apply filter_all; each_rule ltac:(other_rule)).
Qed.

Lemma messages_of_line (P : TextlintMessage -> bool) (rev : revision)
  (text : jsstring) (i : nat) (lt : jsstring) :
  nth_error (split_lines text) i = Some lt ->
  filter (fun msg => P msg && on_line (Z.of_nat i + 1) msg)
         (messages (generateMockLintResult rev text))
  = filter P (lint_line lt (Z.of_nat i + 1) rev).
Proof.
  intros H. unfold generateMockLintResult; cbn [messages].
  change (Z.of_nat i + 1) with (0 + Z.of_nat i + 1).
  now apply filter_lint_lines.
Qed.

(** C1: a line that contains [:] or [：] gets exactly one
    no-ai-colon-continuation message (in both revisions); its column is one
    more than the larger of [a = indexOf(':')] and [b = indexOf('：')], each
    of them the first occurrence of its colon, or -1 when that colon is
    absent; hence column 11 for [:] first at 5 and [：] first at 10. *)
Theorem C1_colon_once_per_line (rev : revision) (text : jsstring) (i : nat)
  (lt : jsstring) :
  nth_error (split_lines text) i = Some lt ->
  includes lt (lit ":") = true \/ includes lt (lit "：") = true ->
  let a := indexOf lt (lit ":") in
  let b := indexOf lt (lit "：") in
  filter (fun msg => has_rule (lit "no-ai-colon-continuation") msg
                     && on_line (Z.of_nat i + 1) msg)
         (messages (generateMockLintResult rev text))
  = [lint_msg (lit "no-ai-colon-continuation")
       (lit "コロンの使用は避けてください") (Z.of_nat i + 1) (Z.max a b + 1) 1]
  /\ (0 <= a -> nth_error lt (Z.to_nat a) = Some 0x3A
                 /\ forall j, (j < Z.to_nat a)%nat -> nth_error lt j <> Some 0x3A)
  /\ (0 <= b -> nth_error lt (Z.to_nat b) = Some 0xFF1A
                 /\ forall j, (j < Z.to_nat b)%nat -> nth_error lt j <> Some 0xFF1A)
  /\ (includes lt (lit "：") = false -> b = -1 /\ Z.max a b = a)
  /\ (includes lt (lit ":") = false -> a = -1 /\ Z.max a b = b)
  /\ (a = 5 -> b = 10 -> Z.max a b + 1 = 11).
Proof.
  intros Hn Hc a b. split; [|split; [|split; [|split; [|split]]]].
  - rewrite (messages_of_line _ rev text i lt Hn), colon_rule_only.
    unfold colon_rule.
    replace (includes lt (lit ":") || includes lt (lit "：")) with true;
      [reflexivity|].
    symmetry; apply orb_true_iff; exact Hc.
  - intros Ha. exact (indexOf_char_first 0x3A lt a Ha eq_refl).
  - intros Hb. exact (indexOf_char_first 0xFF1A lt b Hb eq_refl).
  - intros Hb. assert (Ha : includes lt (lit ":") = true)
      by (destruct Hc; congruence).
    rewrite includes_indexOf in Ha, Hb. fold a in Ha. fold b in Hb.
    apply Z.leb_le in Ha. apply Z.leb_gt in Hb.
    destruct (indexOf_from_range (lit "：") lt 0) as [R|R]; fold (indexOf lt (lit "：")) in R;
      fold b in R; lia.
  - intros Ha. assert (Hb : includes lt (lit "：") = true)
      by (destruct Hc; congruence).
    rewrite includes_indexOf in Ha, Hb. fold a in Ha. fold b in Hb.
    apply Z.leb_le in Hb. apply Z.leb_gt in Ha.
    destruct (indexOf_from_range (lit ":") lt 0) as [R|R]; fold (indexOf lt (lit ":")) in R;
      fold a in R; lia.
  - intros -> ->. reflexivity.
Qed.

Lemma C1_colon_once_per_line_witness :
  let text := lit "01234:6789：" in
  filter (fun msg => has_rule (lit "no-ai-colon-continuation") msg
                     && on_line 1 msg)
         (messages (generateMockLintResult ScanAll text))
  = [lint_msg (lit "no-ai-colon-continuation")
       (lit "コロンの使用は避けてください") 1 11 1].
Proof.
  intros text.
  exact (proj1 (C1_colon_once_per_line ScanAll text 0 text eq_refl
                  (or_introl eq_refl))).
Defined.

(** ** The segments of a line and their start columns *)

Lemma substring_seg (s : jsstring) (a b : Z) :
  0 <= a <= b -> b <= len s ->
  substring s a b = firstn (Z.to_nat (b - a)) (skipn (Z.to_nat a) s).
Proof.
  intros H1 H2. unfold substring, clamp.
  replace (Z.min (Z.max a 0) (len s)) with a by lia.
  replace (Z.min (Z.max b 0) (len s)) with b by lia.
  now rewrite Z.min_l, Z.max_r by lia.
Qed.

(** Every segment of [split_on] sits in the string at the offset that
    [segment_offsets] gives it. *)
Lemma split_on_offsets (d : Z -> bool) :
  forall s c0,
    Forall (fun cs => exists n : nat,
                fst cs = c0 + Z.of_nat n
                /\ (n + List.length (snd cs) <= List.length s)%nat
                /\ firstn (List.length (snd cs)) (skipn n s) = snd cs)
           (segment_offsets (split_on d s) c0).
Proof.
  induction s as [|c s IH]; intros c0.
  - repeat constructor. exists O. cbn. repeat split; lia.
  - cbn [split_on]. destruct (d c).
    + cbn [segment_offsets]. constructor.
      * exists O. cbn. repeat split; lia.
      * eapply Forall_impl; [|apply (IH (c0 + (len [] + 1)))].
        intros cs [n [H1 [H2 H3]]]. exists (S n). cbn [List.length skipn].
        unfold len in H1. cbn in H1. repeat split; try assumption; lia.
    + specialize (IH (c0 + 1)). destruct (split_on d s) as [|p ps].
      * repeat constructor. exists O. cbn. repeat split; lia.
      * cbn [segment_offsets] in *. inversion IH as [|x l [n [H1 [H2 H3]]] Hrest]; subst.
        cbn [fst snd] in *. constructor.
        -- exists O. cbn [fst snd List.length skipn firstn].
           assert (n = O) by lia. subst n. cbn [skipn] in H3. rewrite H3.
           repeat split; lia.
        -- replace (c0 + (len (c :: p) + 1)) with (c0 + 1 + (len p + 1))
             by (unfold len; cbn [List.length]; lia).
           eapply Forall_impl; [|exact Hrest].
           intros cs [k [K1 [K2 K3]]]. exists (S k). cbn [List.length skipn].
           repeat split; try assumption; lia.
Qed.

Lemma segment_positions (lt : jsstring) :
  Forall (fun cs => 1 <= fst cs
                    /\ substring lt (fst cs - 1) (fst cs - 1 + len (snd cs)) = snd cs)
         (segment_offsets (split_on sentence_delim lt) 1).
Proof.
  eapply Forall_impl; [|apply split_on_offsets].
  intros [col sg] [n [H1 [H2 H3]]]. cbn [fst snd] in *. subst col.
  split; [lia|]. unfold len in *. rewrite substring_seg by (unfold len; lia).
  replace (Z.to_nat (1 + Z.of_nat n - 1 + Z.of_nat (List.length sg)
                     - (1 + Z.of_nat n - 1))) with (List.length sg) by lia.
  replace (Z.to_nat (1 + Z.of_nat n - 1)) with n by lia.
  exact H3.
Qed.

Lemma split_on_no_delim (d : Z -> bool) :
  forall s, forallb (fun c => negb (d c)) s = true -> split_on d s = [s].
Proof.
  induction s as [|c s IH]; cbn [forallb split_on]; [reflexivity|].
  intros H. apply andb_true_iff in H as [H1 H2].
  apply negb_true_iff in H1. rewrite H1, (IH H2). reflexivity.
Qed.

Lemma sentence_message_101 :
  sentence_message 101
  = lit "文が長すぎます。100文字以内にしてください。現在の文字数: 101".
Proof. vm_compute. reflexivity. Qed.

(** C3: in the revision that splits (lines 46-60), the sentence-length
    messages of a line are, in order, one severity-2 message for each
    segment of [split(/[。．]/)] longer than 100, at the column where the
    segment starts (1 plus the lengths of the earlier segments plus one per
    delimiter), and that column is where the segment sits in the line.  A
    line of 101 characters with no delimiter gets exactly one such message,
    at column 1 with the length 101 in its text, in both revisions; when it
    is the only line, that is the only sentence-length message. *)
Theorem C3_sentence_length (text : jsstring) (i : nat) (lt : jsstring) :
  nth_error (split_lines text) i = Some lt ->
  let l := Z.of_nat i + 1 in
  let segs := segment_offsets (split_on sentence_delim lt) 1 in
  let sentence_msgs rev :=
    filter (fun msg => has_rule (lit "sentence-length") msg && on_line l msg)
           (messages (generateMockLintResult rev text)) in
  sentence_msgs ScanAll
  = map (fun cs => lint_msg (lit "sentence-length")
                     (sentence_message (len (snd cs))) l (fst cs) 2)
        (filter (fun cs => 100 <? len (snd cs)) segs)
  /\ Forall (fun cs => 1 <= fst cs
               /\ substring lt (fst cs - 1) (fst cs - 1 + len (snd cs)) = snd cs)
            segs
  /\ (len lt = 101 ->
      forallb (fun c => negb (sentence_delim c)) lt = true ->
      forall rev,
        sentence_msgs rev
        = [lint_msg (lit "sentence-length")
             (lit "文が長すぎます。100文字以内にしてください。現在の文字数: 101")
             l 1 2]
        /\ (split_lines text = [lt] ->
            filter (has_rule (lit "sentence-length"))
                   (messages (generateMockLintResult rev text))
            = [lint_msg (lit "sentence-length")
                 (lit "文が長すぎます。100文字以内にしてください。現在の文字数: 101")
                 1 1 2])).
Proof.
  intros Hn l segs sentence_msgs. subst sentence_msgs; cbv beta.
  split; [|split].
  - rewrite (messages_of_line _ ScanAll text i lt Hn), sentence_rule_only.
    apply sentence_rule_split_eq.
  - apply segment_positions.
  - intros Hlen Hnd rev.
    assert (Hline : filter (has_rule (lit "sentence-length")) (lint_line lt l rev)
                    = [lint_msg (lit "sentence-length")
                         (lit "文が長すぎます。100文字以内にしてください。現在の文字数: 101")
                         l 1 2]).
    { rewrite sentence_rule_only, <- sentence_message_101. destruct rev.
      - rewrite sentence_rule_split_eq, (split_on_no_delim _ _ Hnd).
        cbn [segment_offsets filter]. unfold overlong. cbn [snd].
        rewrite Hlen. change (100 <? 101) with true. cbn [map].
        unfold sentence_diag. cbn [fst snd]. rewrite Hlen. reflexivity.
      - unfold sentence_rule_line. rewrite Hlen. reflexivity. }
    split.
    + rewrite (messages_of_line _ rev text i lt Hn). exact Hline.
    + intros Hone. rewrite Hone in Hn. destruct i as [|[|i]]; try discriminate.
      unfold generateMockLintResult; cbn [messages]. rewrite Hone.
      cbn [lint_lines]. rewrite app_nil_r. exact Hline.
Qed.

(** The revision of lines 316-325 does not split: a line of two segments
    of 60 characters gets one message, for the 121 characters of the line. *)
Lemma sentence_rule_line_whole_line :
  let lt := repeat 0x3042 60 ++ lit "。" ++ repeat 0x3044 60 in
  sentence_rule_split lt 1 = []
  /\ sentence_rule_line lt 1
     = [lint_msg (lit "sentence-length")
          (lit "文が長すぎます。100文字以内にしてください。現在の文字数: 121") 1 1 2].
Proof. vm_compute. split; reflexivity. Qed.

Lemma C3_sentence_length_witness :
  let text := repeat 0x3042 101 ++ lit "。" ++ repeat 0x3044 102 in
  filter (fun msg => has_rule (lit "sentence-length") msg && on_line 1 msg)
         (messages (generateMockLintResult ScanAll text))
  = [lint_msg (lit "sentence-length")
       (lit "文が長すぎます。100文字以内にしてください。現在の文字数: 101") 1 1 2;
     lint_msg (lit "sentence-length")
       (lit "文が長すぎます。100文字以内にしてください。現在の文字数: 102") 1 103 2]
  /\ filter (has_rule (lit "sentence-length"))
            (messages (generateMockLintResult ScanFirst (repeat 0x3042 101)))
     = [lint_msg (lit "sentence-length")
          (lit "文が長すぎます。100文字以内にしてください。現在の文字数: 101") 1 1 2].
Proof.
  intros text. split.
  - exact (proj1 (C3_sentence_length text 0 text eq_refl)).
  - exact (proj2 (proj2 (proj2 (C3_sentence_length (repeat 0x3042 101) 0
                                  (repeat 0x3042 101) eq_refl))
                    eq_refl eq_refl ScanFirst) eq_refl).
Defined.

(** ** Scenario B *)

(** C2 (as stated): the text gets two messages, not one. *)
Lemma C2_doubled_joshi_counterexample :
  ~ (exists d, messages (generateMockLintResult ScanAll (lit "彼は彼は行った")) = [d]
               /\ ruleId d = lit "no-doubled-joshi"
               /\ includes (message d) (lit "は") = true)
  /\ ~ (exists d, messages (generateMockLintResult ScanFirst (lit "彼は彼は行った")) = [d]
                  /\ ruleId d = lit "no-doubled-joshi"
                  /\ includes (message d) (lit "は") = true).
Proof.
  split; intros [d [H _]]; vm_compute in H; discriminate H.
Qed.

(** C2 (amended): for the text "彼は彼は行った" lint returns exactly two
    messages, in both revisions: the no-doubled-joshi message (column 2,
    severity 1) whose text names the particle "は", then a
    ja-no-successive-word message (column 1, severity 2) for the repeated
    "彼は"; so exactly one message has the ruleId no-doubled-joshi. *)
Theorem C2_doubled_joshi_amended (rev : revision) :
  let r := generateMockLintResult rev (lit "彼は彼は行った") in
  messages r
  = [lint_msg (lit "no-doubled-joshi")
       (lit "助詞「は」が連続して使用されています") 1 2 1;
     lint_msg (lit "ja-no-successive-word")
       (lit "「彼は」が連続しています") 1 1 2]
  /\ filter (has_rule (lit "no-doubled-joshi")) (messages r)
     = [lint_msg (lit "no-doubled-joshi")
          (lit "助詞「は」が連続して使用されています") 1 2 1]
  /\ includes (lit "助詞「は」が連続して使用されています") (lit "は") = true
  /\ errorCount r = 1 /\ warningCount r = 1.
Proof.
  destruct rev; vm_compute; repeat split; reflexivity.
Qed.

(** ** Slices of a string *)


Lemma cz_le (s : jsstring) (a : Z) : (cz s a <= List.length s)%nat.
Proof. unfold cz, clamp, len. lia. Qed.

Lemma cz_mono (s : jsstring) (a b : Z) : a <= b -> (cz s a <= cz s b)%nat.
Proof. unfold cz, clamp. lia. Qed.

Lemma substring_is_seg (s : jsstring) (a b : Z) :
  substring s a b = seg s (Nat.min (cz s a) (cz s b)) (Nat.max (cz s a) (cz s b)).
Proof.
  unfold substring, seg, cz.
  assert (H0 : 0 <= clamp a (len s)) by (unfold clamp, len; lia).
  assert (H1 : 0 <= clamp b (len s)) by (unfold clamp, len; lia).
  f_equal; [|f_equal]; lia.
Qed.

Lemma firstn_then_skipn {A} (n k : nat) (t : list A) :
  firstn n t ++ firstn k (skipn n t) = firstn (n + k) t.
Proof.
  revert t; induction n as [|n IH]; intros [|x t]; cbn;
    rewrite ?firstn_nil; try reflexivity.
  now rewrite IH.
Qed.

Lemma seg_app (s : jsstring) (a b c : nat) :
  (a <= b <= c)%nat -> seg s a b ++ seg s b c = seg s a c.
Proof.
  intros H. unfold seg.
  replace (skipn b s) with (skipn (b - a) (skipn a s))
    by (rewrite skipn_skipn; f_equal; lia).
  rewrite firstn_then_skipn. f_equal; lia.
Qed.

Lemma seg_contiguous (s : jsstring) (a c : nat) :
  (a <= c)%nat -> s = firstn a s ++ seg s a c ++ skipn c s.
Proof.
  intros H. unfold seg.
  replace (skipn c s) with (skipn (c - a) (skipn a s))
    by (rewrite skipn_skipn; f_equal; lia).
  now rewrite (firstn_skipn (c - a) (skipn a s)), firstn_skipn.
Qed.

Lemma seg_length (s : jsstring) (a b : nat) :
  (a <= b <= List.length s)%nat -> List.length (seg s a b) = (b - a)%nat.
Proof.
  intros H. unfold seg. rewrite length_firstn, length_skipn. lia.
Qed.

(** ** The word at the error position *)

Lemma run_length_le (c : cclass) (s : jsstring) :
  (run_length c s <= List.length s)%nat.
Proof. induction s as [|ch s IH]; cbn; [lia|]. destruct (in_class c ch); lia. Qed.

Lemma search_after_bol (s : jsstring) (r : regex) :
  forall n i, search s (Seq Bol r) n (S i) = None.
Proof. induction n as [|n IH]; intros i; cbn; [reflexivity | apply IH]. Qed.

(** [rest.match(/^[^...]+/)]: the longest run of non-boundary characters
    at the head of [rest], when it is not empty. *)
Lemma match_wordPattern (rest : jsstring) :
  match_ rest wordPattern
  = match run_length wordClass rest with
    | O => None
    | S n => Some (mkMatch rest 0 (S n) None)
    end.
Proof.
  unfold match_, exec. change (List.length rest <? 0)%nat with false. cbv iota.
  rewrite Nat.sub_0_r. unfold wordPattern.
  destruct (List.length rest) as [|n] eqn:E; cbn [search m];
    cbn [skipn]; destruct (run_length wordClass rest) as [|k] eqn:R;
    cbn; rewrite ?search_after_bol; reflexivity.
Qed.

Lemma errorLength_run (lineText : jsstring) (column : Z) :
  errorLength lineText column
  = match run_length wordClass (substring_from lineText (errorStart column)) with
    | O => 1
    | S n => Z.of_nat (S n)
    end.
Proof.
  unfold errorLength. rewrite match_wordPattern.
  set (rest := substring_from lineText (errorStart column)).
  pose proof (run_length_le wordClass rest) as Hle.
  destruct (run_length wordClass rest) as [|n]; [reflexivity|].
  cbn [m0 mkMatch]. unfold slice, len. cbn [skipn].
  rewrite length_firstn. lia.
Qed.

Lemma errorLength_pos (lineText : jsstring) (column : Z) :
  1 <= errorLength lineText column.
Proof.
  rewrite errorLength_run.
  destruct (run_length wordClass _); lia.
Qed.

Lemma errorLength_fits (lineText : jsstring) (column : Z) :
  errorStart column < len lineText ->
  errorStart column + errorLength lineText column <= len lineText.
Proof.
  intros H. rewrite errorLength_run.
  set (rest := substring_from lineText (errorStart column)).
  pose proof (run_length_le wordClass rest) as Hle.
  assert (Hrest : List.length rest = Z.to_nat (len lineText - errorStart column)).
  { subst rest. unfold substring_from. rewrite substring_is_seg.
    assert (E0 : 0 <= errorStart column) by (unfold errorStart; lia).
    assert (Ha : cz lineText (errorStart column) = Z.to_nat (errorStart column))
      by (unfold cz, clamp; lia).
    assert (Hb : cz lineText (len lineText) = List.length lineText)
      by (unfold cz, clamp, len; lia).
    rewrite Ha, Hb. unfold len in *.
    rewrite Nat.min_l, Nat.max_r by lia. rewrite seg_length by lia. lia. }
  destruct (run_length wordClass rest); lia.
Qed.

(** ** [getErrorContext] *)

Lemma lookup_in_range {A} (l : list A) (i : Z) :
  1 <= i <= len_msgs l -> exists x, lookup l (i - 1) = Some x.
Proof.
  intros H. unfold lookup, len_msgs in *.
  replace (i - 1 <? 0) with false by (symmetry; apply Z.ltb_ge; lia).
  destruct (nth_error l (Z.to_nat (i - 1))) eqn:E; [eauto|].
  apply nth_error_None in E. lia.
Qed.

Lemma getErrorContext_in_range (text : jsstring) (line column contextLength : Z)
  (lineText : jsstring) :
  1 <= line <= len_msgs (split_lines text) ->
  lookup (split_lines text) (line - 1) = Some lineText ->
  getErrorContext text line column contextLength
  = Some {| before := ellipsis (0 <? beforeStart column contextLength)
                      ++ substring lineText (beforeStart column contextLength)
                           (errorStart column);
            error := substring lineText (errorStart column)
                       (errorEnd lineText column);
            after := substring lineText (errorEnd lineText column)
                       (afterEnd lineText column contextLength)
                     ++ ellipsis (afterEnd lineText column contextLength
                                  <? len lineText) |}.
Proof.
  intros H Hl. unfold getErrorContext.
  replace (line <? 1) with false by (symmetry; apply Z.ltb_ge; lia).
  replace (len_msgs (split_lines text) <? line) with false
    by (symmetry; apply Z.ltb_ge; lia).
  cbn [orb]. now rewrite Hl.
Qed.

Lemma getErrorContext_guard (text : jsstring) (line column contextLength : Z) :
  (line <? 1) || (len_msgs (split_lines text) <? line) = true ->
  getErrorContext text line column contextLength
  = Some {| before := []; error := []; after := [] |}.
Proof. intros H. unfold getErrorContext. now rewrite H. Qed.

(** C7: for a [line] outside [1, lineCount] the function returns (it does
    not raise) the context whose three parts are empty. *)
Theorem C7_line_out_of_range (text : jsstring) (line column contextLength : Z) :
  line < 1 \/ len_msgs (split_lines text) < line ->
  getErrorContext text line column contextLength
  = Some {| before := []; error := []; after := [] |}.
Proof.
  intros H. apply getErrorContext_guard.
  apply orb_true_iff. rewrite !Z.ltb_lt. exact H.
Qed.

Lemma C7_line_out_of_range_witness :
  getErrorContext (lit "一行目") 0 1 20
  = Some {| before := []; error := []; after := [] |}
  /\ getErrorContext (lit "一行目") 2 1 20
     = Some {| before := []; error := []; after := [] |}.
Proof.
  split.
  - apply (C7_line_out_of_range (lit "一行目") 0 1 20). left. reflexivity.
  - apply (C7_line_out_of_range (lit "一行目") 2 1 20). right. reflexivity.
Defined.

(** For every integer [line] the function returns. *)
Lemma getErrorContext_total (text : jsstring) (line column contextLength : Z) :
  exists c, getErrorContext text line column contextLength = Some c.
Proof.
  destruct ((line <? 1) || (len_msgs (split_lines text) <? line)) eqn:G;
    [rewrite getErrorContext_guard by exact G; eauto|].
  apply orb_false_iff in G as [H1 H2].
  apply Z.ltb_ge in H1. apply Z.ltb_ge in H2.
  destruct (lookup_in_range (split_lines text) line ltac:(lia)) as [lt Hl].
  rewrite (getErrorContext_in_range _ _ _ _ lt) by (assumption || lia). eauto.
Qed.

Lemma cz_val (s : jsstring) (a : Z) :
  0 <= a -> Z.of_nat (cz s a) = Z.min a (len s).
Proof. unfold cz, clamp, len. lia. Qed.

(** C5 (as stated): the claim is about every column, but at column 3 of
    the two-character line ["誤字"] the resolved span starts at offset 2 and
    has length 1, while the [error] text is empty: no piece of the line
    sits at that offset with that length. *)
Lemma C5_context_roundtrip_counterexample :
  (1 <= 1 <= len_msgs (split_lines (lit "誤字")))
  /\ lookup (split_lines (lit "誤字")) (1 - 1) = Some (lit "誤字")
  /\ errorStart 3 = 2
  /\ errorLength (lit "誤字") 3 = 1
  /\ len (lit "誤字") = 2
  /\ exists c,
       getErrorContext (lit "誤字") 1 3 20 = Some c
       /\ error c = []
       /\ len (error c) <> errorLength (lit "誤字") 3.
Proof.
  vm_compute. repeat split; try discriminate.
  eexists. repeat split. discriminate.
Qed.

(** C5 (amended): for a line in range, any column and a context length
    that is not negative, [before] is an optional "..." followed by
    [before0], [after] is [after0] followed by an optional "...", the
    markers being present exactly when the context was cut; without the
    markers, [before0 ++ error ++ after0] is a contiguous piece of the line,
    in which [error] starts at the resolved offset [errorStart], or at the
    end of the line when that offset lies past it.  When the resolved offset
    is on a character of the line, [error] has the length of the resolved
    span, so it is exactly that span; when the offset is at or past the end
    of the line, [error] is empty although the span has length 1. *)
Theorem C5_context_roundtrip_amended (text : jsstring)
  (line column contextLength : Z) :
  1 <= line <= len_msgs (split_lines text) ->
  0 <= contextLength ->
  exists lineText c,
    lookup (split_lines text) (line - 1) = Some lineText
    /\ getErrorContext text line column contextLength = Some c
    /\ (exists before0 after0,
          before c = ellipsis (0 <? beforeStart column contextLength) ++ before0
          /\ after c = after0 ++ ellipsis (afterEnd lineText column contextLength
                                           <? len lineText)
          /\ exists pre post,
               lineText = pre ++ (before0 ++ error c ++ after0) ++ post
               /\ len (pre ++ before0)
                  = Z.min (errorStart column) (len lineText))
    /\ (errorStart column < len lineText ->
        len (error c) = errorLength lineText column)
    /\ (len lineText <= errorStart column ->
        error c = [] /\ errorLength lineText column = 1).
Proof.
  intros Hline Hctx.
  destruct (lookup_in_range (split_lines text) line Hline) as [lt Hl].
  exists lt. eexists. split; [exact Hl|].
  split; [exact (getErrorContext_in_range _ _ _ _ lt Hline Hl)|].
  cbn [before error after].
  pose proof (errorLength_pos lt column) as Hpos.
  assert (E0 : 0 <= errorStart column) by (unfold errorStart; lia).
  pose proof (errorLength_fits lt column) as Hfit.
  assert (Hrun : len lt <= errorStart column -> errorLength lt column = 1).
  { intros Hc. rewrite errorLength_run.
    replace (substring_from lt (errorStart column)) with (@nil Z);
      [reflexivity|].
    unfold substring_from. rewrite substring_is_seg. unfold seg, cz, clamp.
    symmetry. apply length_zero_iff_nil.
    rewrite length_firstn, length_skipn. unfold len in *. lia. }
  set (es := errorStart column) in *.
  set (ee := errorEnd lt column).
  set (bs := beforeStart column contextLength).
  set (ae := afterEnd lt column contextLength).
  assert (Hee : ee = es + errorLength lt column) by reflexivity.
  assert (Hbs : 0 <= bs <= es) by (subst bs; unfold beforeStart; fold es; lia).
  assert (Hae : ae = Z.min (len lt) (ee + contextLength)) by reflexivity.
  assert (P1 : (cz lt bs <= cz lt es)%nat) by (apply cz_mono; lia).
  assert (P2 : (cz lt es <= cz lt ee)%nat) by (apply cz_mono; lia).
  assert (P3 : (cz lt ee <= cz lt ae)%nat).
  { unfold cz, clamp. rewrite Hae. unfold len. lia. }
  pose proof (cz_le lt ee) as P4.
  pose proof (cz_val lt es E0) as Ves.
  pose proof (cz_val lt ee ltac:(lia)) as Vee.
  rewrite !substring_is_seg.
  rewrite (Nat.min_l _ _ P1), (Nat.max_r _ _ P1), (Nat.min_l _ _ P2),
    (Nat.max_r _ _ P2), (Nat.min_l _ _ P3), (Nat.max_r _ _ P3).
  split; [|split].
  - eexists. eexists. split; [reflexivity|]. split; [reflexivity|].
    exists (firstn (cz lt bs) lt), (skipn (cz lt ae) lt). split.
    + rewrite seg_app by lia. rewrite seg_app by lia.
      apply seg_contiguous. lia.
    + rewrite <- Ves. unfold len. f_equal.
      rewrite length_app, length_firstn, seg_length by lia.
      pose proof (cz_le lt bs). lia.
  - intros Hc. specialize (Hfit Hc). unfold len at 1.
    rewrite seg_length by lia. lia.
  - intros Hc. split; [|exact (Hrun Hc)].
    apply length_zero_iff_nil. rewrite seg_length by lia.
    unfold len in Ves. lia.
Qed.

Lemma C5_context_roundtrip_amended_witness :
  exists lineText c,
    lookup (split_lines (lit "これは長い文章のなかにあるすごい表現だと思う人がとても多いのではないでしょうか"))
           (1 - 1) = Some lineText
    /\ getErrorContext
         (lit "これは長い文章のなかにあるすごい表現だと思う人がとても多いのではないでしょうか")
         1 22 5 = Some c
    /\ (exists before0 after0,
          before c = ellipsis (0 <? beforeStart 22 5) ++ before0
          /\ after c = after0 ++ ellipsis (afterEnd lineText 22 5 <? len lineText)
          /\ exists pre post,
               lineText = pre ++ (before0 ++ error c ++ after0) ++ post
               /\ len (pre ++ before0) = Z.min (errorStart 22) (len lineText))
    /\ (errorStart 22 < len lineText ->
        len (error c) = errorLength lineText 22)
    /\ (len lineText <= errorStart 22 ->
        error c = [] /\ errorLength lineText 22 = 1).
Proof.
  apply (C5_context_roundtrip_amended
           (lit "これは長い文章のなかにあるすごい表現だと思う人がとても多いのではないでしょうか")
           1 22 5).
  - split; [reflexivity | vm_compute; discriminate].
  - vm_compute; discriminate.
Defined.


Lemma substring_from_skipn (s : jsstring) (a : Z) :
  0 <= a <= len s -> substring_from s a = skipn (Z.to_nat a) s.
Proof.
  intros H. unfold substring_from. rewrite substring_seg by lia.
  apply firstn_all2. rewrite length_skipn. unfold len in *. lia.
Qed.

Lemma skipn_cons_nth {A} (l : list A) :
  forall n x, nth_error l n = Some x -> exists r, skipn n l = x :: r.
Proof.
  induction l as [|y l IH]; intros [|n] x H; try discriminate.
  - injection H as ->. now exists l.
  - apply (IH n x H).
Qed.

(** C8 (as stated): at the legal column [lineLength + 1] the span has
    length 1 but the extracted [error] text is empty. *)
Lemma C8_span_nonempty_counterexample :
  (1 <= 1 <= len_msgs (split_lines (lit "誤字")))
  /\ (1 <= 3 <= len (lit "誤字") + 1)
  /\ errorLength (lit "誤字") 3 = 1
  /\ getErrorContext (lit "誤字") 1 3 20
     = Some {| before := lit "誤字"; error := []; after := [] |}
  /\ getErrorContext (lit "") 1 1 20
     = Some {| before := []; error := []; after := [] |}.
Proof. vm_compute. repeat split; discriminate. Qed.

(** C8 (amended): for a line in range and a column in
    [1, lineLength + 1] the span length is at least 1, and exactly 1 when the
    character at the column is a boundary character; for a column in
    [1, lineLength] the [error] text has the span's length, so it is not
    empty; at column [lineLength + 1] the span length is 1 and the [error]
    text is empty. *)
Theorem C8_span_nonempty_amended (text : jsstring) (line column contextLength : Z)
  (lineText : jsstring) :
  1 <= line <= len_msgs (split_lines text) ->
  lookup (split_lines text) (line - 1) = Some lineText ->
  1 <= column <= len lineText + 1 ->
  exists c,
    getErrorContext text line column contextLength = Some c
    /\ 1 <= errorLength lineText column
    /\ (forall ch, nth_error lineText (Z.to_nat (column - 1)) = Some ch ->
                   is_boundary ch = true -> errorLength lineText column = 1)
    /\ (column <= len lineText ->
        len (error c) = errorLength lineText column /\ error c <> [])
    /\ (column = len lineText + 1 ->
        errorLength lineText column = 1 /\ error c = []).
Proof.
  intros Hline Hl Hcol. eexists.
  split; [exact (getErrorContext_in_range _ _ _ _ lineText Hline Hl)|].
  cbn [error].
  assert (Hes : errorStart column = column - 1) by (unfold errorStart; lia).
  split; [apply errorLength_pos|]. split; [|split].
  - intros ch Hch Hb. rewrite errorLength_run, Hes.
    rewrite substring_from_skipn by lia.
    destruct (skipn_cons_nth _ _ _ Hch) as [r ->]. cbn [run_length].
    unfold is_boundary in Hb. apply negb_true_iff in Hb. now rewrite Hb.
  - intros Hc. pose proof (errorLength_pos lineText column) as Hpos.
    pose proof (errorLength_fits lineText column ltac:(lia)) as Hfit.
    unfold errorEnd. rewrite substring_seg by lia.
    assert (Hlen : len (firstn (Z.to_nat (errorStart column
                                         + errorLength lineText column
                                         - errorStart column))
                          (skipn (Z.to_nat (errorStart column)) lineText))
                   = errorLength lineText column).
    { unfold len in *. rewrite length_firstn, length_skipn. lia. }
    split; [exact Hlen|]. intros E. rewrite E in Hlen. cbn in Hlen. lia.
  - intros Hc.
    assert (Hrest : substring_from lineText (errorStart column) = []).
    { rewrite substring_from_skipn by lia. apply skipn_all2.
      unfold len in *. lia. }
    assert (Hone : errorLength lineText column = 1)
      by (rewrite errorLength_run, Hrest; reflexivity).
    split; [exact Hone|].
    unfold errorEnd. rewrite Hone, substring_is_seg.
    assert (A : cz lineText (errorStart column) = List.length lineText)
      by (unfold cz, clamp, len in *; lia).
    assert (B : cz lineText (errorStart column + 1) = List.length lineText)
      by (unfold cz, clamp, len in *; lia).
    rewrite A, B, Nat.min_id, Nat.max_id. unfold seg.
    now rewrite Nat.sub_diag.
Qed.

Lemma C8_span_nonempty_amended_witness :
  exists c,
    getErrorContext (lit "これはすごい！テストです") 1 7 20 = Some c
    /\ 1 <= errorLength (lit "これはすごい！テストです") 7
    /\ (forall ch, nth_error (lit "これはすごい！テストです") (Z.to_nat (7 - 1)) = Some ch ->
                   is_boundary ch = true ->
                   errorLength (lit "これはすごい！テストです") 7 = 1)
    /\ (7 <= len (lit "これはすごい！テストです") ->
        len (error c) = errorLength (lit "これはすごい！テストです") 7
        /\ error c <> [])
    /\ (7 = len (lit "これはすごい！テストです") + 1 ->
        errorLength (lit "これはすごい！テストです") 7 = 1 /\ error c = []).
Proof.
  apply (C8_span_nonempty_amended (lit "これはすごい！テストです") 1 7 20
           (lit "これはすごい！テストです")).
  - split; [reflexivity | vm_compute; discriminate].
  - reflexivity.
  - split; vm_compute; discriminate.
Defined.

(** ** [filteredMessages] *)

(** C6: with every rule of the configuration enabled and the filter
    'all', the filtered list is the list of messages of the result, same
    order and same contents. *)
Theorem C6_filter_identity (result : LintResult) (rules : list Rule) :
  Forall (fun r => enabled r = true) rules ->
  filteredMessages (Some result) all rules = messages result.
Proof.
  intros H. unfold filteredMessages. apply filter_all.
  apply Forall_forall. intros msg _.
  destruct (find _ rules) as [rule|] eqn:E; [|reflexivity].
  apply find_some in E as [Hin _].
  rewrite Forall_forall in H. now apply H.
Qed.


Lemma C6_filter_identity_witness :
  let result := generateMockLintResult ScanAll (lit "これはすごい！だと思う:") in
  filteredMessages (Some result) all initial_rules = messages result.
Proof.
  intros result. apply (C6_filter_identity result initial_rules).
  repeat constructor.
Defined.

(** ** The debounced lint effect *)


Lemma clear_tracked (i : nat) (ts : list timer) :
  Forall (fun tm => Some i = Some (tid tm)) ts ->
  filter (fun tm => negb (tid tm =? i)%nat) ts = [].
Proof.
  intros H. apply filter_none. eapply Forall_impl; [|exact H].
  cbv beta; intros tm E. injection E as <-. now rewrite Nat.eqb_refl.
Qed.

(** An edit cancels what was pending and, for a text that is not blank,
    sets one new 300 ms timer carrying the new text. *)
Lemma setText_tracked (x : jsstring) (s : Page) :
  tracked s ->
  setText x s
  = if is_blank x then
      {| text := x; timers := []; nextId := nextId s; cleanup := None;
         lintResult := None; clock := clock s; engineCalls := engineCalls s |}
    else
      {| text := x; timers := [debounce_timer (nextId s) x];
         nextId := S (nextId s); cleanup := Some (nextId s);
         lintResult := lintResult s; clock := clock s;
         engineCalls := engineCalls s |}.
Proof.
  destruct s as [t ts n c lr ck ec]. unfold tracked; cbn [timers cleanup].
  intros H. unfold setText; cbn [cleanup timers nextId lintResult clock engineCalls].
  assert (Hts : timers (match c with
                        | Some timer =>
                          clearTimeout timer
                            {| text := x; timers := ts; nextId := n; cleanup := c;
                               lintResult := lr; clock := ck; engineCalls := ec |}
                        | None =>
                          {| text := x; timers := ts; nextId := n; cleanup := c;
                             lintResult := lr; clock := ck; engineCalls := ec |}
                        end) = []).
  { destruct c as [i|]; cbn.
    - now apply clear_tracked.
    - destruct ts; [reflexivity|]. inversion H; discriminate. }
  destruct c as [i|]; unfold lintEffect, clearTimeout, setTimeout in *;
    cbn [text timers nextId cleanup lintResult clock engineCalls] in *;
    rewrite Hts; unfold isTextlintLoading; rewrite orb_false_r;
    destruct (is_blank x); reflexivity.
Qed.

Lemma advance_add (rev : revision) (a b : nat) (s : Page) :
  advance rev (a + b) s = advance rev b (advance rev a s).
Proof. revert s; induction a as [|a IH]; intros s; cbn; [reflexivity | apply IH]. Qed.

(** Nothing pending: time passes and nothing else changes. *)
Lemma advance_idle (rev : revision) (d : nat) :
  forall t n c lr ck ec,
    advance rev d {| text := t; timers := []; nextId := n; cleanup := c;
                     lintResult := lr; clock := ck; engineCalls := ec |}
    = {| text := t; timers := []; nextId := n; cleanup := c;
         lintResult := lr; clock := d + ck; engineCalls := ec |}.
Proof.
  induction d as [|d IH]; intros; cbn [advance]; [reflexivity|].
  unfold tick; cbn. rewrite IH. f_equal. lia.
Qed.

(** One timer pending, not yet due: only its remaining time changes. *)
Lemma advance_wait (rev : revision) (d : nat) :
  forall t i r k n c lr ck ec,
    (d < r)%nat ->
    advance rev d {| text := t; timers := [{| tid := i; remaining := r; cb := k |}];
                     nextId := n; cleanup := c; lintResult := lr; clock := ck;
                     engineCalls := ec |}
    = {| text := t; timers := [{| tid := i; remaining := r - d; cb := k |}];
         nextId := n; cleanup := c; lintResult := lr; clock := d + ck;
         engineCalls := ec |}.
Proof.
  induction d as [|d IH]; intros t i r k n c lr ck ec H; cbn [advance].
  - now rewrite Nat.sub_0_r.
  - destruct r as [|[|r]]; [lia | lia |].
    unfold tick; cbn. rewrite IH by lia. f_equal. lia.
Qed.

Lemma tick_debounce (rev : revision) :
  forall t i x n c lr ck ec,
    tick rev {| text := t;
                timers := [{| tid := i; remaining := 1; cb := DebounceFire x |}];
                nextId := n; cleanup := c; lintResult := lr; clock := ck;
                engineCalls := ec |}
    = {| text := t;
         timers := [{| tid := n; remaining := 100; cb := MockResolve x |}];
         nextId := S n; cleanup := c; lintResult := lr; clock := S ck;
         engineCalls := ec |}.
Proof. reflexivity. Qed.

Lemma tick_resolve (rev : revision) :
  forall t i x n c lr ck ec,
    tick rev {| text := t;
                timers := [{| tid := i; remaining := 1; cb := MockResolve x |}];
                nextId := n; cleanup := c; lintResult := lr; clock := ck;
                engineCalls := ec |}
    = {| text := t; timers := []; nextId := n; cleanup := c;
         lintResult := Some (generateMockLintResult rev x); clock := S ck;
         engineCalls := ec ++ [(S ck, x)] |}.
Proof. reflexivity. Qed.

(** After an edit and less than 300 ms, still nothing has run and what is
    pending is again the timer of the cleanup. *)
Lemma edit_then_wait (rev : revision) (x : jsstring) (d : nat) (s : Page) :
  tracked s -> (d < 300)%nat ->
  let s' := advance rev d (setText x s) in
  tracked s' /\ engineCalls s' = engineCalls s /\ clock s' = (d + clock s)%nat.
Proof.
  intros H Hd. cbv zeta. rewrite (setText_tracked x s H).
  destruct (is_blank x).
  - rewrite advance_idle. unfold tracked; cbn. auto.
  - unfold debounce_timer. rewrite advance_wait by assumption.
    unfold tracked; cbn. auto.
Qed.

(** After an edit to a text that is not blank and 400 ms or more, the
    engine has run once more, on that text, 400 ms after the edit. *)
Lemma edit_then_settle (rev : revision) (x : jsstring) (k : nat) (s : Page) :
  tracked s -> is_blank x = false ->
  let s' := advance rev (400 + k) (setText x s) in
  engineCalls s' = engineCalls s ++ [(400 + clock s, x)]%nat
  /\ timers s' = []
  /\ lintResult s' = Some (generateMockLintResult rev x).
Proof.
  intros H Hx. cbv zeta. rewrite (setText_tracked x s H), Hx.
  change (400 + k)%nat with (299 + (1 + (99 + (1 + k))))%nat.
  unfold debounce_timer.
  rewrite advance_add, advance_wait by lia.
  rewrite advance_add. change (300 - 299)%nat with 1%nat.
  change (advance rev 1 ?s) with (tick rev s).
  rewrite tick_debounce.
  rewrite advance_add, advance_wait by lia.
  rewrite advance_add. change (100 - 99)%nat with 1%nat.
  change (advance rev 1 ?s) with (tick rev s).
  rewrite tick_resolve, advance_idle. cbn [engineCalls timers lintResult].
  repeat split.
Qed.

(** C9 (as stated): three edits at t, t+50 ms and t+100 ms do not always
    lead to exactly one run of the engine.  When the text as of t+100 ms is
    blank, the engine does not run at all.  When a lint call is in flight at
    t (here the page was edited 350 ms earlier, so the 300 ms timer has
    fired and the 100 ms inside lintText are running), that call still runs:
    the engine runs twice, first on the old text. *)
Lemma C9_debounce_counterexample :
  (let s := mount (lit "") in
   let s1 := edit (lit "あ") s in
   let s2 := edit (lit "あい") (advance ScanAll 50 s1) in
   let s3 := edit (lit "") (advance ScanAll 50 s2) in
   engineCalls (advance ScanAll 1000 s3) = [])
  /\ (let s := advance ScanAll 350 (edit (lit "下書き") (mount (lit ""))) in
      let s1 := edit (lit "あ") s in
      let s2 := edit (lit "あい") (advance ScanAll 50 s1) in
      let s3 := edit (lit "あいう") (advance ScanAll 50 s2) in
      engineCalls (advance ScanAll 1000 s3)
      = [(400%nat, lit "下書き"); (850%nat, lit "あいう")]).
Proof. vm_compute. split; reflexivity. Qed.

(** An edit that changes the text is [setText]; time does not change the
    text. *)
Lemma edit_changed (x : jsstring) (s : Page) :
  x <> text s -> edit x s = setText x s.
Proof.
  intros H. unfold edit, jsstring_eqb.
  destruct (list_eq_dec Z.eq_dec x (text s)); [contradiction | reflexivity].
Qed.

Lemma fires_text (rev : revision) (due : list timer) :
  forall s, text (fold_left (fun st tm => fire rev (cb tm) st) due s) = text s.
Proof.
  induction due as [|tm due IH]; intros s; cbn [fold_left]; [reflexivity|].
  rewrite IH. destruct (cb tm); reflexivity.
Qed.

Lemma advance_text (rev : revision) (d : nat) :
  forall s, text (advance rev d s) = text s.
Proof.
  induction d as [|d IH]; intros s; cbn [advance]; [reflexivity|].
  rewrite IH. unfold tick. now rewrite fires_text.
Qed.

Lemma setText_pending (x : jsstring) (s : Page) :
  tracked s ->
  text (setText x s) = x /\ timers (setText x s) = pending x (nextId s).
Proof.
  intros H. rewrite (setText_tracked x s H). unfold pending.
  destruct (is_blank x); split; reflexivity.
Qed.

(** After an edit to a blank text nothing is pending and nothing runs. *)
Lemma edit_blank_idle (rev : revision) (x : jsstring) (k : nat) (s : Page) :
  tracked s -> is_blank x = true ->
  let s' := advance rev k (setText x s) in
  engineCalls s' = engineCalls s /\ timers s' = [].
Proof.
  intros H Hx. cbv zeta. rewrite (setText_tracked x s H), Hx.
  rewrite advance_idle. split; reflexivity.
Qed.

(** C9 (amended): the page starts with no lint call in flight (every
    pending timer is the one the effect's cleanup clears), and the user
    makes three edits, each changing the text, at t, t+50 ms and t+100 ms.
    Each edit cancels what was pending and leaves pending only its own
    300 ms timer, or nothing when its text is blank.  When the text of the
    last edit is not blank, the engine runs exactly once, 400 ms after the
    last edit (300 ms of the effect's timer, 100 ms inside lintText), on the
    text of the last edit, and before that run nothing has run.  When the
    text of the last edit is blank, the engine does not run at all. *)
Theorem C9_debounce_amended (rev : revision) (s : Page) (x1 x2 x3 : jsstring)
  (k : nat) :
  tracked s ->
  x1 <> text s -> x2 <> x1 -> x3 <> x2 ->
  let s1 := edit x1 s in
  let s2 := edit x2 (advance rev 50 s1) in
  let s3 := edit x3 (advance rev 50 s2) in
  timers s1 = pending x1 (nextId s)
  /\ timers s2 = pending x2 (nextId (advance rev 50 s1))
  /\ timers s3 = pending x3 (nextId (advance rev 50 s2))
  /\ (is_blank x3 = false ->
      engineCalls (advance rev 399 s3) = engineCalls s
      /\ engineCalls (advance rev (400 + k) s3)
         = engineCalls s ++ [(500 + clock s, x3)]%nat
      /\ timers (advance rev (400 + k) s3) = [])
  /\ (is_blank x3 = true ->
      engineCalls (advance rev k s3) = engineCalls s
      /\ timers (advance rev k s3) = []).
Proof.
  intros Hs N1 N2 N3 s1 s2 s3.
  assert (S1 : s1 = setText x1 s) by (apply edit_changed; exact N1).
  destruct (setText_pending x1 s Hs) as [X1 P1].
  destruct (edit_then_wait rev x1 50 s Hs ltac:(lia)) as [T1 [E1 K1]].
  rewrite <- S1 in X1, P1, T1, E1, K1.
  set (a1 := advance rev 50 s1) in *.
  assert (A1 : text a1 = x1) by (subst a1; now rewrite advance_text).
  assert (S2 : s2 = setText x2 a1)
    by (apply edit_changed; rewrite A1; exact N2).
  destruct (setText_pending x2 a1 T1) as [X2 P2].
  destruct (edit_then_wait rev x2 50 a1 T1 ltac:(lia)) as [T2 [E2 K2]].
  rewrite <- S2 in X2, P2, T2, E2, K2.
  set (a2 := advance rev 50 s2) in *.
  assert (A2 : text a2 = x2) by (subst a2; now rewrite advance_text).
  assert (S3 : s3 = setText x3 a2)
    by (apply edit_changed; rewrite A2; exact N3).
  destruct (setText_pending x3 a2 T2) as [X3 P3].
  rewrite <- S3 in X3, P3.
  split; [exact P1|]. split; [exact P2|]. split; [exact P3|]. split.
  - intros Hx3.
    destruct (edit_then_settle rev x3 k a2 T2 Hx3) as [E3 [N3' _]].
    rewrite <- S3 in E3, N3'.
    split; [|split].
    + rewrite S3, (setText_tracked x3 a2 T2), Hx3.
      unfold debounce_timer.
      change 399%nat with (299 + (1 + 99))%nat.
      rewrite advance_add, advance_wait by lia.
      rewrite advance_add. change (300 - 299)%nat with 1%nat.
      change (advance rev 1 ?s) with (tick rev s).
      rewrite tick_debounce, advance_wait by lia.
      cbn [engineCalls]. congruence.
    + rewrite E3, E2, E1, K2, K1. reflexivity.
    + exact N3'.
  - intros Hx3.
    destruct (edit_blank_idle rev x3 k a2 T2 Hx3) as [E3 N3'].
    rewrite <- S3 in E3, N3'.
    split; [congruence | exact N3'].
Qed.

Lemma C9_debounce_amended_witness :
  let s := mount (lit "下書き") in
  let s1 := edit (lit "あ") s in
  let s2 := edit (lit "あい") (advance ScanAll 50 s1) in
  let s3 := edit (lit "あいう") (advance ScanAll 50 s2) in
  tracked s
  /\ timers s3 = pending (lit "あいう") (nextId (advance ScanAll 50 s2))
  /\ engineCalls (advance ScanAll (400 + 0) s3) = [(500%nat, lit "あいう")].
Proof.
  intros s s1 s2 s3.
  assert (Hs : tracked s) by (repeat constructor).
  assert (N1 : lit "あ" <> text s)
    by (intros E; vm_compute in E; discriminate E).
  assert (N2 : lit "あい" <> lit "あ")
    by (intros E; vm_compute in E; discriminate E).
  assert (N3 : lit "あいう" <> lit "あい")
    by (intros E; vm_compute in E; discriminate E).
  destruct (C9_debounce_amended ScanAll s (lit "あ") (lit "あい") (lit "あいう")
              0 Hs N1 N2 N3) as [_ [_ [P3 [H _]]]].
  split; [exact Hs|]. split; [exact P3|].
  exact (proj1 (proj2 (H eq_refl))).
Defined.

(** ** The [exec] loops end *)

Lemma try_down_some {A} (mn : nat) (f : nat -> option A) :
  forall j x, try_down mn j f = Some x ->
              exists i, (mn <= i <= j)%nat /\ f i = Some x.
Proof.
  induction j as [|j IH]; intros x; cbn [try_down].
  - destruct (0 <? mn)%nat eqn:E; [discriminate|].
    apply Nat.ltb_ge in E. destruct (f O) eqn:F; [|discriminate].
    intros [= <-]. exists O. split; [lia | exact F].
  - destruct (S j <? mn)%nat eqn:E; [discriminate|].
    apply Nat.ltb_ge in E. destruct (f (S j)) eqn:F.
    + intros [= <-]. exists (S j). split; [lia | exact F].
    + intros H. destruct (IH x H) as [i [Hi Fi]]. exists i. split; [lia | exact Fi].
Qed.

(** A match of [r] hands to its continuation a position at least
    [min_len r] further. *)
Lemma m_progress (s : jsstring) (r : regex) :
  forall k pos cap res,
    m s r k pos cap = Some res ->
    exists p c, k p c = Some res /\ (pos + min_len r <= p)%nat.
Proof.
  induction r as [l|c|mn mx c|r1 IH1 r2 IH2|r1 IH1| | |];
    intros k pos cap res; cbn [m min_len].
  - destruct (is_prefix l (skipn pos s)); [|discriminate]. eauto.
  - destruct (nth_error s pos) as [ch|]; [|discriminate].
    destruct (in_class c ch); [|discriminate].
    intros H. exists (S pos), cap. split; [exact H | lia].
  - intros H. apply try_down_some in H as [i [Hi Fi]].
    exists (pos + i)%nat, cap. split; [exact Fi | lia].
  - intros H. apply IH1 in H as [p1 [c1 [H1 L1]]].
    apply IH2 in H1 as [p2 [c2 [H2 L2]]].
    exists p2, c2. split; [exact H2 | lia].
  - intros H. apply IH1 in H as [p1 [c1 [H1 L1]]]. eauto.
  - destruct cap as [[a b]|].
    + destruct (is_prefix (slice s a b) (skipn pos s)); [|discriminate].
      intros H. exists (pos + (b - a))%nat, (Some (a, b)). split; [exact H | lia].
    + intros H. exists pos, None. split; [exact H | lia].
  - destruct (at_word_boundary s pos); [|discriminate].
    intros H. exists pos, cap. split; [exact H | lia].
  - destruct pos; [|discriminate].
    intros H. exists O, cap. split; [exact H | lia].
Qed.

Lemma search_progress (s : jsstring) (r : regex) :
  forall n i mt, search s r n i = Some mt -> (i + min_len r <= m_end mt)%nat.
Proof.
  induction n as [|n IH]; intros i mt; cbn [search];
    destruct (m s r (fun p c => Some (p, c)) i None) as [[e cap]|] eqn:E;
    try discriminate.
  - intros [= <-]. apply m_progress in E as [p [c [[= <- <-] L]]]. exact L.
  - intros [= <-]. apply m_progress in E as [p [c [[= <- <-] L]]]. exact L.
  - intros H. apply IH in H. lia.
Qed.

Lemma exec_progress (s : jsstring) (r : regex) (i : nat) (mt : Match) :
  exec s r i = Some mt -> (i + min_len r <= m_end mt)%nat.
Proof.
  unfold exec. destruct (List.length s <? i)%nat; [discriminate|].
  apply search_progress.
Qed.

(** When no match of [r] is empty, the loop needs at most
    [s.length + 1 - lastIndex] iterations: more fuel changes nothing. *)
Lemma execLoop_fuel (s : jsstring) (r : regex) :
  (1 <= min_len r)%nat ->
  forall fuel i extra,
    (List.length s < fuel + i)%nat ->
    execLoop s r (fuel + extra) i = execLoop s r fuel i.
Proof.
  intros Hr. induction fuel as [|fuel IH]; intros i extra H.
  - cbn [Nat.add execLoop]. destruct extra; [reflexivity|]. cbn [execLoop].
    unfold exec. replace (List.length s <? i)%nat with true; [reflexivity|].
    symmetry; apply Nat.ltb_lt; lia.
  - cbn [Nat.add execLoop]. destruct (exec s r i) as [mt|] eqn:E; [|reflexivity].
    f_equal. apply IH. apply exec_progress in E. lia.
Qed.

Lemma execAll_fuel (s : jsstring) (r : regex) (extra : nat) :
  (1 <= min_len r)%nat ->
  execLoop s r (S (List.length s) + extra) O = execAll s r.
Proof. intros H. apply execLoop_fuel; [exact H | lia]. Qed.

(** Every pattern that the engine runs in an [exec] loop consumes at least
    one character per match. *)
Lemma engine_patterns_progress :
  Forall (fun r => (1 <= min_len r)%nat)
         ([exclamationPattern; doubleJoshiPattern; japaneseWordPattern;
           englishWordPattern; englishWordPatternWithSpace]
          ++ map fst redundantPhrases ++ weakPhrases ++ ranukiPatterns
          ++ map fst aiPatterns).
Proof.
  unfold redundantPhrases, weakPhrases, ranukiPatterns, aiPatterns.
  cbn [map app fst].
  repeat (apply Forall_cons; [apply Nat.leb_le; vm_compute; reflexivity|]).
  apply Forall_nil.
Qed.

(** * Further properties of the engine *)

(** ** Matches lie inside the string *)

Lemma is_prefix_length :
  forall p s, is_prefix p s = true -> (List.length p <= List.length s)%nat.
Proof.
  induction p as [|a p IH]; intros [|b s] H; cbn in *; try lia; try discriminate.
  apply andb_true_iff in H as [_ H]. apply IH in H. lia.
Qed.


Lemma slice_length (s : jsstring) (a b : nat) :
  (a <= b <= List.length s)%nat -> List.length (slice s a b) = (b - a)%nat.
Proof. intros H. unfold slice. rewrite length_firstn, length_skipn. lia. Qed.

(** A match started inside the string ends inside the string, at least
    [min_len r] further. *)
Lemma m_bounds (s : jsstring) (r : regex) :
  forall k pos cap res,
    (pos <= List.length s)%nat -> cap_ok s cap ->
    m s r k pos cap = Some res ->
    exists p c, k p c = Some res
                /\ (pos + min_len r <= p <= List.length s)%nat /\ cap_ok s c.
Proof.
  induction r as [l|c|mn mx c|r1 IH1 r2 IH2|r1 IH1| | |];
    intros k pos cap res Hpos Hcap; cbn [m min_len].
  - destruct (is_prefix l (skipn pos s)) eqn:E; [|discriminate].
    apply is_prefix_length in E. rewrite length_skipn in E.
    intros H. exists (pos + List.length l)%nat, cap. repeat split; auto; lia.
  - destruct (nth_error s pos) as [ch|] eqn:E; [|discriminate].
    destruct (in_class c ch); [|discriminate].
    assert (Hlt : (pos < List.length s)%nat) by (apply nth_error_Some; congruence).
    intros H. exists (S pos), cap. repeat split; auto; lia.
  - intros H. apply try_down_some in H as [i [Hi Fi]].
    pose proof (run_length_le c (skipn pos s)) as R. rewrite length_skipn in R.
    exists (pos + i)%nat, cap. repeat split; auto; try lia.
    destruct mx; lia.
  - intros H. apply IH1 in H as [p1 [c1 [H1 [L1 K1]]]]; auto.
    apply IH2 in H1 as [p2 [c2 [H2 [L2 K2]]]]; auto; try lia.
    exists p2, c2. repeat split; auto; lia.
  - intros H. apply IH1 in H as [p1 [c1 [H1 [L1 K1]]]]; auto.
    exists p1, (Some (pos, p1)). repeat split; auto; cbn; lia.
  - destruct cap as [[a b]|].
    + destruct (is_prefix (slice s a b) (skipn pos s)) eqn:E; [|discriminate].
      apply is_prefix_length in E. cbn in Hcap.
      rewrite slice_length, length_skipn in E by lia.
      intros H. exists (pos + (b - a))%nat, (Some (a, b)).
      repeat split; auto; cbn; lia.
    + intros H. exists pos, None. repeat split; auto; lia.
  - destruct (at_word_boundary s pos); [|discriminate].
    intros H. exists pos, cap. repeat split; auto; lia.
  - destruct pos; [|discriminate].
    intros H. exists O, cap. repeat split; auto; lia.
Qed.


Lemma search_inside (s : jsstring) (r : regex) :
  forall n i mt,
    (i + n <= List.length s)%nat ->
    search s r n i = Some mt -> match_inside s r i mt.
Proof.
  induction n as [|n IH]; intros i mt Hi; cbn [search];
    destruct (m s r (fun p c => Some (p, c)) i None) as [[e cap]|] eqn:E;
    try discriminate.
  - intros [= <-]. apply m_bounds in E as [p [c [[= <- <-] [L _]]]]; cbn; auto; try lia.
    exists i. cbn. repeat split; lia.
  - intros [= <-]. apply m_bounds in E as [p [c [[= <- <-] [L _]]]]; cbn; auto; try lia.
    exists i. cbn. repeat split; lia.
  - intros H. apply IH in H; [|lia]. destruct H as [j [H1 [H2 [H3 H4]]]].
    exists j. repeat split; auto; lia.
Qed.

Lemma exec_inside (s : jsstring) (r : regex) (i : nat) (mt : Match) :
  exec s r i = Some mt -> match_inside s r i mt.
Proof.
  unfold exec. destruct (List.length s <? i)%nat eqn:E; [discriminate|].
  apply Nat.ltb_ge in E. apply search_inside. lia.
Qed.

Lemma execLoop_inside (s : jsstring) (r : regex) :
  forall fuel i, Forall (match_inside s r O) (execLoop s r fuel i).
Proof.
  induction fuel as [|fuel IH]; intros i; cbn [execLoop]; [constructor|].
  destruct (exec s r i) as [mt|] eqn:E; constructor; [|apply IH].
  apply exec_inside in E as [j [H1 [H2 [H3 H4]]]].
  exists j. repeat split; auto; lia.
Qed.

(** The index of every match of a loop is a position of the string, when
    the pattern cannot match the empty string. *)
Lemma execAll_index (s : jsstring) (r : regex) :
  (1 <= min_len r)%nat ->
  Forall (fun mt => 0 <= index mt < len s) (execAll s r).
Proof.
  intros Hr. eapply Forall_impl; [|apply execLoop_inside].
  intros mt [j [H1 [H2 [H3 H4]]]]. unfold len. lia.
Qed.

(** ** [indexOf] of a piece of the string *)

Lemma is_prefix_firstn (k : nat) :
  forall t, is_prefix (firstn k t) t = true.
Proof.
  induction k as [|k IH]; intros [|c t]; cbn; auto.
  now rewrite Z.eqb_refl, IH.
Qed.

Lemma indexOf_from_found (p : jsstring) :
  forall s j k,
    (j <= List.length s)%nat -> is_prefix p (skipn j s) = true ->
    k <= indexOf_from s p k <= k + Z.of_nat j.
Proof.
  induction s as [|c s IH]; intros j k Hj Hp; cbn [indexOf_from].
  - destruct j; [|cbn in Hj; lia]. cbn in Hp. rewrite Hp. lia.
  - destruct (is_prefix p (c :: s)) eqn:E; [lia|].
    destruct j as [|j]; [cbn in Hp; congruence|].
    cbn in Hj, Hp. specialize (IH j (k + 1) ltac:(lia) Hp). lia.
Qed.

Lemma indexOf_match (s : jsstring) (r : regex) (from : nat) (mt : Match) :
  match_inside s r from mt -> 0 <= indexOf s (m0 mt) <= index mt.
Proof.
  intros [j [H1 [H2 [H3 H4]]]]. rewrite H4, H1. unfold indexOf.
  apply (indexOf_from_found (slice s j (m_end mt)) s j 0); [lia|].
  apply is_prefix_firstn.
Qed.

(** ** Every message points inside its line *)

Lemma loop_columns (lt : jsstring) (r : regex) (mk : Match -> Z -> TextlintMessage) :
  (1 <= min_len r)%nat ->
  (forall mt c, column (mk mt c) = c) ->
  Forall (fun msg => 1 <= column msg <= len lt)
         (map (fun mt => mk mt (index mt + 1)) (execAll lt r)).
Proof.
  intros Hr Hmk. apply Forall_map.
  eapply Forall_impl; [|apply (execAll_index lt r Hr)].
  cbv beta; intros mt H. rewrite Hmk. lia.
Qed.

Lemma first_match_column (lt : jsstring) (r : regex) (mt : Match) :
  (1 <= min_len r)%nat ->
  match_ lt r = Some mt ->
  1 <= indexOf lt (m0 mt) + 1 <= len lt.
Proof.
  intros Hr H. apply exec_inside in H.
  pose proof (indexOf_match lt r O mt H) as Hi.
  destruct H as [j [H1 [H2 [H3 H4]]]]. unfold len. lia.
Qed.

Lemma sentence_split_columns (lt : jsstring) (l : Z) :
  Forall (fun msg => 1 <= column msg <= len lt) (sentence_rule_split lt l).
Proof.
  rewrite sentence_rule_split_eq. apply Forall_map.
  apply Forall_forall. intros [col sg] Hin.
  apply filter_In in Hin as [Hin Hlong].
  pose proof (split_on_offsets sentence_delim lt 1) as Ho.
  rewrite Forall_forall in Ho. destruct (Ho _ Hin) as [n [H1 [H2 _]]].
  unfold overlong in Hlong. apply Z.ltb_lt in Hlong.
  cbn [fst snd sentence_diag column lint_msg] in *. unfold len in *. lia.
Qed.

Lemma colon_columns (lt : jsstring) (l : Z) :
  Forall (fun msg => 1 <= column msg <= len lt) (colon_rule lt l).
Proof.
  unfold colon_rule.
  destruct (includes lt (lit ":") || includes lt (lit "：")) eqn:E; constructor;
    [|constructor].
  cbn [column lint_msg]. rewrite !includes_indexOf in E.
  assert (B : forall c, indexOf lt [c] < len lt).
  { intros c. destruct (Z.ltb_spec (indexOf lt [c]) 0) as [H|H].
    - unfold len. lia.
    - destruct (indexOf_char_first c lt _ H eq_refl) as [Hn _].
      assert (Hlt : (Z.to_nat (indexOf lt [c]) < List.length lt)%nat)
        by (apply nth_error_Some; congruence).
      unfold len. lia. }
  pose proof (B 0x3A) as B1. pose proof (B 0xFF1A) as B2.
  change [0x3A] with (lit ":") in B1. change [0xFF1A] with (lit "：") in B2.
  apply orb_true_iff in E. rewrite !Z.leb_le in E. lia.
Qed.

Ltac pattern_progress := apply Nat.leb_le; vm_compute; reflexivity.

Lemma lint_line_columns (lt : jsstring) (l : Z) (rev : revision) :
  Forall (fun msg => 1 <= column msg <= len lt) (lint_line lt l rev).
Proof.
  unfold lint_line. rewrite !Forall_app.
  repeat match goal with |- _ /\ _ => split end.
  - apply (loop_columns lt _ (fun _ c => lint_msg _ _ l c 2));
      [pattern_progress | reflexivity].
  - destruct rev; [apply sentence_split_columns|].
    unfold sentence_rule_line. destruct (Z.ltb_spec 100 (len lt)); constructor;
      [cbn [column lint_msg]; lia | constructor].
  - apply Forall_flat_map_intro. unfold redundantPhrases.
    repeat (apply Forall_cons || apply Forall_nil);
      apply (loop_columns lt _ (fun _ c => lint_msg _ _ l c 1));
      (pattern_progress || reflexivity).
  - apply Forall_flat_map_intro. unfold weakPhrases.
    repeat (apply Forall_cons || apply Forall_nil);
      apply (loop_columns lt _ (fun _ c => lint_msg _ _ l c 1));
      (pattern_progress || reflexivity).
  - destruct rev.
    + apply (loop_columns lt _ (fun mt c => lint_msg _ (joshi_message (m1 mt)) l c 1));
        [pattern_progress | reflexivity].
    + unfold joshi_rule_first.
      destruct (match_ lt doubleJoshiPattern) as [mt|] eqn:E; constructor;
        [|constructor].
      apply (first_match_column lt doubleJoshiPattern mt); [pattern_progress | exact E].
  - destruct rev.
    + unfold successive_rule_all. rewrite !Forall_app.
      repeat match goal with |- _ /\ _ => split end.
      * apply (loop_columns lt _
                 (fun mt c => lint_msg _ (successive_message (m1 mt)) l c 2));
          [pattern_progress | reflexivity].
      * apply (loop_columns lt _
                 (fun mt c => lint_msg _ (successive_message (m1 mt)) l c 2));
          [pattern_progress | reflexivity].
      * apply (loop_columns lt _
                 (fun mt c => lint_msg _ (successive_message (m1 mt) ++ _) l c 2));
          [pattern_progress | reflexivity].
    + unfold successive_rule_first.
      destruct (match_ lt consecutiveWordsPattern) as [mt|] eqn:E; constructor;
        [|constructor].
      apply (first_match_column lt consecutiveWordsPattern mt); [pattern_progress | exact E].
  - apply Forall_flat_map_intro. unfold ranukiPatterns.
    repeat (apply Forall_cons || apply Forall_nil);
      apply (loop_columns lt _ (fun _ c => lint_msg _ _ l c 1));
      (pattern_progress || reflexivity).
  - unfold kanji_rule.
    destruct (match_ lt kanjiPattern) as [mt|] eqn:E; constructor; [|constructor].
    apply (first_match_column lt kanjiPattern mt); [pattern_progress | exact E].
  - apply Forall_flat_map_intro. unfold aiPatterns.
    repeat (apply Forall_cons || apply Forall_nil);
      apply (loop_columns lt _ (fun _ c => lint_msg _ _ l c 1));
      (pattern_progress || reflexivity).
  - apply colon_columns.
Qed.

Lemma lint_lines_inside (rev : revision) :
  forall lines i0,
    Forall (fun msg => exists k lt,
                line msg = i0 + Z.of_nat k + 1
                /\ nth_error lines k = Some lt
                /\ 1 <= column msg <= len lt)
           (lint_lines rev lines i0).
Proof.
  induction lines as [|lt rest IH]; intros i0; cbn [lint_lines]; [constructor|].
  apply Forall_app; split.
  - pose proof (lint_line_line lt (i0 + 1) rev) as Hl.
    pose proof (lint_line_columns lt (i0 + 1) rev) as Hc.
    rewrite Forall_forall in *. intros msg Hin.
    exists O, lt. rewrite (Hl _ Hin). repeat split; try apply (Hc _ Hin). lia.
  - eapply Forall_impl; [|apply (IH (i0 + 1))].
    intros msg [k [lt' [H1 [H2 H3]]]]. exists (S k), lt'.
    repeat split; auto; try lia.
Qed.

(** X1: every message of a lint result, in both revisions, points inside
    the text: its line is one of the lines of the text and its column is a
    position of a character of that line. *)
Theorem messages_inside_text (rev : revision) (text : jsstring) :
  Forall (fun msg => exists lineText,
              lookup (split_lines text) (line msg - 1) = Some lineText
              /\ 1 <= line msg <= len_msgs (split_lines text)
              /\ 1 <= column msg <= len lineText)
         (messages (generateMockLintResult rev text)).
Proof.
  unfold generateMockLintResult; cbn [messages].
  eapply Forall_impl; [|apply lint_lines_inside].
  intros msg [k [lt [H1 [H2 H3]]]]. exists lt.
  assert (Hk : (k < List.length (split_lines text))%nat)
    by (apply nth_error_Some; congruence).
  unfold lookup, len_msgs. rewrite H1.
  replace (0 + Z.of_nat k + 1 - 1 <? 0) with false
    by (symmetry; apply Z.ltb_ge; lia).
  replace (Z.to_nat (0 + Z.of_nat k + 1 - 1)) with k by lia.
  repeat split; auto; lia.
Qed.

(** ** The order of the messages *)

Lemma StronglySorted_app {A} (R : A -> A -> Prop) (l1 l2 : list A) :
  StronglySorted R l1 -> StronglySorted R l2 ->
  (forall a b, In a l1 -> In b l2 -> R a b) ->
  StronglySorted R (l1 ++ l2).
Proof.
  induction 1 as [|x l1 H1 IH Hx]; intros H2 H12; cbn; [exact H2|].
  constructor.
  - apply IH; [exact H2 | intros; apply H12; cbn; auto].
  - apply Forall_app; split; [exact Hx|].
    apply Forall_forall. intros b Hb. apply H12; cbn; auto.
Qed.

Lemma same_line_sorted (l : Z) (msgs : list TextlintMessage) :
  Forall (fun msg => line msg = l) msgs ->
  StronglySorted (fun a b => line a <= line b) msgs.
Proof.
  induction 1 as [|x msgs Hx Hall IH]; constructor; [exact IH|].
  eapply Forall_impl; [|exact Hall]. cbv beta; intros; lia.
Qed.

Lemma lint_lines_sorted (rev : revision) :
  forall lines i0,
    StronglySorted (fun a b => line a <= line b) (lint_lines rev lines i0).
Proof.
  induction lines as [|lt rest IH]; intros i0; cbn [lint_lines]; [constructor|].
  apply StronglySorted_app.
  - apply (same_line_sorted (i0 + 1)), lint_line_line.
  - apply IH.
  - intros a b Ha Hb.
    pose proof (lint_line_line lt (i0 + 1) rev) as H1.
    pose proof (lint_lines_line_gt rev rest (i0 + 1)) as H2.
    rewrite Forall_forall in H1, H2.
    rewrite (H1 _ Ha). specialize (H2 _ Hb). cbv beta in H2. lia.
Qed.

(** X2: the messages of a result come in the order of the lines: the line
    number never decreases along the list (within one line the order is the
    order of the rules, not of the columns). *)
Theorem messages_sorted_by_line (rev : revision) (text : jsstring) :
  StronglySorted (fun a b => line a <= line b)
                 (messages (generateMockLintResult rev text)).
Proof. apply lint_lines_sorted. Qed.

(** ** Texts joined by a newline *)

Lemma split_on_nonempty (sep : Z -> bool) (s : jsstring) : split_on sep s <> [].
Proof.
  destruct s as [|c s]; cbn; [discriminate|].
  destruct (sep c); [discriminate|]. destruct (split_on sep s); discriminate.
Qed.

Lemma split_on_join (sep : Z -> bool) (c : Z) (b : jsstring) :
  sep c = true ->
  forall a, split_on sep (a ++ c :: b) = split_on sep a ++ split_on sep b.
Proof.
  intros Hc. induction a as [|x a IH]; cbn [app split_on].
  - now rewrite Hc.
  - rewrite IH. destruct (sep x); [reflexivity|].
    pose proof (split_on_nonempty sep a) as Hne.
    destruct (split_on sep a) as [|p ps]; [congruence | reflexivity].
Qed.

Lemma lint_lines_app (rev : revision) (l2 : list jsstring) :
  forall l1 i0,
    lint_lines rev (l1 ++ l2) i0
    = lint_lines rev l1 i0 ++ lint_lines rev l2 (i0 + len_msgs l1).
Proof.
  unfold len_msgs. induction l1 as [|lt l1 IH]; intros i0; cbn [app lint_lines].
  - cbn. now rewrite Z.add_0_r.
  - rewrite IH, <- app_assoc. do 3 f_equal. cbn [List.length]. lia.
Qed.

Lemma map_of_flat_map {A B C} (g : B -> C) (f : A -> list B) (l : list A) :
  map g (flat_map f l) = flat_map (fun x => map g (f x)) l.
Proof. induction l as [|x l IH]; cbn; [reflexivity|]. now rewrite map_app, IH. Qed.

Ltac shift_msg :=
  unfold sentence_diag; unfold shift_line, lint_msg;
  cbn [type ruleId message line column severity]; reflexivity.

Ltac shift_loop :=
  etransitivity; [|symmetry; apply map_map]; apply map_ext; intros; shift_msg.

Ltac shift_first x :=
  destruct x; cbn [map]; [apply (f_equal (fun m => [m])); shift_msg | reflexivity].

Lemma exclamation_shift lt l k :
  exclamation_rule lt (l + k) = map (shift_line k) (exclamation_rule lt l).
Proof. unfold exclamation_rule. shift_loop. Qed.

Lemma sentence_split_shift lt l k :
  sentence_rule_split lt (l + k) = map (shift_line k) (sentence_rule_split lt l).
Proof. rewrite !sentence_rule_split_eq. shift_loop. Qed.

Lemma sentence_line_shift lt l k :
  sentence_rule_line lt (l + k) = map (shift_line k) (sentence_rule_line lt l).
Proof. unfold sentence_rule_line. shift_first (100 <? len lt). Qed.

Lemma redundant_shift lt l k :
  redundant_rule lt (l + k) = map (shift_line k) (redundant_rule lt l).
Proof.
  unfold redundant_rule. rewrite map_of_flat_map.
  apply flat_map_ext. intros [pattern suggestion]. shift_loop.
Qed.

Lemma weak_shift lt l k :
  weak_rule lt (l + k) = map (shift_line k) (weak_rule lt l).
Proof.
  unfold weak_rule. rewrite map_of_flat_map.
  apply flat_map_ext. intros pattern. shift_loop.
Qed.

Lemma joshi_all_shift lt l k :
  joshi_rule_all lt (l + k) = map (shift_line k) (joshi_rule_all lt l).
Proof. unfold joshi_rule_all. shift_loop. Qed.

Lemma joshi_first_shift lt l k :
  joshi_rule_first lt (l + k) = map (shift_line k) (joshi_rule_first lt l).
Proof. unfold joshi_rule_first. shift_first (match_ lt doubleJoshiPattern). Qed.

Lemma successive_all_shift lt l k :
  successive_rule_all lt (l + k) = map (shift_line k) (successive_rule_all lt l).
Proof.
  unfold successive_rule_all. rewrite !map_app.
  apply (f_equal2 (@app _)); [shift_loop|].
  apply (f_equal2 (@app _)); shift_loop.
Qed.

Lemma successive_first_shift lt l k :
  successive_rule_first lt (l + k) = map (shift_line k) (successive_rule_first lt l).
Proof. unfold successive_rule_first. shift_first (match_ lt consecutiveWordsPattern). Qed.

Lemma ranuki_shift lt l k :
  ranuki_rule lt (l + k) = map (shift_line k) (ranuki_rule lt l).
Proof.
  unfold ranuki_rule. rewrite map_of_flat_map.
  apply flat_map_ext. intros pattern. shift_loop.
Qed.

Lemma kanji_shift lt l k :
  kanji_rule lt (l + k) = map (shift_line k) (kanji_rule lt l).
Proof. unfold kanji_rule. shift_first (match_ lt kanjiPattern). Qed.

Lemma ai_shift lt l k :
  ai_rule lt (l + k) = map (shift_line k) (ai_rule lt l).
Proof.
  unfold ai_rule. rewrite map_of_flat_map.
  apply flat_map_ext. intros [pattern rule]. shift_loop.
Qed.

Lemma colon_shift lt l k :
  colon_rule lt (l + k) = map (shift_line k) (colon_rule lt l).
Proof.
  unfold colon_rule.
  shift_first (includes lt (lit ":") || includes lt (lit "：")).
Qed.

Lemma lint_line_shift (lt : jsstring) (l k : Z) (rev : revision) :
  lint_line lt (l + k) rev = map (shift_line k) (lint_line lt l rev).
Proof.
  unfold lint_line. rewrite !map_app.
  rewrite <- exclamation_shift, <- redundant_shift, <- weak_shift, <- ranuki_shift,
    <- kanji_shift, <- ai_shift, <- colon_shift.
  destruct rev.
  - now rewrite <- sentence_split_shift, <- joshi_all_shift, <- successive_all_shift.
  - now rewrite <- sentence_line_shift, <- joshi_first_shift, <- successive_first_shift.
Qed.

Lemma lint_lines_shift (rev : revision) (k : Z) :
  forall lines i0,
    lint_lines rev lines (i0 + k) = map (shift_line k) (lint_lines rev lines i0).
Proof.
  induction lines as [|lt rest IH]; intros i0; cbn [lint_lines map]; [reflexivity|].
  rewrite map_app, <- IH, <- lint_line_shift. do 2 f_equal; lia.
Qed.

Lemma count_severity_app (sev : Z) (l1 l2 : list TextlintMessage) :
  count_severity sev (l1 ++ l2) = count_severity sev l1 + count_severity sev l2.
Proof. induction l1 as [|x l1 IH]; cbn [app count_severity]; [reflexivity | lia]. Qed.

Lemma count_severity_shift (sev k : Z) (l : list TextlintMessage) :
  count_severity sev (map (shift_line k) l) = count_severity sev l.
Proof. induction l as [|x l IH]; cbn; [reflexivity | now rewrite IH]. Qed.

(** X3: linting two texts joined by a newline (code unit 0x0A) gives the messages of the
    first text followed by the messages of the second text moved down by the
    number of lines of the first; the error and warning counts add up. *)
Theorem lint_joined_texts (rev : revision) (a b : jsstring) :
  let ra := generateMockLintResult rev a in
  let rb := generateMockLintResult rev b in
  let r := generateMockLintResult rev (a ++ 0x0A :: b) in
  messages r
  = messages ra ++ map (shift_line (len_msgs (split_lines a))) (messages rb)
  /\ errorCount r = errorCount ra + errorCount rb
  /\ warningCount r = warningCount ra + warningCount rb.
Proof.
  cbv zeta.
  assert (M : messages (generateMockLintResult rev (a ++ 0x0A :: b))
              = messages (generateMockLintResult rev a)
                ++ map (shift_line (len_msgs (split_lines a)))
                       (messages (generateMockLintResult rev b))).
  { unfold generateMockLintResult; cbn [messages]. unfold split_lines.
    rewrite split_on_join by reflexivity.
    rewrite lint_lines_app. f_equal. apply lint_lines_shift. }
  split; [exact M|].
  unfold generateMockLintResult in *; cbn [messages errorCount warningCount] in *.
  rewrite !len_filter_severity, M, !count_severity_app, !count_severity_shift.
  split; reflexivity.
Qed.

(** ** The rules that look for fixed phrases *)

Lemma skipn_step {A} (l : list A) :
  forall i x t, skipn i l = x :: t -> skipn (S i) l = t.
Proof.
  induction l as [|y l IH]; intros [|i] x t H; cbn in *; try discriminate.
  - now injection H as _ ->.
  - apply (IH i x t H).
Qed.

Lemma search_lit_none (s p : jsstring) :
  forall t i, skipn i s = t ->
    (search s (Lit p) (List.length t) i = None <-> includes t p = false).
Proof.
  induction t as [|c t IH]; intros i Ht; cbn [List.length search m includes];
    rewrite Ht.
  - destruct (is_prefix p []); cbn; split; congruence.
  - destruct (is_prefix p (c :: t)); cbn [orb]; [split; congruence|].
    apply IH. apply (skipn_step s i c t Ht).
Qed.

(** The loop over a fixed phrase finds nothing exactly when the string does
    not include the phrase. *)
Lemma lit_loop_nil (s p : jsstring) :
  execAll s (Lit p) = [] <-> includes s p = false.
Proof.
  unfold execAll; cbn [execLoop]. unfold exec.
  change (List.length s <? 0)%nat with false. cbv iota. rewrite Nat.sub_0_r.
  rewrite <- (search_lit_none s p s O eq_refl).
  destruct (search s (Lit p) (List.length s) 0); split; congruence.
Qed.

Lemma search_lit_sound (s p : jsstring) :
  forall n i mt, search s (Lit p) n i = Some mt ->
    0 <= index mt /\ is_prefix p (skipn (Z.to_nat (index mt)) s) = true.
Proof.
  induction n as [|n IH]; intros i mt; cbn [search m];
    destruct (is_prefix p (skipn i s)) eqn:E; try discriminate.
  - intros [= <-]. cbn [index mkMatch]. rewrite Nat2Z.id. split; [lia | exact E].
  - intros [= <-]. cbn [index mkMatch]. rewrite Nat2Z.id. split; [lia | exact E].
  - apply IH.
Qed.

(** Every match of the loop over a fixed phrase is at an occurrence of the
    phrase. *)
Lemma lit_loop_sound (s p : jsstring) :
  Forall (fun mt => 0 <= index mt
                    /\ is_prefix p (skipn (Z.to_nat (index mt)) s) = true)
         (execAll s (Lit p)).
Proof.
  unfold execAll. generalize (S (List.length s)) O.
  induction n as [|n IH]; intros i; cbn [execLoop]; [constructor|].
  unfold exec at 1. destruct (List.length s <? i)%nat; [constructor|].
  destruct (search s (Lit p) (List.length s - i) i) as [mt|] eqn:E;
    constructor; [|apply IH].
  apply (search_lit_sound s p _ _ _ E).
Qed.

Lemma app_nil_iff {A} (l1 l2 : list A) : l1 ++ l2 = [] <-> l1 = [] /\ l2 = [].
Proof.
  split; [apply app_eq_nil | intros [-> ->]; reflexivity].
Qed.

Lemma map_nil_iff {A B} (f : A -> B) (l : list A) : map f l = [] <-> l = [].
Proof. destruct l; cbn; split; congruence. Qed.

Lemma lit_loop_columns (lt p : jsstring) (mk : Match -> Z -> TextlintMessage)
  (phrases : list jsstring) :
  (forall mt c, column (mk mt c) = c) ->
  In p phrases ->
  Forall (fun msg => Exists (fun q => phrase_at q lt (column msg)) phrases)
         (map (fun mt => mk mt (index mt + 1)) (execAll lt (Lit p))).
Proof.
  intros Hmk Hin. apply Forall_map.
  eapply Forall_impl; [|apply lit_loop_sound].
  cbv beta; intros mt [H0 Hp]. rewrite Hmk. apply Exists_exists.
  exists p. split; [exact Hin|]. unfold phrase_at.
  replace (index mt + 1 - 1) with (index mt) by lia. split; [lia | exact Hp].
Qed.

Ltac same_rule :=
  unfold has_rule; cbn [ruleId lint_msg sentence_diag]; vm_compute; reflexivity.

Lemma phrase_rule_blocks (lt : jsstring) (l : Z) (rev : revision) :
  filter (has_rule (lit "ja-no-redundant-expression")) (lint_line lt l rev)
  = redundant_rule lt l
  /\ filter (has_rule (lit "ja-no-weak-phrase")) (lint_line lt l rev)
     = weak_rule lt l
  /\ filter (has_rule (lit "ja-no-abusage")) (lint_line lt l rev)
     = ranuki_rule lt l.
Proof.
  repeat split; unfold lint_line; destruct rev; drop_other_rules;
    (apply filter_all; each_rule ltac:(same_rule)).
Qed.

Lemma ai_phrase_blocks (lt : jsstring) (l : Z) (rev : revision) :
  filter (has_rule (lit "no-ai-hype-expressions")) (lint_line lt l rev)
  = map (fun mt => lint_msg (lit "no-ai-hype-expressions")
                     (lit "AI生成文書に見られる表現パターンです") l (index mt + 1) 1)
        (execAll lt (Lit (lit "革命的な")))
    ++ map (fun mt => lint_msg (lit "no-ai-hype-expressions")
                        (lit "AI生成文書に見られる表現パターンです") l (index mt + 1) 1)
           (execAll lt (Lit (lit "画期的な")))
  /\ filter (has_rule (lit "no-ai-list-formatting")) (lint_line lt l rev)
     = map (fun mt => lint_msg (lit "no-ai-list-formatting")
                        (lit "AI生成文書に見られる表現パターンです") l (index mt + 1) 1)
           (execAll lt (Lit (lit "✅"))).
Proof.
  split; unfold lint_line, ai_rule, aiPatterns; cbn [flat_map];
    destruct rev; drop_other_rules;
    rewrite ?filter_all by (apply Forall_map_intro; intros; same_rule);
    reflexivity.
Qed.

Ltac phrase_nil :=
  cbn [flat_map]; rewrite ?app_nil_r, ?app_nil_iff, ?map_nil_iff, ?lit_loop_nil;
  rewrite ?Forall_cons_iff;
  (split; [ intros; repeat split; try tauto; apply Forall_nil | tauto ]).

Ltac phrase_cols l sev :=
  cbn [flat_map]; rewrite ?app_nil_r, ?Forall_app;
  repeat match goal with |- _ /\ _ => split end;
  (apply (lit_loop_columns _ _ (fun _ c => lint_msg _ _ l c sev));
   [ intros; reflexivity | cbn [In]; auto 8 ]).

(** X4: for the rules that look for fixed phrases (redundant expression,
    weak phrase, ra-nuki, AI hype, AI list mark), in both revisions: a line
    has no message of the rule exactly when it includes none of the rule's
    phrases, and every message of the rule is at a column where one of the
    phrases occurs. *)
Theorem phrase_rules_exact (rev : revision) (text : jsstring) (i : nat)
  (lt rid : jsstring) (phrases : list jsstring) :
  nth_error (split_lines text) i = Some lt ->
  In (rid, phrases) phrase_table ->
  let found :=
    filter (fun msg => has_rule rid msg && on_line (Z.of_nat i + 1) msg)
           (messages (generateMockLintResult rev text)) in
  (found = [] <-> Forall (fun p => includes lt p = false) phrases)
  /\ Forall (fun msg => Exists (fun p => phrase_at p lt (column msg)) phrases)
            found.
Proof.
  intros Hn Hin found. subst found.
  rewrite (messages_of_line _ rev text i lt Hn).
  destruct (phrase_rule_blocks lt (Z.of_nat i + 1) rev) as [B1 [B2 B3]].
  destruct (ai_phrase_blocks lt (Z.of_nat i + 1) rev) as [B4 B5].
  cbn [phrase_table In] in Hin.
  destruct Hin as [E|[E|[E|[E|[E|[]]]]]]; injection E as <- <-.
  - rewrite B1. unfold redundant_rule, redundantPhrases.
    split; [phrase_nil | phrase_cols (Z.of_nat i + 1) 1].
  - rewrite B2. unfold weak_rule, weakPhrases.
    split; [phrase_nil | phrase_cols (Z.of_nat i + 1) 1].
  - rewrite B3. unfold ranuki_rule, ranukiPatterns.
    split; [phrase_nil | phrase_cols (Z.of_nat i + 1) 1].
  - rewrite B4. split; [phrase_nil | phrase_cols (Z.of_nat i + 1) 1].
  - rewrite B5. split; [phrase_nil | phrase_cols (Z.of_nat i + 1) 1].
Qed.

Lemma phrase_rules_exact_witness :
  let text := lit "そうだと思う" in
  Forall (fun msg => Exists (fun p => phrase_at p text (column msg))
                       [lit "かもしれない"; lit "思う"; lit "だろう"])
         (filter (fun msg => has_rule (lit "ja-no-weak-phrase") msg && on_line 1 msg)
                 (messages (generateMockLintResult ScanAll text))).
Proof.
  intros text.
  exact (proj2 (phrase_rules_exact ScanAll text 0 text (lit "ja-no-weak-phrase")
                  [lit "かもしれない"; lit "思う"; lit "だろう"] eq_refl
                  (or_intror (or_introl eq_refl)))).
Defined.

(** * The filter of the page *)

Lemma jsstring_eqb_eq (a b : jsstring) : jsstring_eqb a b = true <-> a = b.
Proof.
  unfold jsstring_eqb. destruct (list_eq_dec Z.eq_dec a b); split; congruence.
Qed.

Lemma jsstring_eqb_refl (a : jsstring) : jsstring_eqb a a = true.
Proof. now apply jsstring_eqb_eq. Qed.

Lemma engine_severities (rev : revision) (text : jsstring) :
  Forall (fun msg => severity msg = 1 \/ severity msg = 2)
         (messages (generateMockLintResult rev text)).
Proof.
  unfold generateMockLintResult; cbn [messages].
  apply lint_lines_Forall. intros; apply lint_line_severity.
Qed.

Lemma count_severity_filter (sev : Z) (f : TextlintMessage -> bool)
  (l : list TextlintMessage) :
  count_severity sev (filter f l)
  = len_msgs (filter (fun msg => severity msg =? sev) (filter f l)).
Proof. now rewrite len_filter_severity. Qed.

Lemma filter_idem {A} (f : A -> bool) (l : list A) :
  filter f (filter f l) = filter f l.
Proof.
  apply filter_all. apply Forall_forall. intros x Hx.
  apply filter_In in Hx. tauto.
Qed.

Lemma filter_disjoint {A} (f g : A -> bool) (l : list A) :
  (forall x, f x = true -> g x = false) -> filter g (filter f l) = [].
Proof.
  intros H. apply filter_none. apply Forall_forall. intros x Hx.
  apply filter_In in Hx. apply H. tauto.
Qed.

(** X5: for a result of the engine and any rule configuration, the three
    views of the panel fit together: the error count shown with the filter
    'all' is the length of the 'error' view, the warning count is the length
    of the 'warning' view, the two views together have as many messages as
    the 'all' view, and the 'error' view shows warning count 0 (the
    'warning' view error count 0). *)
Theorem filter_views_partition (rev : revision) (text : jsstring)
  (rules : list Rule) :
  let result := Some (generateMockLintResult rev text) in
  let view f := filteredMessages result f rules in
  panelErrorCount (view all) = len_msgs (view error_)
  /\ panelWarningCount (view all) = len_msgs (view warning)
  /\ len_msgs (view error_) + len_msgs (view warning) = len_msgs (view all)
  /\ panelWarningCount (view error_) = 0
  /\ panelErrorCount (view warning) = 0
  /\ panelErrorCount (view error_) = len_msgs (view error_)
  /\ panelWarningCount (view warning) = len_msgs (view warning).
Proof.
  cbv zeta. unfold filteredMessages, panelErrorCount, panelWarningCount.
  set (msgs := messages (generateMockLintResult rev text)).
  set (keep := fun msg : TextlintMessage =>
                 match find (fun r => jsstring_eqb (id r) (ruleId msg)) rules with
                 | Some rule => enabled rule
                 | None => true
                 end).
  assert (Hsev : Forall (fun msg => severity msg = 1 \/ severity msg = 2)
                        (filter keep msgs)).
  { apply Forall_forall. intros msg Hin. apply filter_In in Hin as [Hin _].
    pose proof (engine_severities rev text) as H.
    rewrite Forall_forall in H. now apply H. }
  repeat split; try reflexivity.
  - rewrite !len_filter_severity. now apply count_severity_total.
  - rewrite filter_disjoint; [reflexivity|].
    intros x Hx. apply Z.eqb_eq in Hx. rewrite Hx. reflexivity.
  - rewrite filter_disjoint; [reflexivity|].
    intros x Hx. apply Z.eqb_eq in Hx. rewrite Hx. reflexivity.
  - now rewrite filter_idem.
  - now rewrite filter_idem.
Qed.

(** ** Switching rules on and off *)

Lemma toggle_eta (r : Rule) :
  {| id := id r; name := name r; enabled := enabled r; category := category r |} = r.
Proof. destruct r; reflexivity. Qed.

(** X6: toggling the same rule twice gives back the configuration. *)
Theorem toggleRule_twice (rid : jsstring) (rules : list Rule) :
  toggleRule rid (toggleRule rid rules) = rules.
Proof.
  unfold toggleRule. rewrite map_map. rewrite <- (map_id rules) at 2.
  apply map_ext. intros r.
  destruct (jsstring_eqb (id r) rid) eqn:E; cbn [id]; rewrite E; [|reflexivity].
  cbn [id name enabled category]. rewrite negb_involutive. apply toggle_eta.
Qed.

Lemma find_toggled (rid key : jsstring) :
  forall rules,
    Forall (fun r => enabled r = true) rules ->
    match find (fun r => jsstring_eqb (id r) key) (toggleRule rid rules) with
    | Some rule => enabled rule
    | None => true
    end
    = negb (jsstring_eqb key rid
            && existsb (fun r => jsstring_eqb (id r) rid) rules).
Proof.
  induction 1 as [|r rules Hr Hall IH]; cbn [toggleRule map find existsb].
  - now rewrite andb_false_r.
  - fold (toggleRule rid rules).
    destruct (jsstring_eqb (id r) rid) eqn:E; cbn [id].
    + apply jsstring_eqb_eq in E.
      destruct (jsstring_eqb (id r) key) eqn:K.
      * apply jsstring_eqb_eq in K. cbn [enabled]. rewrite Hr.
        replace (jsstring_eqb key rid) with true
          by (symmetry; apply jsstring_eqb_eq; congruence).
        reflexivity.
      * rewrite IH. cbn [orb]. rewrite andb_true_r.
        destruct (jsstring_eqb key rid) eqn:K2; [|reflexivity].
        apply jsstring_eqb_eq in K2. rewrite E, K2 in K.
        now rewrite jsstring_eqb_refl in K.
    + destruct (jsstring_eqb (id r) key) eqn:K.
      * apply jsstring_eqb_eq in K. rewrite Hr.
        destruct (jsstring_eqb key rid) eqn:K2; [|reflexivity].
        apply jsstring_eqb_eq in K2. rewrite K, K2 in E.
        now rewrite jsstring_eqb_refl in E.
      * rewrite IH. reflexivity.
Qed.

(** X7: starting from a configuration with every rule enabled, toggling
    rule [rid] hides exactly the messages of that rule when the rule is
    listed, and changes nothing when it is not listed. *)
Theorem toggle_hides_rule (result : LintResult) (rules : list Rule)
  (rid : jsstring) :
  Forall (fun r => enabled r = true) rules ->
  filteredMessages (Some result) all (toggleRule rid rules)
  = if existsb (fun r => jsstring_eqb (id r) rid) rules
    then filter (fun msg => negb (has_rule rid msg)) (messages result)
    else messages result.
Proof.
  intros H. unfold filteredMessages.
  destruct (existsb (fun r => jsstring_eqb (id r) rid) rules) eqn:E.
  - apply filter_ext. intros msg. rewrite (find_toggled rid (ruleId msg) rules H), E.
    unfold has_rule. now rewrite andb_true_r.
  - apply filter_all. apply Forall_forall. intros msg _.
    rewrite (find_toggled rid (ruleId msg) rules H), E. now rewrite andb_false_r.
Qed.

Lemma toggle_hides_rule_witness :
  let result := generateMockLintResult ScanAll (lit "これはすごい！だと思う") in
  filteredMessages (Some result) all
    (toggleRule (lit "ja-no-weak-phrase") initial_rules)
  = if existsb (fun r => jsstring_eqb (id r) (lit "ja-no-weak-phrase"))
         initial_rules
    then filter (fun msg => negb (has_rule (lit "ja-no-weak-phrase") msg))
           (messages result)
    else messages result.
Proof.
  intros result.
  apply (toggle_hides_rule result initial_rules (lit "ja-no-weak-phrase")).
  repeat constructor.
Defined.

(** The rules sentence-length and max-kanji-continuous-len are not in the
    configuration of the page: they have no switch. *)
Lemma rules_without_switch :
  existsb (fun r => jsstring_eqb (id r) (lit "sentence-length")) initial_rules
  = false
  /\ existsb (fun r => jsstring_eqb (id r) (lit "max-kanji-continuous-len"))
            initial_rules = false
  /\ existsb (fun r => jsstring_eqb (id r) (lit "ja-no-weak-phrase"))
            initial_rules = true.
Proof. vm_compute. repeat split. Qed.

(** * Selecting a message in the editor *)

Lemma split_lines_join (text : jsstring) : join_lines (split_lines text) = text.
Proof.
  unfold split_lines. induction text as [|c t IH]; cbn [split_on]; [reflexivity|].
  pose proof (split_on_nonempty (fun c => c =? 0x0A) t) as Hne.
  destruct (c =? 0x0A) eqn:E.
  - apply Z.eqb_eq in E. subst c.
    destruct (split_on (fun c => c =? 0x0A) t) as [|p ps]; [congruence|].
    cbn [join_lines app] in *. now rewrite IH.
  - destruct (split_on (fun c => c =? 0x0A) t) as [|p ps]; [congruence|].
    cbn [join_lines] in *. destruct ps; cbn [app]; now rewrite <- IH.
Qed.

Lemma join_lines_at :
  forall lines k lt,
    nth_error lines k = Some lt ->
    join_lines lines
    = lines_before (firstn k lines) ++ lt
      ++ match skipn (S k) lines with
         | [] => []
         | _ :: _ => 0x0A :: join_lines (skipn (S k) lines)
         end.
Proof.
  induction lines as [|l rest IH]; intros [|k] lt H; try discriminate.
  - injection H as ->. cbn [firstn lines_before flat_map skipn app join_lines].
    destruct rest; [now rewrite app_nil_r | reflexivity].
  - cbn [nth_error] in H. cbn [firstn lines_before flat_map skipn].
    fold (lines_before (firstn k rest)).
    destruct rest as [|l' rest']; [destruct k; discriminate|].
    change (join_lines (l :: l' :: rest'))
      with (l ++ 0x0A :: join_lines (l' :: rest')).
    rewrite (IH k lt H). rewrite <- !app_assoc. reflexivity.
Qed.

Lemma charIndex_loop_before :
  forall lines i acc k lt,
    nth_error lines k = Some lt ->
    charIndex_loop lines i (i + Z.of_nat k + 1) acc
    = acc + len (lines_before (firstn k lines)).
Proof.
  induction lines as [|l rest IH]; intros i acc [|k] lt H; try discriminate;
    cbn [charIndex_loop firstn lines_before flat_map].
  - replace (i <? i + Z.of_nat 0 + 1 - 1) with false
      by (symmetry; apply Z.ltb_ge; lia).
    unfold len; cbn; lia.
  - replace (i <? i + Z.of_nat (S k) + 1 - 1) with true
      by (symmetry; apply Z.ltb_lt; lia).
    replace (i + Z.of_nat (S k) + 1) with (i + 1 + Z.of_nat k + 1) by lia.
    rewrite (IH (i + 1) _ k lt H). fold (lines_before (firstn k rest)).
    unfold len. rewrite !length_app. cbn [List.length]. lia.
Qed.

(** A slice of a line is the same slice of the text, moved by the length
    of what comes before the line. *)
Lemma seg_in_context (pre lt post : jsstring) (a b : nat) :
  (a <= b <= List.length lt)%nat ->
  seg (pre ++ lt ++ post) (List.length pre + a) (List.length pre + b) = seg lt a b.
Proof.
  intros H. unfold seg.
  replace (List.length pre + b - (List.length pre + a))%nat with (b - a)%nat by lia.
  rewrite skipn_app, skipn_all2 by lia.
  replace (List.length pre + a - List.length pre)%nat with a by lia.
  cbn [app]. rewrite skipn_app, firstn_app, length_skipn.
  replace (b - a - (List.length lt - a))%nat with O by lia.
  rewrite firstn_O, app_nil_r. reflexivity.
Qed.

Lemma lookup_nth {A} (l : list A) (i : Z) (x : A) :
  1 <= i -> lookup l (i - 1) = Some x -> nth_error l (Z.to_nat (i - 1)) = Some x.
Proof.
  intros H. unfold lookup.
  replace (i - 1 <? 0) with false by (symmetry; apply Z.ltb_ge; lia). auto.
Qed.

Lemma text_around_line (text : jsstring) (line : Z) (lt : jsstring) :
  1 <= line ->
  lookup (split_lines text) (line - 1) = Some lt ->
  exists pre post,
    text = pre ++ lt ++ post
    /\ charIndex_loop (split_lines text) 0 line 0 = len pre
    /\ (line < len_msgs (split_lines text) -> exists r, post = 0x0A :: r)
    /\ (line = len_msgs (split_lines text) -> post = []).
Proof.
  intros H1 Hl. apply lookup_nth in Hl; [|exact H1].
  set (k := Z.to_nat (line - 1)) in *.
  exists (lines_before (firstn k (split_lines text))).
  eexists. split; [|split; [|split]].
  - rewrite <- (split_lines_join text) at 1. apply (join_lines_at _ k lt Hl).
  - replace line with (0 + Z.of_nat k + 1) by lia.
    rewrite (charIndex_loop_before _ 0 0 k lt Hl). lia.
  - intros Hlt. unfold len_msgs in Hlt.
    destruct (skipn (S k) (split_lines text)) eqn:E; [|eauto].
    apply (f_equal (@List.length _)) in E. rewrite length_skipn in E.
    cbn in E. lia.
  - intros Hlast. unfold len_msgs in Hlast.
    destruct (skipn (S k) (split_lines text)) eqn:E; [reflexivity|].
    apply (f_equal (@List.length _)) in E. rewrite length_skipn in E.
    cbn in E. lia.
Qed.

Lemma selection_length_is_errorLength (lt : jsstring) (column : Z) :
  1 <= column ->
  match match_ (substring_from lt (column - 1)) wordPattern with
  | Some wordMatch => len (m0 wordMatch)
  | None => 1
  end = errorLength lt column.
Proof.
  intros H. unfold errorLength, errorStart. now rewrite Z.max_r by lia.
Qed.

(** X8: for a line of the text and a column on a character of that line,
    the text that [scrollToError] selects in the editor is the [error] text
    that [getErrorContext] shows, and the selection has its length. *)
Theorem scroll_selects_snippet (text : jsstring) (line column contextLength : Z)
  (lineText : jsstring) :
  1 <= line <= len_msgs (split_lines text) ->
  lookup (split_lines text) (line - 1) = Some lineText ->
  1 <= column <= len lineText ->
  exists c,
    getErrorContext text line column contextLength = Some c
    /\ selectedText (scrollToError text line column) = error c
    /\ selectionLength (scrollToError text line column) = len (error c).
Proof.
  intros Hline Hl Hcol. eexists.
  split; [exact (getErrorContext_in_range _ _ _ _ lineText Hline Hl)|].
  cbn [error]. unfold scrollToError; cbn [selectedText selectionLength].
  rewrite Hl, (selection_length_is_errorLength lineText column) by lia.
  destruct (text_around_line text line lineText ltac:(lia) Hl)
    as [pre [post [Ht [Hc _]]]].
  rewrite Hc.
  assert (Hes : errorStart column = column - 1) by (unfold errorStart; lia).
  pose proof (errorLength_pos lineText column) as Hpos.
  pose proof (errorLength_fits lineText column ltac:(lia)) as Hfit.
  set (el := errorLength lineText column) in *.
  unfold errorEnd. fold el. rewrite Hes in *.
  assert (Hlen : len text = len pre + len lineText + len post).
  { rewrite Ht. unfold len. rewrite !length_app. lia. }
  assert (Hpre : 0 <= len pre) by (unfold len; lia).
  assert (Hpost : 0 <= len post) by (unfold len; lia).
  rewrite (substring_seg text) by lia.
  rewrite (substring_seg lineText) by lia.
  pose proof (seg_in_context pre lineText post (Z.to_nat (column - 1))
                (Z.to_nat (column - 1 + el))) as S.
  unfold seg in S. rewrite <- Ht in S. unfold len in *.
  assert (Hsel : firstn (Z.to_nat (Z.of_nat (List.length pre) + (column - 1) + el
                                   - (Z.of_nat (List.length pre) + (column - 1))))
                   (skipn (Z.to_nat (Z.of_nat (List.length pre) + (column - 1))) text)
                 = firstn (Z.to_nat (column - 1 + el - (column - 1)))
                     (skipn (Z.to_nat (column - 1)) lineText)).
  { replace (Z.to_nat (Z.of_nat (List.length pre) + (column - 1) + el
                       - (Z.of_nat (List.length pre) + (column - 1))))
      with (List.length pre + Z.to_nat (column - 1 + el)
            - (List.length pre + Z.to_nat (column - 1)))%nat by lia.
    replace (Z.to_nat (Z.of_nat (List.length pre) + (column - 1)))
      with (List.length pre + Z.to_nat (column - 1))%nat by lia.
    rewrite S by lia. f_equal. lia. }
  split; [exact Hsel|].
  rewrite length_firstn, length_skipn. lia.
Qed.

Lemma scroll_selects_snippet_witness :
  exists c,
    getErrorContext (lit "一行目" ++ 0x0A :: lit "これはすごい！テストです") 2 7 20 = Some c
    /\ selectedText (scrollToError (lit "一行目" ++ 0x0A :: lit "これはすごい！テストです") 2 7) = error c
    /\ selectionLength (scrollToError (lit "一行目" ++ 0x0A :: lit "これはすごい！テストです") 2 7) = len (error c).
Proof.
  apply (scroll_selects_snippet (lit "一行目" ++ 0x0A :: lit "これはすごい！テストです") 2 7 20 (lit "これはすごい！テストです")).
  - split; vm_compute; discriminate.
  - reflexivity.
  - split; vm_compute; discriminate.
Defined.

(** X9: at the column just after the end of a line, the snippet's [error]
    text is empty, while the editor selects one character: the newline that
    ends the line, or nothing when the line is the last one. *)
Theorem end_of_line_selection (text : jsstring) (line contextLength : Z)
  (lineText : jsstring) :
  1 <= line <= len_msgs (split_lines text) ->
  lookup (split_lines text) (line - 1) = Some lineText ->
  let column := len lineText + 1 in
  let sel := scrollToError text line column in
  exists c,
    getErrorContext text line column contextLength = Some c
    /\ error c = []
    /\ selectionLength sel = 1
    /\ (line < len_msgs (split_lines text) -> selectedText sel = [0x0A])
    /\ (line = len_msgs (split_lines text) -> selectedText sel = []).
Proof.
  intros Hline Hl column sel. eexists.
  split; [exact (getErrorContext_in_range _ _ _ _ lineText Hline Hl)|].
  cbn [error]. subst sel. unfold scrollToError; cbn [selectedText selectionLength].
  assert (Hc1 : 1 <= column) by (subst column; unfold len; lia).
  rewrite Hl, (selection_length_is_errorLength lineText column Hc1).
  assert (Hes : errorStart column = len lineText)
    by (unfold errorStart; subst column; unfold len; lia).
  assert (Hrest : substring_from lineText (errorStart column) = []).
  { rewrite Hes, substring_from_skipn by (unfold len; lia).
    apply skipn_all2. unfold len. lia. }
  assert (Hone : errorLength lineText column = 1)
    by (rewrite errorLength_run, Hrest; reflexivity).
  rewrite Hone.
  destruct (text_around_line text line lineText ltac:(lia) Hl)
    as [pre [post [Ht [Hc [Hmid Hlast]]]]].
  rewrite Hc.
  assert (Hlen : len text = len pre + len lineText + len post).
  { rewrite Ht. unfold len. rewrite !length_app. lia. }
  assert (Hskip : skipn (List.length pre + List.length lineText) text = post).
  { rewrite Ht, app_assoc, skipn_app, skipn_all2 by (rewrite length_app; lia).
    rewrite length_app, Nat.sub_diag. reflexivity. }
  split; [|split; [reflexivity|split]].
  - unfold errorEnd. rewrite Hone, Hes, substring_is_seg.
    assert (A : cz lineText (len lineText) = List.length lineText)
      by (unfold cz, clamp, len; lia).
    assert (B : cz lineText (len lineText + 1) = List.length lineText)
      by (unfold cz, clamp, len; lia).
    rewrite A, B, Nat.min_id, Nat.max_id. unfold seg. now rewrite Nat.sub_diag.
  - intros Hlt. destruct (Hmid Hlt) as [r Hr].
    assert (Hp : 1 <= len post) by (rewrite Hr; unfold len; cbn; lia).
    subst column. unfold len in *. rewrite (substring_seg text) by (unfold len; lia).
    replace (Z.to_nat (Z.of_nat (List.length pre)
                       + (Z.of_nat (List.length lineText) + 1 - 1)))
      with (List.length pre + List.length lineText)%nat by lia.
    rewrite Hskip, Hr.
    replace (Z.to_nat (Z.of_nat (List.length pre)
                       + (Z.of_nat (List.length lineText) + 1 - 1) + 1
                       - (Z.of_nat (List.length pre)
                          + (Z.of_nat (List.length lineText) + 1 - 1))))
      with 1%nat by lia.
    reflexivity.
  - intros Hlast'. specialize (Hlast Hlast'). subst post column.
    rewrite substring_is_seg. unfold len in *. cbn [List.length] in Hlen.
    assert (A : cz text (Z.of_nat (List.length pre)
                         + (Z.of_nat (List.length lineText) + 1 - 1))
                = List.length text) by (unfold cz, clamp, len; lia).
    assert (B : cz text (Z.of_nat (List.length pre)
                         + (Z.of_nat (List.length lineText) + 1 - 1) + 1)
                = List.length text) by (unfold cz, clamp, len; lia).
    rewrite A, B, Nat.min_id, Nat.max_id. unfold seg. now rewrite Nat.sub_diag.
Qed.

Lemma end_of_line_selection_witness :
  let text := lit "一行目" ++ 0x0A :: lit "二行目" in
  exists c,
    getErrorContext text 1 (len (lit "一行目") + 1) 20 = Some c
    /\ error c = []
    /\ selectionLength (scrollToError text 1 (len (lit "一行目") + 1)) = 1
    /\ (1 < len_msgs (split_lines text) ->
        selectedText (scrollToError text 1 (len (lit "一行目") + 1)) = [0x0A])
    /\ (1 = len_msgs (split_lines text) ->
        selectedText (scrollToError text 1 (len (lit "一行目") + 1)) = []).
Proof.
  intros text.
  apply (end_of_line_selection text 1 20 (lit "一行目")).
  - split; vm_compute; discriminate.
  - reflexivity.
Defined.

(** * More about the context snippet *)

Lemma context_pieces (lt : jsstring) (column contextLength : Z) :
  0 <= contextLength ->
  substring lt (beforeStart column contextLength) (errorStart column)
  ++ substring lt (errorStart column) (errorEnd lt column)
  ++ substring lt (errorEnd lt column) (afterEnd lt column contextLength)
  = seg lt (cz lt (beforeStart column contextLength))
           (cz lt (afterEnd lt column contextLength)).
Proof.
  intros Hctx.
  pose proof (errorLength_pos lt column) as Hpos.
  assert (E0 : 0 <= errorStart column) by (unfold errorStart; lia).
  set (es := errorStart column) in *.
  set (ee := errorEnd lt column).
  set (bs := beforeStart column contextLength).
  set (ae := afterEnd lt column contextLength).
  assert (Hee : ee = es + errorLength lt column) by reflexivity.
  assert (Hbs : 0 <= bs <= es) by (subst bs; unfold beforeStart; fold es; lia).
  assert (Hae : ae = Z.min (len lt) (ee + contextLength)) by reflexivity.
  assert (P1 : (cz lt bs <= cz lt es)%nat) by (apply cz_mono; lia).
  assert (P2 : (cz lt es <= cz lt ee)%nat) by (apply cz_mono; lia).
  assert (P3 : (cz lt ee <= cz lt ae)%nat).
  { unfold cz, clamp. rewrite Hae. unfold len. lia. }
  rewrite !substring_is_seg.
  rewrite (Nat.min_l _ _ P1), (Nat.max_r _ _ P1), (Nat.min_l _ _ P2),
    (Nat.max_r _ _ P2), (Nat.min_l _ _ P3), (Nat.max_r _ _ P3).
  rewrite seg_app by lia. now rewrite seg_app by lia.
Qed.

Lemma substring_length_le (s : jsstring) (a b : Z) :
  a <= b -> len (substring s a b) <= b - a.
Proof.
  intros H. unfold substring, clamp, len. rewrite length_firstn, length_skipn. lia.
Qed.

(** X10: for a line of the text and a context length that is not
    negative: [before] and [after] are at most [contextLength] characters
    plus the three dots of the marker; and when neither side is cut (the
    column is at most [contextLength + 1] and the line ends within
    [contextLength] of the end of the error), [before ++ error ++ after] is
    the whole line. *)
Theorem context_size_and_whole_line (text : jsstring)
  (line column contextLength : Z) (lineText : jsstring) :
  1 <= line <= len_msgs (split_lines text) ->
  lookup (split_lines text) (line - 1) = Some lineText ->
  0 <= contextLength ->
  exists c,
    getErrorContext text line column contextLength = Some c
    /\ len (before c) <= contextLength + 3
    /\ len (after c) <= contextLength + 3
    /\ (column - 1 <= contextLength ->
        len lineText <= errorEnd lineText column + contextLength ->
        before c ++ error c ++ after c = lineText).
Proof.
  intros Hline Hl Hctx. eexists.
  split; [exact (getErrorContext_in_range _ _ _ _ lineText Hline Hl)|].
  cbn [before error after].
  pose proof (errorLength_pos lineText column) as Hpos.
  assert (E0 : 0 <= errorStart column) by (unfold errorStart; lia).
  assert (Hdots : forall b, len (ellipsis b) <= 3) by (intros []; vm_compute; discriminate).
  split; [|split].
  - unfold len in *. rewrite length_app.
    pose proof (substring_length_le lineText (beforeStart column contextLength)
                  (errorStart column) ltac:(unfold beforeStart; lia)) as H.
    pose proof (Hdots (0 <? beforeStart column contextLength)) as D.
    unfold len, beforeStart in *. lia.
  - unfold len in *. rewrite length_app.
    pose proof (Hdots (afterEnd lineText column contextLength
                       <? Z.of_nat (List.length lineText))) as D.
    assert (H : Z.of_nat (List.length (substring lineText (errorEnd lineText column)
                                         (afterEnd lineText column contextLength)))
                <= contextLength).
    { unfold substring, clamp, afterEnd, errorEnd, len.
      rewrite length_firstn, length_skipn. lia. }
    lia.
  - intros Hb Ha.
    assert (Hbs : beforeStart column contextLength = 0)
      by (unfold beforeStart, errorStart; lia).
    assert (Hae : afterEnd lineText column contextLength = len lineText)
      by (unfold afterEnd; lia).
    rewrite Hbs, Hae, !Z.ltb_irrefl. cbn [ellipsis app]. rewrite app_nil_r.
    pose proof (context_pieces lineText column contextLength Hctx) as P.
    rewrite Hbs, Hae in P. rewrite P.
    assert (A : cz lineText 0 = O) by (unfold cz, clamp, len; lia).
    assert (B : cz lineText (len lineText) = List.length lineText)
      by (unfold cz, clamp, len; lia).
    rewrite A, B. unfold seg. cbn [skipn]. rewrite Nat.sub_0_r.
    apply firstn_all.
Qed.

Lemma context_size_and_whole_line_witness :
  exists c,
    getErrorContext (lit "これはすごい！テストです") 1 7 20 = Some c
    /\ len (before c) <= 20 + 3
    /\ len (after c) <= 20 + 3
    /\ (7 - 1 <= 20 ->
        len (lit "これはすごい！テストです")
        <= errorEnd (lit "これはすごい！テストです") 7 + 20 ->
        before c ++ error c ++ after c = lit "これはすごい！テストです").
Proof.
  apply (context_size_and_whole_line (lit "これはすごい！テストです") 1 7 20
           (lit "これはすごい！テストです")).
  - split; vm_compute; discriminate.
  - reflexivity.
  - vm_compute; discriminate.
Defined.

Lemma run_length_spec (c : cclass) :
  forall s,
    Forall (fun ch => in_class c ch = true) (firstn (run_length c s) s)
    /\ forall ch, nth_error s (run_length c s) = Some ch -> in_class c ch = false.
Proof.
  induction s as [|x s [IH1 IH2]]; cbn [run_length].
  - split; [constructor | intros ch H; discriminate].
  - destruct (in_class c x) eqn:E; cbn [firstn nth_error].
    + split; [constructor; assumption | exact IH2].
    + split; [constructor | intros ch [= <-]; exact E].
Qed.

(** X11: for a column on a character of the line that is not a boundary
    character, the [error] text is the whole word from that column on: it
    does not contain a boundary character, and the character after it, when
    there is one, is a boundary character. *)
Theorem error_is_the_word (text : jsstring) (line column contextLength : Z)
  (lineText : jsstring) (first : Z) :
  1 <= line <= len_msgs (split_lines text) ->
  lookup (split_lines text) (line - 1) = Some lineText ->
  1 <= column ->
  nth_error lineText (Z.to_nat (column - 1)) = Some first ->
  is_boundary first = false ->
  exists c,
    getErrorContext text line column contextLength = Some c
    /\ Forall (fun ch => is_boundary ch = false) (error c)
    /\ nth_error (error c) 0 = Some first
    /\ forall ch,
         nth_error lineText (Z.to_nat (column - 1) + List.length (error c))
         = Some ch ->
         is_boundary ch = true.
Proof.
  intros Hline Hl Hcol Hfirst Hnb. eexists.
  split; [exact (getErrorContext_in_range _ _ _ _ lineText Hline Hl)|].
  cbn [error].
  assert (Hlt : (Z.to_nat (column - 1) < List.length lineText)%nat)
    by (apply nth_error_Some; congruence).
  assert (Hes : errorStart column = column - 1) by (unfold errorStart; lia).
  pose proof (errorLength_fits lineText column ltac:(unfold len; lia)) as Hfit.
  pose proof (errorLength_pos lineText column) as Hpos.
  unfold errorEnd. rewrite substring_seg by lia.
  set (rest := skipn (Z.to_nat (errorStart column)) lineText).
  assert (Hrun : errorLength lineText column = Z.of_nat (run_length wordClass rest)).
  { rewrite errorLength_run, substring_from_skipn by (unfold len in *; lia).
    fold rest. destruct (skipn_cons_nth lineText (Z.to_nat (column - 1)) first Hfirst)
      as [r Hr].
    subst rest. rewrite Hes, Hr. cbn [run_length].
    unfold is_boundary in Hnb. apply negb_false_iff in Hnb. now rewrite Hnb. }
  replace (Z.to_nat (errorStart column + errorLength lineText column
                     - errorStart column))
    with (run_length wordClass rest) by lia.
  destruct (run_length_spec wordClass rest) as [R1 R2].
  pose proof (run_length_le wordClass rest) as Rle.
  split; [|split].
  - eapply Forall_impl; [|exact R1]. cbv beta; intros ch H.
    unfold is_boundary. now rewrite H.
  - destruct (skipn_cons_nth lineText (Z.to_nat (column - 1)) first Hfirst)
      as [r Hr].
    subst rest. rewrite Hes, Hr. cbn [run_length].
    unfold is_boundary in Hnb. apply negb_false_iff in Hnb. rewrite Hnb.
    reflexivity.
  - intros ch Hch. rewrite length_firstn, Nat.min_l in Hch by exact Rle.
    unfold is_boundary. rewrite (R2 ch); [reflexivity|].
    subst rest. rewrite nth_error_skipn. rewrite Hes in *. exact Hch.
Qed.

Lemma error_is_the_word_witness :
  exists c,
    getErrorContext (lit "これは テスト です") 1 5 20 = Some c
    /\ Forall (fun ch => is_boundary ch = false) (error c)
    /\ nth_error (error c) 0 = Some 0x30C6
    /\ forall ch,
         nth_error (lit "これは テスト です") (Z.to_nat (5 - 1) + List.length (error c))
         = Some ch ->
         is_boundary ch = true.
Proof.
  apply (error_is_the_word (lit "これは テスト です") 1 5 20
           (lit "これは テスト です") 0x30C6).
  - split; vm_compute; discriminate.
  - reflexivity.
  - vm_compute; discriminate.
  - reflexivity.
  - reflexivity.
Defined.

(** * What the debounced effect keeps *)

Lemma no_debounce_count (ts : list timer) :
  Forall (fun tm => is_debounce tm = false) ts -> filter is_debounce ts = [].
Proof. apply filter_none. Qed.

Lemma cleared_timers (c : option nat) (ts : list timer) :
  Forall (fun tm => is_blank (timer_text tm) = false
                    /\ (is_debounce tm = true -> c = Some (tid tm))) ts ->
  let ts' := match c with
             | Some i => filter (fun tm => negb (tid tm =? i)%nat) ts
             | None => ts
             end in
  Forall (fun tm => is_blank (timer_text tm) = false /\ is_debounce tm = false) ts'.
Proof.
  intros H. cbv zeta. rewrite Forall_forall in *. intros tm Hin.
  destruct c as [i|].
  - apply filter_In in Hin as [Hin Hne]. destruct (H tm Hin) as [Hb Hd].
    split; [exact Hb|]. destruct (is_debounce tm); [|reflexivity].
    specialize (Hd eq_refl). injection Hd as ->.
    now rewrite Nat.eqb_refl in Hne.
  - destruct (H tm Hin) as [Hb Hd]. split; [exact Hb|].
    destruct (is_debounce tm); [|reflexivity]. now specialize (Hd eq_refl).
Qed.

Lemma setText_ok (x : jsstring) (s : Page) : page_ok s -> page_ok (setText x s).
Proof.
  destruct s as [t ts n c lr ck ec].
  unfold page_ok; cbn [timers cleanup engineCalls text].
  intros [H1 [H2 H3]].
  assert (H1' : Forall (fun tm => is_blank (timer_text tm) = false
                                  /\ (is_debounce tm = true -> c = Some (tid tm)))
                       ts)
    by (eapply Forall_impl; [|exact H1]; cbv beta; intros tm [A B]; split;
        [exact A | intros D; apply (B D)]).
  pose proof (cleared_timers c ts H1') as Hc. cbv zeta in Hc.
  unfold setText; cbn [cleanup timers nextId lintResult clock engineCalls].
  set (ts' := match c with
              | Some i => filter (fun tm => negb (tid tm =? i)%nat) ts
              | None => ts
              end) in *.
  assert (Hs2 : match c with
                | Some timer =>
                  clearTimeout timer
                    {| text := x; timers := ts; nextId := n; cleanup := c;
                       lintResult := lr; clock := ck; engineCalls := ec |}
                | None =>
                  {| text := x; timers := ts; nextId := n; cleanup := c;
                     lintResult := lr; clock := ck; engineCalls := ec |}
                end
                = {| text := x; timers := ts'; nextId := n; cleanup := c;
                     lintResult := lr; clock := ck; engineCalls := ec |})
    by (subst ts'; destruct c; reflexivity).
  rewrite Hs2. unfold lintEffect, setTimeout, isTextlintLoading;
    cbn [text timers nextId cleanup lintResult clock engineCalls].
  rewrite orb_false_r.
  assert (Hnd : Forall (fun tm => is_debounce tm = false) ts')
    by (eapply Forall_impl; [|exact Hc]; cbv beta; tauto).
  destruct (is_blank x) eqn:Hx; cbn [timers cleanup engineCalls text].
  - split; [|split; [rewrite (no_debounce_count ts' Hnd); cbn; lia | exact H3]].
    eapply Forall_impl; [|exact Hc]. cbv beta; intros tm [Hb Hd].
    split; [exact Hb | congruence].
  - split; [|split; [|exact H3]].
    + apply Forall_app; split.
      * eapply Forall_impl; [|exact Hc]. cbv beta; intros tm [Hb Hd].
        split; [exact Hb | congruence].
      * constructor; [|constructor]. cbn. split; [exact Hx | auto].
    + rewrite filter_app, (no_debounce_count ts' Hnd). cbn. lia.
Qed.

Lemma edit_ok (x : jsstring) (s : Page) : page_ok s -> page_ok (edit x s).
Proof.
  intros H. unfold edit. destruct (jsstring_eqb x (text s)); [exact H|].
  now apply setText_ok.
Qed.

Lemma handleClear_ok (s : Page) : page_ok s -> page_ok (handleClear s).
Proof.
  intros H. apply (edit_ok []) in H. unfold handleClear. exact H.
Qed.

Lemma fire_ok (rev : revision) (c : callback) (s : Page) :
  is_blank (match c with DebounceFire x => x | MockResolve x => x end) = false ->
  page_ok s -> page_ok (fire rev c s).
Proof.
  destruct s as [t ts n cl lr ck ec].
  unfold page_ok; cbn [timers cleanup engineCalls text].
  intros Hb [H1 [H2 H3]]. destruct c as [x|x]; cbn.
  - split; [|split; [rewrite filter_app; cbn; rewrite app_nil_r; exact H2
                    | exact H3]].
    apply Forall_app; split; [exact H1|].
    constructor; [|constructor]. cbn. split; [exact Hb | discriminate].
  - split; [exact H1 | split; [exact H2|]].
    apply Forall_app; split; [exact H3|]. constructor; [exact Hb | constructor].
Qed.

Lemma fold_fire_ok (rev : revision) :
  forall due s,
    Forall (fun tm => is_blank (timer_text tm) = false) due ->
    page_ok s -> page_ok (fold_left (fun st tm => fire rev (cb tm) st) due s).
Proof.
  induction due as [|tm due IH]; intros s Hd Hs; cbn [fold_left]; [exact Hs|].
  inversion Hd as [|? ? Hb Hrest]; subst. apply IH; [exact Hrest|].
  apply fire_ok; [exact Hb | exact Hs].
Qed.

Lemma filter_filter_length {A} (f g : A -> bool) (l : list A) :
  (List.length (filter f (filter g l)) <= List.length (filter f l))%nat.
Proof.
  induction l as [|x l IH]; cbn; [lia|].
  destruct (g x), (f x) eqn:F; cbn; rewrite ?F; cbn; lia.
Qed.

Lemma aged_debounce_count (f : timer -> timer) (ts : list timer) :
  (forall tm, is_debounce (f tm) = is_debounce tm) ->
  List.length (filter is_debounce (map f ts))
  = List.length (filter is_debounce ts).
Proof.
  intros Hf. induction ts as [|tm ts IH]; cbn [map filter]; [reflexivity|].
  rewrite Hf. destruct (is_debounce tm); cbn [List.length]; congruence.
Qed.

Lemma tick_ok (rev : revision) (s : Page) : page_ok s -> page_ok (tick rev s).
Proof.
  destruct s as [t ts n c lr ck ec]. unfold page_ok at 1;
    cbn [timers cleanup engineCalls text].
  intros [H1 [H2 H3]]. unfold tick; cbn [timers text nextId cleanup lintResult
                                           clock engineCalls].
  set (aged := map (fun tm => {| tid := tid tm; remaining := pred (remaining tm);
                                 cb := cb tm |}) ts).
  assert (Ha : Forall (fun tm => is_blank (timer_text tm) = false
                                 /\ (is_debounce tm = true ->
                                     c = Some (tid tm) /\ timer_text tm = t))
                      aged).
  { subst aged. apply Forall_map. eapply Forall_impl; [|exact H1].
    cbv beta; intros tm H; exact H. }
  assert (Hcount : (List.length (filter is_debounce aged) <= 1)%nat).
  { subst aged. rewrite aged_debounce_count; [exact H2 | reflexivity]. }
  apply fold_fire_ok.
  - apply Forall_forall. intros tm Hin. apply filter_In in Hin as [Hin _].
    rewrite Forall_forall in Ha. now apply Ha.
  - unfold page_ok; cbn [timers cleanup engineCalls text].
    split; [|split; [|exact H3]].
    + apply Forall_forall. intros tm Hin. apply filter_In in Hin as [Hin _].
      rewrite Forall_forall in Ha. now apply Ha.
    + pose proof (filter_filter_length is_debounce
                    (fun tm => negb (remaining tm =? 0)%nat) aged). lia.
Qed.

Lemma mount_ok (x : jsstring) : page_ok (mount x).
Proof.
  unfold mount, lintEffect, setTimeout, isTextlintLoading;
    cbn [text timers nextId cleanup lintResult clock engineCalls].
  rewrite orb_false_r. destruct (is_blank x) eqn:Hx; unfold page_ok; cbn.
  - split; [constructor | split; [lia | constructor]].
  - split; [|split; [lia | constructor]].
    constructor; [|constructor]. cbn. split; [exact Hx | auto].
Qed.

Lemma run_ok (rev : revision) :
  forall es s, page_ok s -> page_ok (run rev es s).
Proof.
  unfold run. induction es as [|e es IH]; intros s H; cbn [fold_left]; [exact H|].
  apply IH. destruct e; cbn [step];
    [now apply edit_ok | now apply handleClear_ok | now apply tick_ok].
Qed.

(** X12: whatever the user does (edits, the clear button) and however time
    passes after the page is mounted, at most one timer of the lint effect is
    pending; it is the one the effect's cleanup will clear, and it carries
    the text the page has now. *)
Theorem one_pending_debounce (rev : revision) (x0 : jsstring) (es : list event) :
  let s := run rev es (mount x0) in
  (List.length (filter is_debounce (timers s)) <= 1)%nat
  /\ Forall (fun tm => is_debounce tm = true ->
                       cleanup s = Some (tid tm) /\ timer_text tm = text s)
            (timers s).
Proof.
  cbv zeta. destruct (run_ok rev es (mount x0) (mount_ok x0)) as [H1 [H2 _]].
  split; [exact H2|]. eapply Forall_impl; [|exact H1]. cbv beta; tauto.
Qed.

(** X13: whatever the user does and however time passes, the engine is
    never run on a blank text, and no pending timer carries a blank text. *)
Theorem never_lints_blank (rev : revision) (x0 : jsstring) (es : list event) :
  let s := run rev es (mount x0) in
  Forall (fun call => is_blank (snd call) = false) (engineCalls s)
  /\ Forall (fun tm => is_blank (timer_text tm) = false) (timers s).
Proof.
  cbv zeta. destruct (run_ok rev es (mount x0) (mount_ok x0)) as [H1 [_ H3]].
  split; [exact H3|]. eapply Forall_impl; [|exact H1]. cbv beta; tauto.
Qed.

(** ** A lint call in flight is not cancelled *)

Lemma tick_all_waiting (rev : revision) :
  forall t ts n c lr ck ec,
    Forall (fun tm => (1 < remaining tm)%nat) ts ->
    tick rev {| text := t; timers := ts; nextId := n; cleanup := c;
                lintResult := lr; clock := ck; engineCalls := ec |}
    = {| text := t; timers := map (age 1) ts; nextId := n; cleanup := c;
         lintResult := lr; clock := S ck; engineCalls := ec |}.
Proof.
  intros t ts n c lr ck ec H. unfold tick;
    cbn [text timers nextId cleanup lintResult clock engineCalls].
  assert (Hage : map (fun tm => {| tid := tid tm; remaining := pred (remaining tm);
                                   cb := cb tm |}) ts = map (age 1) ts).
  { apply map_ext. intros tm. unfold age. f_equal. lia. }
  rewrite Hage.
  assert (Hnone : Forall (fun tm => (remaining tm =? 0)%nat = false)
                         (map (age 1) ts)).
  { apply Forall_map. eapply Forall_impl; [|exact H].
    cbv beta; intros tm Hr. apply Nat.eqb_neq. cbn. lia. }
  rewrite (filter_none _ _ Hnone). cbn [fold_left].
  rewrite filter_all; [reflexivity|].
  eapply Forall_impl; [|exact Hnone]. cbv beta; intros tm E. now rewrite E.
Qed.

Lemma advance_all_waiting (rev : revision) (d : nat) :
  forall t ts n c lr ck ec,
    Forall (fun tm => (d < remaining tm)%nat) ts ->
    advance rev d {| text := t; timers := ts; nextId := n; cleanup := c;
                     lintResult := lr; clock := ck; engineCalls := ec |}
    = {| text := t; timers := map (age d) ts; nextId := n; cleanup := c;
         lintResult := lr; clock := d + ck; engineCalls := ec |}.
Proof.
  induction d as [|d IH]; intros t ts n c lr ck ec H; cbn [advance].
  - f_equal. rewrite <- (map_id ts) at 1. apply map_ext. intros [i r k].
    unfold age; cbn. f_equal. lia.
  - rewrite tick_all_waiting
      by (eapply Forall_impl; [|exact H]; cbv beta; intros; lia).
    rewrite IH.
    + f_equal; [|lia]. rewrite map_map. apply map_ext. intros [i r k].
      unfold age; cbn. f_equal. lia.
    + apply Forall_map. eapply Forall_impl; [|exact H].
      cbv beta; intros tm Hr. cbn. lia.
Qed.

Lemma tick_resolve_first (rev : revision) :
  forall t i x rest n c lr ck ec,
    Forall (fun tm => (1 < remaining tm)%nat) rest ->
    tick rev {| text := t;
                timers := {| tid := i; remaining := 1; cb := MockResolve x |} :: rest;
                nextId := n; cleanup := c; lintResult := lr; clock := ck;
                engineCalls := ec |}
    = {| text := t; timers := map (age 1) rest; nextId := n; cleanup := c;
         lintResult := Some (generateMockLintResult rev x); clock := S ck;
         engineCalls := ec ++ [(S ck, x)] |}.
Proof.
  intros t i x rest n c lr ck ec H.
  pose proof (tick_all_waiting rev t rest n c lr ck ec H) as T.
  unfold tick in *; cbn [text timers nextId cleanup lintResult clock engineCalls
                          map filter remaining pred Nat.eqb negb] in *.
  set (aged := map (fun tm => {| tid := tid tm; remaining := pred (remaining tm);
                                 cb := cb tm |}) rest) in *.
  assert (Hnone : filter (fun tm => (remaining tm =? 0)%nat) aged = []).
  { subst aged. apply filter_none. apply Forall_map.
    eapply Forall_impl; [|exact H]. cbv beta; intros tm Hr.
    apply Nat.eqb_neq. cbn. lia. }
  rewrite Hnone in *. cbn [fold_left fire cb] in *.
  injection T as T. rewrite T. reflexivity.
Qed.

(** X14: an edit that arrives after the 300 ms timer of an earlier edit
    has fired, but before the 100 ms inside [lintText] have passed, does not
    stop that lint call: 400 ms after the earlier edit the engine runs on the
    earlier text and its result is stored, although the page already holds
    the new text (blank or not). *)
Theorem stale_result_is_stored (rev : revision) (s : Page) (x y : jsstring)
  (d : nat) :
  tracked s ->
  is_blank x = false ->
  (300 <= d < 400)%nat ->
  let s' := advance rev (400 - d) (setText y (advance rev d (setText x s))) in
  text s' = y
  /\ lintResult s' = Some (generateMockLintResult rev x)
  /\ engineCalls s' = engineCalls s ++ [(400 + clock s, x)]%nat.
Proof.
  intros Hs Hx Hd.
  assert (Hmid : advance rev d (setText x s)
                 = {| text := x;
                      timers := [{| tid := S (nextId s);
                                    remaining := 100 - (d - 300);
                                    cb := MockResolve x |}];
                      nextId := S (S (nextId s)); cleanup := Some (nextId s);
                      lintResult := lintResult s; clock := d + clock s;
                      engineCalls := engineCalls s |}).
  { rewrite (setText_tracked x s Hs), Hx.
    replace d with (299 + (1 + (d - 300)))%nat at 1 by lia.
    unfold debounce_timer.
    rewrite advance_add, advance_wait by lia.
    rewrite advance_add. change (300 - 299)%nat with 1%nat.
    change (advance rev 1 ?s) with (tick rev s).
    rewrite tick_debounce, advance_wait by lia.
    f_equal. lia. }
  cbv zeta. rewrite Hmid.
  unfold setText; cbn [cleanup timers nextId lintResult clock engineCalls text].
  unfold clearTimeout; cbn [cleanup timers nextId lintResult clock engineCalls
                              text filter tid].
  replace (S (nextId s) =? nextId s)%nat with false
    by (symmetry; apply Nat.eqb_neq; lia).
  cbn [negb]. unfold lintEffect, setTimeout, isTextlintLoading;
    cbn [cleanup timers nextId lintResult clock engineCalls text app].
  rewrite orb_false_r.
  replace (400 - d)%nat with ((399 - d) + 1)%nat by lia.
  destruct (is_blank y);
    rewrite advance_add, advance_all_waiting
      by (repeat (apply Forall_cons; [cbn [remaining]; lia|]); apply Forall_nil);
    change (advance rev 1 ?s) with (tick rev s);
    cbn [map]; unfold age; cbn [tid remaining cb];
    replace (100 - (d - 300) - (399 - d))%nat with 1%nat by lia.
  - rewrite tick_resolve_first by constructor.
    cbn [text lintResult engineCalls]. repeat split. do 3 f_equal. lia.
  - rewrite tick_resolve_first
      by (repeat (apply Forall_cons; [cbn [remaining]; lia|]); apply Forall_nil).
    cbn [map]; unfold age; cbn [tid remaining cb].
    cbn [text lintResult engineCalls]. repeat split. do 3 f_equal. lia.
Qed.

Lemma stale_result_is_stored_witness :
  let s' := advance ScanAll (400 - 350)
              (setText (lit "あいう")
                 (advance ScanAll 350 (setText (lit "あ") (mount (lit ""))))) in
  text s' = lit "あいう"
  /\ lintResult s' = Some (generateMockLintResult ScanAll (lit "あ"))
  /\ engineCalls s' = engineCalls (mount (lit "")) ++ [(400 + clock (mount (lit "")), lit "あ")]%nat.
Proof.
  apply (stale_result_is_stored ScanAll (mount (lit "")) (lit "あ") (lit "あいう") 350).
  - constructor.
  - reflexivity.
  - lia.
Defined.

(** * The runs of marks *)

Lemma m_run (s : jsstring) (c : cclass) (pos : nat) :
  m s (Rep 1 None c) (fun p cap => Some (p, cap)) pos None
  = match run_length c (skipn pos s) with
    | O => None
    | S r => Some (pos + S r, None)%nat
    end.
Proof.
  cbn [m]. destruct (run_length c (skipn pos s)) as [|r]; reflexivity.
Qed.

Lemma search_run (s : jsstring) (c : cclass) :
  forall t i, skipn i s = t ->
    search s (Rep 1 None c) (List.length t) i
    = match first_run c t with
      | Some (o, r) => Some (mkMatch s (i + o) (i + o + r) None)
      | None => None
      end.
Proof.
  induction t as [|ch t IH]; intros i Ht.
  - cbn [List.length search first_run]. rewrite m_run, Ht. reflexivity.
  - cbn [List.length search first_run]. rewrite m_run, Ht.
    cbn [run_length]. destruct (in_class c ch) eqn:E; cbv iota.
    + rewrite !Nat.add_0_r. reflexivity.
    + rewrite (IH (S i) (skipn_step s i ch t Ht)).
      destruct (first_run c t) as [[o r]|]; [|reflexivity].
      rewrite <- !plus_n_Sm. reflexivity.
Qed.

Lemma first_run_bounds (c : cclass) :
  forall t o r, first_run c t = Some (o, r) ->
    (1 <= r)%nat /\ (o + r <= List.length t)%nat
    /\ r = run_length c (skipn o t)
    /\ Forall (fun ch => in_class c ch = false) (firstn o t).
Proof.
  induction t as [|ch t IH]; intros o r; cbn [first_run]; [discriminate|].
  destruct (in_class c ch) eqn:E.
  - intros [= <- <-]. cbn [skipn firstn run_length]. rewrite E.
    pose proof (run_length_le c t). cbn [List.length].
    repeat split; try lia. constructor.
  - destruct (first_run c t) as [[o' r']|]; [|discriminate].
    intros [= <- <-]. destruct (IH o' r' eq_refl) as [H1 [H2 [H3 H4]]].
    cbn [List.length skipn firstn]. repeat split; try lia; auto.
Qed.

Lemma run_starts_inside (c : cclass) :
  forall t p,
    run_starts c t p true
    = run_starts c (skipn (run_length c t) t) (p + run_length c t) true.
Proof.
  induction t as [|ch t IH]; intros p; cbn [run_length].
  - reflexivity.
  - destruct (in_class c ch) eqn:E.
    + cbn [run_starts skipn]. rewrite E. cbn [app]. rewrite IH.
      f_equal. lia.
    + cbn [skipn]. now rewrite Nat.add_0_r.
Qed.

Lemma run_starts_after_run (c : cclass) (t : jsstring) (p : nat) :
  (forall ch, nth_error t 0 = Some ch -> in_class c ch = false) ->
  run_starts c t p true = run_starts c t p false.
Proof.
  destruct t as [|ch t]; [reflexivity|]. intros H.
  cbn [run_starts]. now rewrite (H ch eq_refl).
Qed.

Lemma run_starts_first (c : cclass) :
  forall t p,
    run_starts c t p false
    = match first_run c t with
      | Some (o, r) => (p + o)%nat :: run_starts c (skipn (o + r) t) (p + o + r) false
      | None => []
      end.
Proof.
  induction t as [|ch t IH]; intros p; cbn [run_starts first_run]; [reflexivity|].
  destruct (in_class c ch) eqn:E.
  - cbn [app]. rewrite Nat.add_0_r. f_equal. cbn [run_length Nat.add]. rewrite E.
    cbn [skipn]. rewrite run_starts_inside.
    rewrite run_starts_after_run.
    + f_equal. lia.
    + intros ch' H'. destruct (run_length_spec c t) as [_ R2]. apply R2.
      now rewrite nth_error_skipn, Nat.add_0_r in H'.
  - rewrite IH. destruct (first_run c t) as [[o r]|]; [|reflexivity].
    cbn [Nat.add skipn]. f_equal; [lia|]. f_equal. lia.
Qed.

(** The loop of a pattern [[...]+] finds the maximal runs of the class, in
    order: the indices of its matches are the starts of the runs. *)
Lemma run_loop (s : jsstring) (c : cclass) :
  forall fuel i,
    (List.length s - i < fuel)%nat ->
    map index (execLoop s (Rep 1 None c) fuel i)
    = map Z.of_nat (run_starts c (skipn i s) i false).
Proof.
  induction fuel as [|fuel IH]; intros i Hf; [lia|].
  cbn [execLoop]. unfold exec.
  destruct (List.length s <? i)%nat eqn:E.
  - apply Nat.ltb_lt in E. rewrite skipn_all2 by lia. reflexivity.
  - apply Nat.ltb_ge in E.
    replace (List.length s - i)%nat with (List.length (skipn i s))
      by (rewrite length_skipn; reflexivity).
    rewrite (search_run s c (skipn i s) i eq_refl), run_starts_first.
    destruct (first_run c (skipn i s)) as [[o r]|] eqn:F; [|reflexivity].
    destruct (first_run_bounds c _ _ _ F) as [H1 [H2 _]].
    rewrite length_skipn in H2.
    cbn [map index mkMatch m_end]. f_equal.
    rewrite IH by lia. rewrite skipn_skipn.
    replace (o + r + i)%nat with (i + o + r)%nat by lia. reflexivity.
Qed.

Lemma exclamation_rule_only (lt : jsstring) (l : Z) (rev : revision) :
  filter (has_rule (lit "no-exclamation-question-mark")) (lint_line lt l rev)
  = exclamation_rule lt l.
Proof.
  unfold lint_line; destruct rev; drop_other_rules;
    (apply filter_all; each_rule ltac:(same_rule)).
Qed.

(** X15: in both revisions, a line gets one no-exclamation-question-mark
    message for each maximal run of the marks [!], [?], [！], [？], in
    order, at the column of the first mark of the run. *)
Theorem exclamation_runs (rev : revision) (text : jsstring) (i : nat)
  (lt : jsstring) :
  nth_error (split_lines text) i = Some lt ->
  map column
      (filter (fun msg => has_rule (lit "no-exclamation-question-mark") msg
                          && on_line (Z.of_nat i + 1) msg)
              (messages (generateMockLintResult rev text)))
  = map (fun p => Z.of_nat p + 1) (run_starts markClass lt O false).
Proof.
  intros Hn. rewrite (messages_of_line _ rev text i lt Hn), exclamation_rule_only.
  unfold exclamation_rule. rewrite map_map. cbn [column lint_msg].
  rewrite <- (map_map index (fun z => z + 1)).
  unfold execAll, exclamationPattern. fold markClass.
  rewrite (run_loop lt markClass) by lia. cbn [skipn].
  now rewrite map_map.
Qed.

Lemma exclamation_runs_witness :
  map column
      (filter (fun msg => has_rule (lit "no-exclamation-question-mark") msg
                          && on_line 1 msg)
              (messages (generateMockLintResult ScanAll (lit "え！？本当?"))))
  = [2; 6].
Proof.
  exact (exclamation_runs ScanAll (lit "え！？本当?") 0 (lit "え！？本当?") eq_refl).
Defined.

(** * The two sentence-length rules *)

(** X16: whenever the revision that splits the line reports a
    sentence-length error on a line, the revision that tests the whole line
    reports one for that line as well: exactly one, at column 1, with the
    length of the line. *)
Theorem split_report_implies_line_report (text : jsstring) (i : nat)
  (lt : jsstring) :
  nth_error (split_lines text) i = Some lt ->
  let found rev :=
    filter (fun msg => has_rule (lit "sentence-length") msg
                       && on_line (Z.of_nat i + 1) msg)
           (messages (generateMockLintResult rev text)) in
  found ScanAll <> [] ->
  found ScanFirst
  = [lint_msg (lit "sentence-length") (sentence_message (len lt))
       (Z.of_nat i + 1) 1 2].
Proof.
  intros Hn found Hne. subst found. cbv beta in *.
  rewrite (messages_of_line _ ScanFirst text i lt Hn), sentence_rule_only.
  rewrite (messages_of_line _ ScanAll text i lt Hn), sentence_rule_only in Hne.
  rewrite sentence_rule_split_eq in Hne.
  destruct (filter overlong (segment_offsets (split_on sentence_delim lt) 1))
    as [|[col sg] rest] eqn:E; [now contradiction Hne|].
  assert (Hin : In (col, sg)
                   (filter overlong (segment_offsets (split_on sentence_delim lt) 1)))
    by (rewrite E; left; reflexivity).
  apply filter_In in Hin as [Hin Hlong].
  pose proof (split_on_offsets sentence_delim lt 1) as Ho.
  rewrite Forall_forall in Ho. destruct (Ho _ Hin) as [n [_ [H2 _]]].
  unfold overlong in Hlong. apply Z.ltb_lt in Hlong. cbn [snd] in *.
  unfold sentence_rule_line.
  replace (100 <? len lt) with true; [reflexivity|].
  symmetry; apply Z.ltb_lt. unfold len in *. lia.
Qed.

Lemma split_report_implies_line_report_witness :
  let text := repeat 0x3042 101 ++ lit "。" ++ repeat 0x3044 5 in
  filter (fun msg => has_rule (lit "sentence-length") msg && on_line 1 msg)
         (messages (generateMockLintResult ScanFirst text))
  = [lint_msg (lit "sentence-length") (sentence_message (len text)) 1 1 2].
Proof.
  intros text.
  apply (split_report_implies_line_report text 0 text eq_refl).
  vm_compute. discriminate.
Defined.

(** * The clear button *)

Lemma blank_text_no_debounce (s : Page) :
  page_ok s -> is_blank (text s) = true -> filter is_debounce (timers s) = [].
Proof.
  intros [H1 _] Hb. apply filter_none. eapply Forall_impl; [|exact H1].
  cbv beta; intros tm [Hn Hd]. destruct (is_debounce tm); [|reflexivity].
  destruct (Hd eq_refl) as [_ Ht]. congruence.
Qed.

Lemma handleClear_text (s : Page) : text (handleClear s) = [].
Proof.
  unfold handleClear, edit; cbn [text].
  destruct (jsstring_eqb [] (text s)) eqn:E.
  - apply jsstring_eqb_eq in E. now rewrite <- E.
  - unfold setText, lintEffect, setTimeout, clearTimeout.
    destruct (cleanup s); cbn [text cleanup timers nextId lintResult clock
                                 engineCalls];
      change (is_blank []) with true; reflexivity.
Qed.

(** X17: in any state the page can reach, the clear button leaves an
    empty text, no stored result and no pending timer of the lint effect, and
    runs nothing. *)
Theorem clear_cancels_pending_lint (rev : revision) (x0 : jsstring)
  (es : list event) :
  let s := run rev es (mount x0) in
  let s' := handleClear s in
  text s' = []
  /\ lintResult s' = None
  /\ filter is_debounce (timers s') = []
  /\ engineCalls s' = engineCalls s.
Proof.
  cbv zeta. set (s := run rev es (mount x0)).
  assert (Hs : page_ok s) by (apply run_ok, mount_ok).
  split; [apply handleClear_text|]. split; [reflexivity|]. split.
  - apply blank_text_no_debounce; [now apply handleClear_ok|].
    now rewrite handleClear_text.
  - unfold handleClear, edit; cbn [engineCalls].
    destruct (jsstring_eqb [] (text s)); [reflexivity|].
    unfold setText, lintEffect, setTimeout, clearTimeout.
    destruct (cleanup s); cbn [text cleanup timers nextId lintResult clock
                                 engineCalls];
      change (is_blank []) with true; reflexivity.
Qed.

(** * The doubled particle *)

Lemma search_matches (s : jsstring) (r : regex) :
  forall n i mt, search s r n i = Some mt ->
    exists j e cap, mt = mkMatch s j e cap
                    /\ m s r (fun p c => Some (p, c)) j None = Some (e, cap).
Proof.
  induction n as [|n IH]; intros i mt; cbn [search];
    destruct (m s r (fun p c => Some (p, c)) i None) as [[e cap]|] eqn:E;
    try discriminate.
  - intros [= <-]. eauto.
  - intros [= <-]. eauto.
  - apply IH.
Qed.

Lemma execLoop_matches (s : jsstring) (r : regex) :
  forall fuel i,
    Forall (fun mt => exists j e cap,
                mt = mkMatch s j e cap
                /\ m s r (fun p c => Some (p, c)) j None = Some (e, cap))
           (execLoop s r fuel i).
Proof.
  induction fuel as [|fuel IH]; intros i; cbn [execLoop]; [constructor|].
  unfold exec at 1. destruct (List.length s <? i)%nat; [constructor|].
  destruct (search s r (List.length s - i) i) as [mt|] eqn:E; constructor;
    [|apply IH].
  apply (search_matches s r _ _ _ E).
Qed.

Lemma in_firstn {A} (x : A) :
  forall n l, In x (firstn n l) -> In x l.
Proof.
  induction n as [|n IH]; intros [|y l] H; cbn in *; try contradiction.
  destruct H as [H|H]; [now left | right; now apply IH].
Qed.

Lemma is_prefix_one (ch : Z) (t : jsstring) :
  is_prefix [ch] t = true -> exists r, t = ch :: r.
Proof.
  destruct t as [|b t]; cbn; [discriminate|]. rewrite andb_true_r.
  intros H. apply Z.eqb_eq in H. subst b. eauto.
Qed.

Lemma slice_one (s : jsstring) (j : nat) (ch : Z) :
  nth_error s j = Some ch -> slice s j (S j) = [ch].
Proof.
  intros H. unfold slice. destruct (skipn_cons_nth s j ch H) as [r ->].
  replace (S j - j)%nat with 1%nat by lia. reflexivity.
Qed.

(** What a match of [/([はがをに])[^はがをに]{0,10}\1/] at position [j] is. *)
Lemma joshi_match (s : jsstring) (j e : nat) (cap : capture) :
  m s doubleJoshiPattern (fun p c => Some (p, c)) j None = Some (e, cap) ->
  exists ch k,
    nth_error s j = Some ch
    /\ in_class particles ch = true
    /\ (k <= 10)%nat
    /\ Forall (fun c => in_class particles c = false) (firstn k (skipn (S j) s))
    /\ nth_error s (S j + k) = Some ch
    /\ e = (S j + k + 1)%nat
    /\ cap = Some (j, S j).
Proof.
  unfold doubleJoshiPattern. cbn [m].
  destruct (nth_error s j) as [ch|] eqn:Hj; [|discriminate].
  fold particles.
  destruct (in_class particles ch) eqn:Hp; [|discriminate].
  intros H. apply try_down_some in H as [k [Hk Hm]].
  rewrite (slice_one s j ch Hj) in Hm.
  destruct (is_prefix [ch] (skipn (S j + k) s)) eqn:Hpre; [|discriminate].
  injection Hm as <- <-.
  exists ch, k. repeat split; auto; try lia.
  - set (rest := skipn (S j) s) in *.
    destruct (run_length_spec (ncls (one_of "はがをに")) rest) as [R1 _].
    assert (Hle : (k <= run_length (ncls (one_of "はがをに")) rest)%nat) by lia.
    replace k with (Nat.min k (run_length (ncls (one_of "はがをに")) rest)) by lia.
    rewrite <- firstn_firstn.
    apply Forall_forall. intros c Hc. apply in_firstn in Hc.
    rewrite Forall_forall in R1. specialize (R1 c Hc).
    unfold in_class in *. cbn [neg ranges ncls particles cls] in *.
    destruct (in_ranges (one_of "はがをに") c); [discriminate | reflexivity].
  - apply is_prefix_one in Hpre as [r Hr].
    rewrite <- (Nat.add_0_r (S j + k)), <- nth_error_skipn, Hr. reflexivity.
  - destruct j; lia.
Qed.

Lemma joshi_rule_only (lt : jsstring) (l : Z) :
  filter (has_rule (lit "no-doubled-joshi")) (lint_line lt l ScanAll)
  = joshi_rule_all lt l.
Proof.
  unfold lint_line; drop_other_rules;
    (apply filter_all; each_rule ltac:(same_rule)).
Qed.

(** X18: in the revision that scans every match, every no-doubled-joshi
    message is at the column of a particle (は, が, を or に) whose next
    occurrence comes after at most 10 characters that are not particles, and
    the message names that particle. *)
Theorem doubled_joshi_sound (text : jsstring) (i : nat) (lt : jsstring) :
  nth_error (split_lines text) i = Some lt ->
  Forall (fun msg =>
            exists (ch : Z) (k : nat),
              1 <= column msg
              /\ nth_error lt (Z.to_nat (column msg - 1)) = Some ch
              /\ in_class particles ch = true
              /\ (k <= 10)%nat
              /\ Forall (fun c => in_class particles c = false)
                        (firstn k (skipn (Z.to_nat (column msg)) lt))
              /\ nth_error lt (Z.to_nat (column msg) + k) = Some ch
              /\ message msg = joshi_message [ch])
         (filter (fun msg => has_rule (lit "no-doubled-joshi") msg
                             && on_line (Z.of_nat i + 1) msg)
                 (messages (generateMockLintResult ScanAll text))).
Proof.
  intros Hn. rewrite (messages_of_line _ ScanAll text i lt Hn), joshi_rule_only.
  unfold joshi_rule_all. apply Forall_map.
  eapply Forall_impl; [|apply execLoop_matches].
  cbv beta; intros mt [j [e [cap [-> Hm]]]].
  apply joshi_match in Hm as [ch [k [H1 [H2 [H3 [H4 [H5 [-> ->]]]]]]]].
  exists ch, k. cbn [column message lint_msg index m1 mkMatch].
  replace (Z.to_nat (Z.of_nat j + 1 - 1)) with j by lia.
  replace (Z.to_nat (Z.of_nat j + 1)) with (S j) by lia.
  rewrite (slice_one lt j ch H1). repeat split; auto; lia.
Qed.

Lemma doubled_joshi_sound_witness :
  Forall (fun msg =>
            exists (ch : Z) (k : nat),
              1 <= column msg
              /\ nth_error (lit "彼は彼は行った") (Z.to_nat (column msg - 1)) = Some ch
              /\ in_class particles ch = true
              /\ (k <= 10)%nat
              /\ Forall (fun c => in_class particles c = false)
                        (firstn k (skipn (Z.to_nat (column msg)) (lit "彼は彼は行った")))
              /\ nth_error (lit "彼は彼は行った") (Z.to_nat (column msg) + k) = Some ch
              /\ message msg = joshi_message [ch])
         (filter (fun msg => has_rule (lit "no-doubled-joshi") msg
                             && on_line (Z.of_nat 0 + 1) msg)
                 (messages (generateMockLintResult ScanAll (lit "彼は彼は行った")))).
Proof.
  exact (doubled_joshi_sound (lit "彼は彼は行った") 0 (lit "彼は彼は行った") eq_refl).
Defined.

(** * The run of kanji *)

Lemma try_down_always {A} (mn : nat) (f : nat -> A) :
  forall j, try_down mn j (fun i => Some (f i))
            = if (j <? mn)%nat then None else Some (f j).
Proof. intros [|j]; cbn [try_down]; destruct (_ <? mn)%nat; reflexivity. Qed.

Lemma m_rep (s : jsstring) (mn : nat) (c : cclass) (pos : nat) :
  m s (Rep mn None c) (fun p cap => Some (p, cap)) pos None
  = if (run_length c (skipn pos s) <? mn)%nat then None
    else Some (pos + run_length c (skipn pos s), None)%nat.
Proof.
  cbn [m].
  apply (try_down_always mn (fun j => ((pos + j)%nat, @None (nat * nat)))).
Qed.

Lemma search_rep (s : jsstring) (mn : nat) (c : cclass) :
  forall n i,
    match search s (Rep mn None c) n i with
    | Some mt =>
      exists j, mt = mkMatch s j (j + run_length c (skipn j s)) None
                /\ (i <= j <= i + n)%nat
                /\ (mn <= run_length c (skipn j s))%nat
                /\ forall p, (i <= p < j)%nat ->
                             (run_length c (skipn p s) < mn)%nat
    | None => forall p, (i <= p <= i + n)%nat ->
                        (run_length c (skipn p s) < mn)%nat
    end.
Proof.
  induction n as [|n IH]; intros i; cbn [search]; rewrite m_rep;
    destruct (run_length c (skipn i s) <? mn)%nat eqn:E.
  - apply Nat.ltb_lt in E. intros p Hp. replace p with i by lia. exact E.
  - apply Nat.ltb_ge in E. exists i. repeat split; try lia.
  - apply Nat.ltb_lt in E. specialize (IH (S i)).
    destruct (search s (Rep mn None c) n (S i)) as [mt|].
    + destruct IH as [j [H1 [H2 [H3 H4]]]]. exists j.
      repeat split; try lia; auto.
      intros p Hp. destruct (Nat.eq_dec p i) as [->|Hne]; [exact E|].
      apply H4. lia.
    + intros p Hp. destruct (Nat.eq_dec p i) as [->|Hne]; [exact E|].
      apply IH. lia.
  - apply Nat.ltb_ge in E. exists i. repeat split; try lia.
Qed.

Lemma run_length_past_end (c : cclass) (s : jsstring) (p : nat) :
  (List.length s <= p)%nat -> run_length c (skipn p s) = O.
Proof. intros H. now rewrite skipn_all2. Qed.

Lemma is_prefix_run (c : cclass) :
  forall p t, is_prefix p t = true -> all_of c p ->
              (List.length p <= run_length c t)%nat.
Proof.
  induction p as [|a p IH]; intros [|b t] H Hall; cbn in *; try lia;
    try discriminate.
  apply andb_prop in H as [H1 H2]. apply Z.eqb_eq in H1. subst b.
  inversion Hall as [|? ? Ha Hp]; subst. rewrite Ha.
  specialize (IH t H2 Hp). lia.
Qed.

Lemma indexOf_from_prefix (p : jsstring) :
  forall s k, indexOf_from s p k <> -1 -> 0 <= k ->
    is_prefix p (skipn (Z.to_nat (indexOf_from s p k - k)) s) = true.
Proof.
  induction s as [|c s IH]; intros k; cbn [indexOf_from].
  - destruct (is_prefix p []) eqn:E; [|congruence].
    intros _ _. now rewrite skipn_nil.
  - destruct (is_prefix p (c :: s)) eqn:E.
    + intros _ _. now rewrite Z.sub_diag.
    + intros H Hk. specialize (IH (k + 1) H ltac:(lia)).
      pose proof (indexOf_from_range p s (k + 1)) as R.
      replace (Z.to_nat (indexOf_from s p (k + 1) - k))
        with (S (Z.to_nat (indexOf_from s p (k + 1) - (k + 1)))) by lia.
      exact IH.
Qed.

Lemma kanji_rule_only (lt : jsstring) (l : Z) (rev : revision) :
  filter (has_rule (lit "max-kanji-continuous-len")) (lint_line lt l rev)
  = kanji_rule lt l.
Proof.
  unfold lint_line; destruct rev; drop_other_rules;
    (apply filter_all; each_rule ltac:(same_rule)).
Qed.

Lemma kanji_rule_first_run (lt : jsstring) (l : Z) :
  (kanji_rule lt l = []
   /\ forall p, (run_length kanji (skipn p lt) < 7)%nat)
  \/ exists j n,
       kanji_rule lt l
       = [lint_msg (lit "max-kanji-continuous-len") (kanji_message n)
            l (Z.of_nat j + 1) 1]
       /\ n = run_length kanji (skipn j lt)
       /\ (7 <= n)%nat
       /\ forall p, (p < j)%nat -> (run_length kanji (skipn p lt) < 7)%nat.
Proof.
  unfold kanji_rule, match_, exec, kanjiPattern. fold kanji.
  change (List.length lt <? 0)%nat with false. cbv iota.
  pose proof (search_rep lt 7 kanji (List.length lt - 0) O) as H.
  destruct (search lt (Rep 7 None kanji) (List.length lt - 0) 0) as [mt|].
  - right. destruct H as [j [-> [H2 [H3 H4]]]].
    exists j, (run_length kanji (skipn j lt)).
    repeat split; auto; [|intros p Hp; apply H4; lia].
    set (n := run_length kanji (skipn j lt)) in *.
    assert (Hm0 : m0 (mkMatch lt j (j + n) None) = firstn n (skipn j lt)).
    { cbn [m0 mkMatch]. unfold slice. f_equal. lia. }
    rewrite Hm0.
    assert (Hall : all_of kanji (firstn n (skipn j lt)))
      by apply (run_length_spec kanji (skipn j lt)).
    assert (Hlen : List.length (firstn n (skipn j lt)) = n).
    { apply firstn_length_le. apply run_length_le. }
    assert (Hidx : indexOf lt (firstn n (skipn j lt)) = Z.of_nat j).
    { pose proof (indexOf_from_found (firstn n (skipn j lt)) lt j 0
                    ltac:(lia) (is_prefix_firstn n _)) as Hle.
      fold (indexOf lt (firstn n (skipn j lt))) in Hle.
      assert (Hne : indexOf lt (firstn n (skipn j lt)) <> -1) by lia.
      pose proof (indexOf_from_prefix _ lt 0 Hne ltac:(lia)) as Hpre.
      fold (indexOf lt (firstn n (skipn j lt))) in Hpre.
      apply (is_prefix_run kanji) in Hpre; [|exact Hall].
      rewrite Hlen, Z.sub_0_r in Hpre.
      destruct (Z.eq_dec (indexOf lt (firstn n (skipn j lt))) (Z.of_nat j))
        as [E|E]; [exact E|].
      specialize (H4 (Z.to_nat (indexOf lt (firstn n (skipn j lt))))
                     ltac:(lia)).
      lia. }
    rewrite Hidx. unfold kanji_message, len. now rewrite Hlen.
  - left. split; [reflexivity|]. intros p.
    destruct (Nat.le_gt_cases p (List.length lt)) as [Hp|Hp].
    + apply H. lia.
    + rewrite run_length_past_end; lia.
Qed.

(** X19: in both revisions, a line gets a max-kanji-continuous-len message
    exactly when seven kanji follow one another somewhere in it; there is
    then one message, at the first position from which at least seven kanji
    follow, and it reports how many kanji follow from that position. *)
Theorem kanji_first_long_run (rev : revision) (text : jsstring) (i : nat)
  (lt : jsstring) :
  nth_error (split_lines text) i = Some lt ->
  let msgs := filter (fun msg => has_rule (lit "max-kanji-continuous-len") msg
                                 && on_line (Z.of_nat i + 1) msg)
                     (messages (generateMockLintResult rev text)) in
  (msgs = [] /\ forall p, (run_length kanji (skipn p lt) < 7)%nat)
  \/ exists j n,
       msgs = [lint_msg (lit "max-kanji-continuous-len") (kanji_message n)
                 (Z.of_nat i + 1) (Z.of_nat j + 1) 1]
       /\ n = run_length kanji (skipn j lt)
       /\ (7 <= n)%nat
       /\ forall p, (p < j)%nat -> (run_length kanji (skipn p lt) < 7)%nat.
Proof.
  intros Hn msgs. subst msgs.
  rewrite (messages_of_line _ rev text i lt Hn), kanji_rule_only.
  apply kanji_rule_first_run.
Qed.

Lemma kanji_first_long_run_witness :
  let text := lit "短い行" ++ 0x0A :: lit "これは東京都千代田区霞関の話" in
  let lt := lit "これは東京都千代田区霞関の話" in
  let msgs := filter (fun msg => has_rule (lit "max-kanji-continuous-len") msg
                                 && on_line (Z.of_nat 1 + 1) msg)
                     (messages (generateMockLintResult ScanAll text)) in
  (msgs = [] /\ forall p, (run_length kanji (skipn p lt) < 7)%nat)
  \/ exists j n,
       msgs = [lint_msg (lit "max-kanji-continuous-len") (kanji_message n)
                 (Z.of_nat 1 + 1) (Z.of_nat j + 1) 1]
       /\ n = run_length kanji (skipn j lt)
       /\ (7 <= n)%nat
       /\ forall p, (p < j)%nat -> (run_length kanji (skipn p lt) < 7)%nat.
Proof.
  exact (kanji_first_long_run ScanAll
           (lit "短い行" ++ 0x0A :: lit "これは東京都千代田区霞関の話") 1
           (lit "これは東京都千代田区霞関の話") eq_refl).
Defined.

(** * The repeated word *)

Lemma is_prefix_app :
  forall p q t, is_prefix p t = true ->
                is_prefix q (skipn (List.length p) t) = true ->
                is_prefix (p ++ q) t = true.
Proof.
  induction p as [|a p IH]; intros q [|b t] Hp Hq; cbn in *; auto;
    try discriminate.
  apply andb_prop in Hp as [H1 H2]. rewrite H1. cbn. now apply IH.
Qed.

Lemma is_prefix_eq :
  forall p t, is_prefix p t = true -> firstn (List.length p) t = p.
Proof.
  induction p as [|a p IH]; intros [|b t] H; cbn in *; auto; try discriminate.
  apply andb_prop in H as [H1 H2]. apply Z.eqb_eq in H1. subst b.
  f_equal. now apply IH.
Qed.

Lemma run_prefix (c : cclass) (t : jsstring) (k : nat) :
  (k <= run_length c t)%nat ->
  List.length (firstn k t) = k
  /\ all_of c (firstn k t)
  /\ is_prefix (firstn k t) t = true.
Proof.
  intros Hk. pose proof (run_length_le c t) as Hle.
  repeat split.
  - apply firstn_length_le. lia.
  - replace k with (Nat.min k (run_length c t)) by lia.
    rewrite <- firstn_firstn. apply Forall_forall. intros ch Hc.
    apply in_firstn in Hc.
    destruct (run_length_spec c t) as [R _]. rewrite Forall_forall in R.
    now apply R.
  - apply is_prefix_firstn.
Qed.

(** What a match of [/(C{mn,})\1/] at position [j] is. *)
Lemma doubled_match (s : jsstring) (mn : nat) (c : cclass) (j e : nat)
  (cap : capture) :
  m s (Seq (Group (Rep mn None c)) Backref) (fun p c => Some (p, c)) j None
  = Some (e, cap) ->
  exists w,
    (mn <= List.length w)%nat
    /\ all_of c w
    /\ is_prefix (w ++ w) (skipn j s) = true
    /\ m0 (mkMatch s j e cap) = w ++ w
    /\ m1 (mkMatch s j e cap) = w.
Proof.
  cbn [m]. intros H. apply try_down_some in H as [k [Hk Hm]].
  cbv beta in Hm.
  destruct (is_prefix (slice s j (j + k)) (skipn (j + k) s)) eqn:Hpre;
    [|discriminate].
  injection Hm as <- <-.
  unfold slice in Hpre. replace (j + k - j)%nat with k in * by lia.
  destruct (run_prefix c (skipn j s) k ltac:(lia)) as [Hlen [Hall Hw]].
  set (w := firstn k (skipn j s)) in *.
  assert (Hww : is_prefix (w ++ w) (skipn j s) = true).
  { apply is_prefix_app; [exact Hw|].
    rewrite Hlen, skipn_skipn, (Nat.add_comm k j). exact Hpre. }
  exists w. repeat split; auto; try lia.
  - cbn [m0 mkMatch]. unfold slice.
    etransitivity; [|apply (is_prefix_eq _ _ Hww)].
    rewrite length_app, Hlen. f_equal. lia.
  - cbn [m1 mkMatch]. unfold slice.
    replace (j + k - j)%nat with k by lia. reflexivity.
Qed.

(** What a match of [/\b([a-zA-Z]{2,})\s+\1\b/] at position [j] is. *)
Lemma spaced_match (s : jsstring) (j e : nat) (cap : capture) :
  m s englishWordPatternWithSpace (fun p c => Some (p, c)) j None
  = Some (e, cap) ->
  exists w gap,
    (2 <= List.length w)%nat
    /\ all_of letters w
    /\ gap <> []
    /\ all_of spaces gap
    /\ is_prefix (w ++ gap ++ w) (skipn j s) = true
    /\ m1 (mkMatch s j e cap) = w.
Proof.
  unfold englishWordPatternWithSpace. fold letters spaces. cbn [m].
  destruct (at_word_boundary s j); [|discriminate].
  intros H. apply try_down_some in H as [a [Ha H]]. cbv beta in H.
  apply try_down_some in H as [b [Hb H]]. cbv beta in H.
  destruct (is_prefix (slice s j (j + a)) (skipn (j + a + b) s)) eqn:Hpre;
    [|discriminate].
  destruct (at_word_boundary s (j + a + b + (j + a - j))); [|discriminate].
  injection H as <- <-.
  unfold slice in Hpre. replace (j + a - j)%nat with a in * by lia.
  destruct (run_prefix letters (skipn j s) a ltac:(lia)) as [Hlw [Haw Hw]].
  destruct (run_prefix spaces (skipn (j + a) s) b ltac:(lia))
    as [Hlg [Hag Hg]].
  set (w := firstn a (skipn j s)) in *.
  set (gap := firstn b (skipn (j + a) s)) in *.
  exists w, gap. repeat split; auto; try lia.
  - intros E. rewrite E in Hlg. cbn in Hlg. lia.
  - apply is_prefix_app; [exact Hw|].
    rewrite Hlw, skipn_skipn, (Nat.add_comm a j).
    apply is_prefix_app; [exact Hg|].
    rewrite Hlg, skipn_skipn, (Nat.add_comm b (j + a)). exact Hpre.
  - cbn [m1 mkMatch]. unfold slice.
    replace (j + a - j)%nat with a by lia. reflexivity.
Qed.

Lemma successive_all_only (lt : jsstring) (l : Z) :
  filter (has_rule (lit "ja-no-successive-word")) (lint_line lt l ScanAll)
  = successive_rule_all lt l.
Proof.
  unfold lint_line; drop_other_rules;
    (apply filter_all; each_rule ltac:(same_rule)).
Qed.

Lemma successive_first_only (lt : jsstring) (l : Z) :
  filter (has_rule (lit "ja-no-successive-word")) (lint_line lt l ScanFirst)
  = successive_rule_first lt l.
Proof.
  unfold lint_line; drop_other_rules;
    (apply filter_all; each_rule ltac:(same_rule)).
Qed.

(** X20: in the revision that scans every match, every ja-no-successive-word
    message is at a column where a word stands twice: either twice in a row
    (two or more kana or kanji, or three or more letters), or, for the
    message that ends in （スペース区切り）, two or more letters, white space,
    and the same letters again.  The message quotes that word. *)
Theorem successive_word_sound (text : jsstring) (i : nat) (lt : jsstring) :
  nth_error (split_lines text) i = Some lt ->
  Forall (fun msg =>
            exists w gap : jsstring,
              phrase_at (w ++ gap ++ w) lt (column msg)
              /\ ((gap = []
                   /\ message msg = successive_message w
                   /\ ((all_of kana_kanji w /\ (2 <= List.length w)%nat)
                       \/ (all_of letters w /\ (3 <= List.length w)%nat)))
                  \/ (gap <> []
                      /\ all_of spaces gap
                      /\ all_of letters w /\ (2 <= List.length w)%nat
                      /\ message msg
                         = successive_message w ++ lit "（スペース区切り）")))
         (filter (fun msg => has_rule (lit "ja-no-successive-word") msg
                             && on_line (Z.of_nat i + 1) msg)
                 (messages (generateMockLintResult ScanAll text))).
Proof.
  intros Hn.
  rewrite (messages_of_line _ ScanAll text i lt Hn), successive_all_only.
  unfold successive_rule_all. rewrite !Forall_app.
  repeat match goal with |- _ /\ _ => split end;
    apply Forall_map; (eapply Forall_impl; [|apply execLoop_matches]);
    cbv beta; intros mt [j [e [cap [-> Hm]]]];
    cbn [column message lint_msg index mkMatch]; unfold phrase_at;
    replace (Z.to_nat (Z.of_nat j + 1 - 1)) with j by lia.
  - apply doubled_match in Hm as [w [H1 [H2 [H3 [_ H5]]]]].
    exists w, []. fold (m1 (mkMatch lt j e cap)). rewrite H5.
    split; [split; [lia | exact H3]|]. left. auto.
  - apply doubled_match in Hm as [w [H1 [H2 [H3 [_ H5]]]]].
    exists w, []. fold (m1 (mkMatch lt j e cap)). rewrite H5.
    split; [split; [lia | exact H3]|]. left. auto.
  - apply spaced_match in Hm as [w [gap [H1 [H2 [H3 [H4 [H5 H6]]]]]]].
    exists w, gap. fold (m1 (mkMatch lt j e cap)). rewrite H6.
    split; [split; [lia | exact H5]|]. right. auto.
Qed.

Lemma successive_word_sound_witness :
  Forall (fun msg =>
            exists w gap : jsstring,
              phrase_at (w ++ gap ++ w) (lit "これはテストテスト the the") (column msg)
              /\ ((gap = []
                   /\ message msg = successive_message w
                   /\ ((all_of kana_kanji w /\ (2 <= List.length w)%nat)
                       \/ (all_of letters w /\ (3 <= List.length w)%nat)))
                  \/ (gap <> []
                      /\ all_of spaces gap
                      /\ all_of letters w /\ (2 <= List.length w)%nat
                      /\ message msg
                         = successive_message w ++ lit "（スペース区切り）")))
         (filter (fun msg => has_rule (lit "ja-no-successive-word") msg
                             && on_line (Z.of_nat 0 + 1) msg)
                 (messages (generateMockLintResult ScanAll
                              (lit "これはテストテスト the the")))).
Proof.
  exact (successive_word_sound (lit "これはテストテスト the the") 0
           (lit "これはテストテスト the the") eq_refl).
Defined.

(** X21: in the revision that takes the first match, a line gets at most
    one ja-no-successive-word message; it is at a column where some
    non-empty text without white space stands twice in a row, and it quotes
    that text.  One repeated character is enough. *)
Theorem successive_first_sound (text : jsstring) (i : nat) (lt : jsstring) :
  nth_error (split_lines text) i = Some lt ->
  let msgs := filter (fun msg => has_rule (lit "ja-no-successive-word") msg
                                 && on_line (Z.of_nat i + 1) msg)
                     (messages (generateMockLintResult ScanFirst text)) in
  (List.length msgs <= 1)%nat
  /\ Forall (fun msg =>
               exists w : jsstring,
                 w <> []
                 /\ all_of (ncls white_space) w
                 /\ phrase_at (w ++ w) lt (column msg)
                 /\ message msg = successive_message w)
            msgs.
Proof.
  intros Hn msgs. subst msgs.
  rewrite (messages_of_line _ ScanFirst text i lt Hn), successive_first_only.
  unfold successive_rule_first, match_, exec.
  destruct (List.length lt <? 0)%nat; [split; [cbn; lia | constructor]|].
  destruct (search lt consecutiveWordsPattern (List.length lt - 0) 0)
    as [mt|] eqn:E; [|split; [cbn; lia | constructor]].
  split; [cbn; lia|]. constructor; [|constructor].
  destruct (search_matches lt _ _ _ _ E) as [j [e [cap [-> Hm]]]].
  apply doubled_match in Hm as [w [H1 [H2 [H3 [H4 H5]]]]].
  exists w. cbn [column message lint_msg]. rewrite H4, H5.
  repeat split; auto.
  - intros ->. cbn in H1. lia.
  - assert (Hj : (j <= List.length lt)%nat).
    { destruct (Nat.le_gt_cases j (List.length lt)) as [L|L]; [exact L|].
      rewrite skipn_all2 in H3 by lia. destruct w; cbn in *; [lia|discriminate]. }
    pose proof (indexOf_from_found (w ++ w) lt j 0 Hj H3) as R. fold (indexOf lt (w ++ w)) in R. lia.
  - assert (Hj : (j <= List.length lt)%nat).
    { destruct (Nat.le_gt_cases j (List.length lt)) as [L|L]; [exact L|].
      rewrite skipn_all2 in H3 by lia. destruct w; cbn in *; [lia|discriminate]. }
    pose proof (indexOf_from_found (w ++ w) lt j 0 Hj H3) as R.
    assert (Hne : indexOf_from lt (w ++ w) 0 <> -1) by lia.
    pose proof (indexOf_from_prefix (w ++ w) lt 0 Hne ltac:(lia)) as P.
    unfold indexOf.
    replace (Z.to_nat (indexOf_from lt (w ++ w) 0 + 1 - 1))
      with (Z.to_nat (indexOf_from lt (w ++ w) 0 - 0)) by lia.
    exact P.
Qed.

Lemma successive_first_sound_witness :
  let msgs := filter (fun msg => has_rule (lit "ja-no-successive-word") msg
                                 && on_line (Z.of_nat 0 + 1) msg)
                     (messages (generateMockLintResult ScanFirst
                                  (lit "いい天気です"))) in
  (List.length msgs <= 1)%nat
  /\ Forall (fun msg =>
               exists w : jsstring,
                 w <> []
                 /\ all_of (ncls white_space) w
                 /\ phrase_at (w ++ w) (lit "いい天気です") (column msg)
                 /\ message msg = successive_message w)
            msgs.
Proof.
  exact (successive_first_sound (lit "いい天気です") 0 (lit "いい天気です")
           eq_refl).
Defined.

(** * From a message to the selection *)

Lemma selected_text_in_line (text : jsstring) (line column : Z)
  (lineText : jsstring) :
  1 <= line ->
  lookup (split_lines text) (line - 1) = Some lineText ->
  1 <= column <= len lineText ->
  let el := errorLength lineText column in
  1 <= el <= len lineText - (column - 1)
  /\ selectedText (scrollToError text line column)
     = firstn (Z.to_nat el) (skipn (Z.to_nat (column - 1)) lineText)
  /\ substring lineText (errorStart column) (errorEnd lineText column)
     = firstn (Z.to_nat el) (skipn (Z.to_nat (column - 1)) lineText).
Proof.
  intros Hline Hl Hcol el.
  assert (Hes : errorStart column = column - 1) by (unfold errorStart; lia).
  pose proof (errorLength_pos lineText column) as Hpos.
  pose proof (errorLength_fits lineText column ltac:(lia)) as Hfit.
  fold el in Hpos, Hfit. rewrite Hes in Hfit.
  split; [lia|].
  destruct (text_around_line text line lineText Hline Hl)
    as [pre [post [Ht [Hc _]]]].
  assert (Hlen : len text = len pre + len lineText + len post).
  { rewrite Ht. unfold len. rewrite !length_app. lia. }
  assert (Hpre : 0 <= len pre) by (unfold len; lia).
  assert (Hpost : 0 <= len post) by (unfold len; lia).
  split.
  - unfold scrollToError; cbn [selectedText].
    rewrite Hl, (selection_length_is_errorLength lineText column) by lia.
    fold el. rewrite Hc, (substring_seg text) by lia.
    pose proof (seg_in_context pre lineText post (Z.to_nat (column - 1))
                  (Z.to_nat (column - 1 + el))) as S.
    unfold seg in S. rewrite <- Ht in S. unfold len in *.
    replace (Z.to_nat (Z.of_nat (List.length pre) + (column - 1) + el
                       - (Z.of_nat (List.length pre) + (column - 1))))
      with (List.length pre + Z.to_nat (column - 1 + el)
            - (List.length pre + Z.to_nat (column - 1)))%nat by lia.
    replace (Z.to_nat (Z.of_nat (List.length pre) + (column - 1)))
      with (List.length pre + Z.to_nat (column - 1))%nat by lia.
    rewrite S by lia. f_equal. lia.
  - unfold errorEnd. fold el. rewrite Hes, (substring_seg lineText) by lia.
    f_equal. lia.
Qed.

(** X22: every message of a lint result, in both revisions, can be shown
    and selected: [getErrorContext] has a snippet for its line and column,
    the [error] text of the snippet is not empty and is the text of the line
    at the message's column, and [scrollToError] selects exactly that text
    in the editor. *)
Theorem every_message_selects_its_text (rev : revision) (text : jsstring)
  (contextLength : Z) :
  Forall (fun msg =>
            exists c lineText,
              lookup (split_lines text) (line msg - 1) = Some lineText
              /\ getErrorContext text (line msg) (column msg) contextLength
                 = Some c
              /\ error c <> []
              /\ phrase_at (error c) lineText (column msg)
              /\ selectedText (scrollToError text (line msg) (column msg))
                 = error c)
         (messages (generateMockLintResult rev text)).
Proof.
  unfold generateMockLintResult; cbn [messages].
  eapply Forall_impl; [|apply lint_lines_inside].
  intros msg [k [lt [H1 [H2 H3]]]].
  assert (Hk : (k < List.length (split_lines text))%nat)
    by (apply nth_error_Some; congruence).
  assert (Hl : lookup (split_lines text) (line msg - 1) = Some lt).
  { unfold lookup. rewrite H1.
    replace (0 + Z.of_nat k + 1 - 1 <? 0) with false
      by (symmetry; apply Z.ltb_ge; lia).
    replace (Z.to_nat (0 + Z.of_nat k + 1 - 1)) with k by lia. exact H2. }
  assert (Hline : 1 <= line msg <= len_msgs (split_lines text))
    by (unfold len_msgs; lia).
  destruct (selected_text_in_line text (line msg) (column msg) lt
              ltac:(lia) Hl H3) as [Hel [Hsel Herr]].
  eexists. exists lt.
  split; [exact Hl|].
  split; [exact (getErrorContext_in_range _ _ _ _ lt Hline Hl)|].
  cbn [error]. rewrite Herr, Hsel.
  repeat split.
  - intros E. apply (f_equal (@List.length Z)) in E.
    rewrite length_firstn, length_skipn in E. unfold len in *. cbn in E. lia.
  - lia.
  - apply is_prefix_firstn.
Qed.

(** * Rules without a switch *)

Lemma toggle_ids (rid : jsstring) (rules : list Rule) :
  map id (toggleRule rid rules) = map id rules.
Proof.
  unfold toggleRule. induction rules as [|r rs IH]; cbn [map]; [reflexivity|].
  rewrite IH. destruct (jsstring_eqb (id r) rid); reflexivity.
Qed.

Lemma toggles_ids (rids : list jsstring) :
  forall rules, map id (toggles rids rules) = map id rules.
Proof.
  unfold toggles. induction rids as [|rid rids IH]; intros rules;
    cbn [fold_left]; [reflexivity|].
  now rewrite IH, toggle_ids.
Qed.

Lemma existsb_by_ids (key : jsstring) (rules : list Rule) :
  existsb (fun r => jsstring_eqb (id r) key) rules
  = existsb (fun i => jsstring_eqb i key) (map id rules).
Proof.
  induction rules as [|r rs IH]; cbn [existsb map]; [reflexivity|].
  now rewrite IH.
Qed.

Lemma find_none_existsb {A} (f : A -> bool) (l : list A) :
  existsb f l = false -> find f l = None.
Proof.
  induction l as [|a l IH]; cbn [existsb find]; [reflexivity|].
  destruct (f a); [discriminate | exact IH].
Qed.

Lemma filter_filter_sub {A} (f g : A -> bool) (l : list A) :
  (forall a, f a = true -> g a = true) ->
  filter f (filter g l) = filter f l.
Proof.
  intros H. induction l as [|a l IH]; cbn [filter]; [reflexivity|].
  destruct (g a) eqn:G; cbn [filter]; rewrite IH; [reflexivity|].
  destruct (f a) eqn:F; [|reflexivity].
  rewrite (H a F) in G. discriminate.
Qed.

Lemma find_after_toggles (key : jsstring) (rids : list jsstring)
  (rules : list Rule) :
  existsb (fun r => jsstring_eqb (id r) key) rules = false ->
  find (fun r => jsstring_eqb (id r) key) (toggles rids rules) = None.
Proof.
  intros H. apply find_none_existsb.
  now rewrite existsb_by_ids, toggles_ids, <- existsb_by_ids.
Qed.

Lemma unswitched_kept (rids : list jsstring) (rules : list Rule)
  (result : LintResult) :
  filter (fun msg => negb (has_switch rules msg))
         (filteredMessages (Some result) all (toggles rids rules))
  = filter (fun msg => negb (has_switch rules msg)) (messages result).
Proof.
  unfold filteredMessages. apply filter_filter_sub. intros msg H.
  apply negb_true_iff in H.
  now rewrite (find_after_toggles (ruleId msg) rids rules H).
Qed.

(** X23: the page has no switch for the rules sentence-length and
    max-kanji-continuous-len, and whatever switches are clicked, in any
    order and any number of times, the list of the page keeps every message
    of a rule that has no switch. *)
Theorem unswitched_rules_always_shown (rids : list jsstring)
  (result : LintResult) :
  (forall msg, ruleId msg = lit "sentence-length"
               \/ ruleId msg = lit "max-kanji-continuous-len" ->
               has_switch initial_rules msg = false)
  /\ filter (fun msg => negb (has_switch initial_rules msg))
            (filteredMessages (Some result) all (toggles rids initial_rules))
     = filter (fun msg => negb (has_switch initial_rules msg))
              (messages result).
Proof.
  split.
  - intros msg [H|H]; unfold has_switch; rewrite H; vm_compute; reflexivity.
  - apply unswitched_kept.
Qed.

Lemma lint_line_rule_ids (lt : jsstring) (l : Z) (rev : revision) :
  Forall (fun msg => has_switch initial_rules msg = true
                     \/ ruleId msg = lit "sentence-length"
                     \/ ruleId msg = lit "max-kanji-continuous-len")
         (lint_line lt l rev).
Proof.
  unfold lint_line; destruct rev;
    each_rule ltac:(unfold has_switch; cbn [ruleId lint_msg sentence_diag];
                    first [ left; vm_compute; reflexivity
                          | right; left; reflexivity
                          | right; right; reflexivity ]).
Qed.

Lemma switched_off (msg : TextlintMessage) :
  has_switch initial_rules msg = true ->
  match find (fun r => jsstring_eqb (id r) (ruleId msg))
             (toggles (map id initial_rules) initial_rules) with
  | Some rule => enabled rule
  | None => true
  end = false
  /\ has_rule (lit "sentence-length") msg = false
  /\ has_rule (lit "max-kanji-continuous-len") msg = false.
Proof.
  unfold has_switch, has_rule, initial_rules. cbn [map existsb id].
  rewrite !orb_true_iff. rewrite !jsstring_eqb_eq.
  intros H.
  repeat (destruct H as [H|H]; [rewrite <- H; vm_compute; auto|]).
  discriminate.
Qed.

(** X24: with every switch of the page clicked once, so that every rule of
    the configuration is off, the list of the page shows exactly the
    sentence-length and max-kanji-continuous-len messages of a result of the
    engine, in both revisions. *)
Theorem all_switches_off (rev : revision) (text : jsstring) :
  filteredMessages (Some (generateMockLintResult rev text)) all
                   (toggles (map id initial_rules) initial_rules)
  = filter (fun msg => has_rule (lit "sentence-length") msg
                       || has_rule (lit "max-kanji-continuous-len") msg)
           (messages (generateMockLintResult rev text)).
Proof.
  unfold filteredMessages. apply filter_ext_in. intros msg Hin.
  assert (Hid : has_switch initial_rules msg = true
                \/ ruleId msg = lit "sentence-length"
                \/ ruleId msg = lit "max-kanji-continuous-len").
  { revert msg Hin. apply Forall_forall.
    unfold generateMockLintResult; cbn [messages].
    apply lint_lines_Forall. intros lt l. apply lint_line_rule_ids. }
  destruct Hid as [H|[H|H]].
  - destruct (switched_off msg H) as [-> [-> ->]]. reflexivity.
  - unfold has_rule. rewrite H. vm_compute. reflexivity.
  - unfold has_rule. rewrite H. vm_compute. reflexivity.
Qed.

(** * Severity by rule *)

Lemma lint_line_severity_by_rule (lt : jsstring) (l : Z) (rev : revision) :
  Forall (fun msg => severity msg
                     = if is_error_rule (ruleId msg) then 2 else 1)
         (lint_line lt l rev).
Proof.
  unfold lint_line; destruct rev;
    each_rule ltac:(cbn [severity ruleId lint_msg sentence_diag];
                    vm_compute; reflexivity).
Qed.

(** X25: in both revisions the severity of a message is fixed by its rule:
    2 (error) for no-exclamation-question-mark, sentence-length and
    ja-no-successive-word, 1 (warning) for every other rule; so the error
    view of the page is the messages of these three rules that are
    switched on. *)
Theorem severity_by_rule (rev : revision) (text : jsstring)
  (rules : list Rule) :
  Forall (fun msg => severity msg
                     = if is_error_rule (ruleId msg) then 2 else 1)
         (messages (generateMockLintResult rev text))
  /\ filteredMessages (Some (generateMockLintResult rev text)) error_ rules
     = filter (fun msg => is_error_rule (ruleId msg))
              (filteredMessages (Some (generateMockLintResult rev text))
                                all rules).
Proof.
  assert (H : Forall (fun msg => severity msg
                                 = if is_error_rule (ruleId msg) then 2 else 1)
                     (messages (generateMockLintResult rev text))).
  { unfold generateMockLintResult; cbn [messages].
    apply lint_lines_Forall. intros lt l. apply lint_line_severity_by_rule. }
  split; [exact H|].
  unfold filteredMessages. apply filter_ext_in. intros msg Hin.
  apply filter_In in Hin as [Hin _].
  rewrite Forall_forall in H. rewrite (H msg Hin).
  destruct (is_error_rule (ruleId msg)); reflexivity.
Qed.

(** * The emphasis pattern *)

(** What a match of [/\*\*[^*]+\*\*:/] at position [j] is. *)
Lemma emphasis_match (s : jsstring) (j e : nat) (cap : capture) :
  m s (Seq (Lit (lit "**")) (Seq (Rep 1 None not_star) (Lit (lit "**:"))))
    (fun p c => Some (p, c)) j None = Some (e, cap) ->
  exists w,
    w <> []
    /\ all_of not_star w
    /\ is_prefix (lit "**" ++ w ++ lit "**:") (skipn j s) = true.
Proof.
  cbn [m].
  destruct (is_prefix (lit "**") (skipn j s)) eqn:H1; [|discriminate].
  intros H. apply try_down_some in H as [k [Hk H]]. cbv beta in H.
  destruct (is_prefix (lit "**:")
              (skipn (j + List.length (lit "**") + k) s)) eqn:H2;
    [|discriminate].
  destruct (run_prefix not_star (skipn (j + List.length (lit "**")) s) k
              ltac:(lia)) as [Hlen [Hall Hw]].
  set (w := firstn k (skipn (j + List.length (lit "**")) s)) in *.
  exists w. repeat split; auto.
  - intros E. rewrite E in Hlen. cbn in Hlen. lia.
  - apply is_prefix_app; [exact H1|].
    rewrite skipn_skipn, (Nat.add_comm (List.length (lit "**")) j).
    apply is_prefix_app; [exact Hw|].
    rewrite Hlen, skipn_skipn, (Nat.add_comm k). exact H2.
Qed.

Lemma emphasis_rule_only (lt : jsstring) (l : Z) (rev : revision) :
  filter (has_rule (lit "no-ai-emphasis-patterns")) (lint_line lt l rev)
  = map (fun mt => lint_msg (lit "no-ai-emphasis-patterns")
                     (lit "AI生成文書に見られる表現パターンです") l (index mt + 1) 1)
        (execAll lt (Seq (Lit (lit "**"))
                         (Seq (Rep 1 None (ncls (one_of "*")))
                              (Lit (lit "**:"))))).
Proof.
  unfold lint_line, ai_rule, aiPatterns; cbn [flat_map];
    destruct rev; drop_other_rules;
    rewrite ?filter_all by (apply Forall_map_intro; intros; same_rule);
    reflexivity.
Qed.

(** X26: in both revisions, every no-ai-emphasis-patterns message is at a
    column where the line has two asterisks, then one or more characters
    that are not asterisks, then two asterisks and a colon. *)
Theorem emphasis_sound (rev : revision) (text : jsstring) (i : nat)
  (lt : jsstring) :
  nth_error (split_lines text) i = Some lt ->
  Forall (fun msg =>
            exists w : jsstring,
              w <> []
              /\ all_of not_star w
              /\ phrase_at (lit "**" ++ w ++ lit "**:") lt (column msg))
         (filter (fun msg => has_rule (lit "no-ai-emphasis-patterns") msg
                             && on_line (Z.of_nat i + 1) msg)
                 (messages (generateMockLintResult rev text))).
Proof.
  intros Hn.
  rewrite (messages_of_line _ rev text i lt Hn), emphasis_rule_only.
  apply Forall_map. eapply Forall_impl; [|apply execLoop_matches].
  cbv beta; intros mt [j [e [cap [-> Hm]]]].
  apply emphasis_match in Hm as [w [H1 [H2 H3]]].
  exists w. cbn [column lint_msg index mkMatch]. unfold phrase_at.
  replace (Z.to_nat (Z.of_nat j + 1 - 1)) with j by lia.
  repeat split; auto. lia.
Qed.

Lemma emphasis_sound_witness :
  Forall (fun msg =>
            exists w : jsstring,
              w <> []
              /\ all_of not_star w
              /\ phrase_at (lit "**" ++ w ++ lit "**:") (lit "次に **重要**: これです")
                           (column msg))
         (filter (fun msg => has_rule (lit "no-ai-emphasis-patterns") msg
                             && on_line (Z.of_nat 0 + 1) msg)
                 (messages (generateMockLintResult ScanAll
                              (lit "次に **重要**: これです")))).
Proof.
  exact (emphasis_sound ScanAll (lit "次に **重要**: これです") 0
           (lit "次に **重要**: これです") eq_refl).
Defined.

(** * The doubled particle, first match *)

Lemma firstn_snoc {A} :
  forall (l : list A) n x,
    nth_error l n = Some x -> firstn (S n) l = firstn n l ++ [x].
Proof.
  induction l as [|y l IH]; intros [|n] x H; try discriminate.
  - injection H as ->. reflexivity.
  - cbn [firstn app]. f_equal. apply (IH n x H).
Qed.

Lemma joshi_first_only (lt : jsstring) (l : Z) :
  filter (has_rule (lit "no-doubled-joshi")) (lint_line lt l ScanFirst)
  = joshi_rule_first lt l.
Proof.
  unfold lint_line; drop_other_rules;
    (apply filter_all; each_rule ltac:(same_rule)).
Qed.

(** X27: in the revision that takes the first match, a line gets at most
    one no-doubled-joshi message; it is at a column where a particle (は,
    が, を or に) stands, followed by at most 10 characters that are not
    particles and by the same particle again, and it names that particle. *)
Theorem doubled_joshi_first_sound (text : jsstring) (i : nat)
  (lt : jsstring) :
  nth_error (split_lines text) i = Some lt ->
  let msgs := filter (fun msg => has_rule (lit "no-doubled-joshi") msg
                                 && on_line (Z.of_nat i + 1) msg)
                     (messages (generateMockLintResult ScanFirst text)) in
  (List.length msgs <= 1)%nat
  /\ Forall (fun msg =>
               exists (ch : Z) (mid : jsstring),
                 in_class particles ch = true
                 /\ (List.length mid <= 10)%nat
                 /\ Forall (fun c => in_class particles c = false) mid
                 /\ phrase_at (ch :: mid ++ [ch]) lt (column msg)
                 /\ message msg = joshi_message [ch])
            msgs.
Proof.
  intros Hn msgs. subst msgs.
  rewrite (messages_of_line _ ScanFirst text i lt Hn), joshi_first_only.
  unfold joshi_rule_first, match_, exec.
  destruct (List.length lt <? 0)%nat; [split; [cbn; lia | constructor]|].
  destruct (search lt doubleJoshiPattern (List.length lt - 0) 0)
    as [mt|] eqn:E; [|split; [cbn; lia | constructor]].
  split; [cbn; lia|]. constructor; [|constructor].
  destruct (search_matches lt _ _ _ _ E) as [j [e [cap [-> Hm]]]].
  apply joshi_match in Hm as [ch [k [H1 [H2 [H3 [H4 [H5 [-> ->]]]]]]]].
  set (mid := firstn k (skipn (S j) lt)) in *.
  assert (Hj : (j < List.length lt)%nat)
    by (apply nth_error_Some; congruence).
  destruct (skipn_cons_nth lt j ch H1) as [rest Hrest].
  pose proof (skipn_step lt j ch rest Hrest) as Hs.
  assert (Hm0 : slice lt j (S j + k + 1) = ch :: mid ++ [ch]).
  { unfold slice. rewrite Hrest.
    replace (S j + k + 1 - j)%nat with (S (S k)) by lia.
    cbn [firstn]. f_equal. subst mid. rewrite Hs.
    apply firstn_snoc. rewrite <- Hs, nth_error_skipn. exact H5. }
  assert (Hpre : is_prefix (ch :: mid ++ [ch]) (skipn j lt) = true).
  { rewrite <- Hm0. unfold slice. apply is_prefix_firstn. }
  pose proof (indexOf_from_found (ch :: mid ++ [ch]) lt j 0 ltac:(lia) Hpre)
    as R.
  assert (Hne : indexOf_from lt (ch :: mid ++ [ch]) 0 <> -1) by lia.
  pose proof (indexOf_from_prefix (ch :: mid ++ [ch]) lt 0 Hne ltac:(lia))
    as P.
  exists ch, mid. cbn [column message lint_msg m0 m1 mkMatch].
  rewrite Hm0, (slice_one lt j ch H1).
  repeat split; auto.
  - subst mid. rewrite length_firstn. lia.
  - unfold indexOf. lia.
  - unfold indexOf.
    replace (Z.to_nat (indexOf_from lt (ch :: mid ++ [ch]) 0 + 1 - 1))
      with (Z.to_nat (indexOf_from lt (ch :: mid ++ [ch]) 0 - 0)) by lia.
    exact P.
Qed.

Lemma doubled_joshi_first_sound_witness :
  let msgs := filter (fun msg => has_rule (lit "no-doubled-joshi") msg
                                 && on_line (Z.of_nat 0 + 1) msg)
                     (messages (generateMockLintResult ScanFirst
                                  (lit "彼は彼は行った"))) in
  (List.length msgs <= 1)%nat
  /\ Forall (fun msg =>
               exists (ch : Z) (mid : jsstring),
                 in_class particles ch = true
                 /\ (List.length mid <= 10)%nat
                 /\ Forall (fun c => in_class particles c = false) mid
                 /\ phrase_at (ch :: mid ++ [ch]) (lit "彼は彼は行った")
                              (column msg)
                 /\ message msg = joshi_message [ch])
            msgs.
Proof.
  exact (doubled_joshi_first_sound (lit "彼は彼は行った") 0
           (lit "彼は彼は行った") eq_refl).
Defined.
